(** * A user directory: record store and directory service

    Shallow embedding of the Go packages [user] (the in-memory record
    store), [service] (normalisation, validation, the error taxonomy and
    the gRPC methods) and [httptransport] (the HTTP handlers), followed by
    the properties that the design document states of them.  The store
    and the service come twice: once on values, once on a heap of arrays
    with slices as windows on them; the second model is shown to compute
    the values of the first.

    Go values are modelled as follows.
    - A Go [string] is a sequence of bytes: [string] of the standard
      library, one [ascii] per byte.
    - [int64] is a [Z] kept in range by [wrap64] after every arithmetic
      step.
    - [map[string]User] is a [gmap string User].
    - A slice value is [None] for [nil] and [Some l] for a non-nil slice
      with elements [l] in the value-level model; the memory-level model
      further down has slice headers pointing into shared arrays.
    - A function with results [(T, error)] returns the pair, the error
      being [None] for [nil]. *)

From Stdlib Require Import ZArith Ascii String List.
From stdpp Require Import base tactics option list numbers strings pretty
  sorting fin_maps gmap.

Local Open Scope string_scope.
Local Open Scope list_scope.
Local Open Scope Z_scope.

(** ** Go's [strings], [strconv] and string comparison *)

Module GoString.

(** The numeric value of a byte. *)
Definition byte (c : ascii) : N := N_of_ascii c.

(** [asciiSpace] of package [strings]: tab, line feed, vertical tab,
    form feed, carriage return and space. *)
Definition asciiSpace (c : ascii) : bool :=
  match c with
  | "009" | "010" | "011" | "012" | "013" | " " => true
  | _ => false
  end%char.

(** The two-byte UTF-8 encodings of white space: U+0085 and U+00A0. *)
Definition space2 (c1 c2 : ascii) : bool :=
  ((byte c1 =? 0xC2) && ((byte c2 =? 0x85) || (byte c2 =? 0xA0)))%N.

(** The three-byte UTF-8 encodings of white space: U+1680,
    U+2000..U+200A, U+2028, U+2029, U+202F, U+205F and U+3000. *)
Definition space3 (c1 c2 c3 : ascii) : bool :=
  (((byte c1 =? 0xE1) && (byte c2 =? 0x9A) && (byte c3 =? 0x80))
   || ((byte c1 =? 0xE2) && (byte c2 =? 0x80)
       && (((0x80 <=? byte c3) && (byte c3 <=? 0x8A))
           || (byte c3 =? 0xA8) || (byte c3 =? 0xA9) || (byte c3 =? 0xAF)))
   || ((byte c1 =? 0xE2) && (byte c2 =? 0x81) && (byte c3 =? 0x9F))
   || ((byte c1 =? 0xE3) && (byte c2 =? 0x80) && (byte c3 =? 0x80)))%N.

(** [strings.TrimLeftFunc(s, unicode.IsSpace)]: drops runes from the
    front while the rune decoded there is white space.  A rune is white
    space exactly when the bytes at the front are one of the encodings
    above; anything else, an invalid byte included, stops the scan. *)
Fixpoint trimLeft (s : string) : string :=
  match s with
  | String c1 r1 =>
      if asciiSpace c1 then trimLeft r1
      else match r1 with
           | String c2 r2 =>
               if space2 c1 c2 then trimLeft r2
               else match r2 with
                    | String c3 r3 =>
                        if space3 c1 c2 c3 then trimLeft r3 else s
                    | EmptyString => s
                    end
           | EmptyString => s
           end
  | EmptyString => s
  end.

(** The same scan over the reversed string, for the right end: the
    last rune is white space exactly when the string ends with one of
    the encodings.  [c1] is the last byte, [c2] the one before. *)
Fixpoint trimLeftRev (s : string) : string :=
  match s with
  | String c1 r1 =>
      if asciiSpace c1 then trimLeftRev r1
      else match r1 with
           | String c2 r2 =>
               if space2 c2 c1 then trimLeftRev r2
               else match r2 with
                    | String c3 r3 =>
                        if space3 c3 c2 c1 then trimLeftRev r3 else s
                    | EmptyString => s
                    end
           | EmptyString => s
           end
  | EmptyString => s
  end.

(** [strings.TrimRightFunc(s, unicode.IsSpace)]. *)
Definition trimRight (s : string) : string :=
  String.rev (trimLeftRev (String.rev s)).

(** [strings.TrimSpace]: the front is trimmed first, the back of what
    is left second. *)
Definition TrimSpace (s : string) : string := trimRight (trimLeft s).

(** [strings.Contains(s, substr)]. *)
Fixpoint Contains (s substr : string) : bool :=
  if String.prefix substr s then true
  else match s with
       | String _ r => Contains r substr
       | EmptyString => false
       end.

(** [strconv.FormatInt(i, 10)]: the decimal numeral of [i], with a
    leading minus sign when [i] is negative. *)
Definition FormatInt (i : Z) : string := pretty i.

(** The comparison [a < b] of two Go strings: byte-wise lexicographic. *)
Definition less (a b : string) : bool := String.ltb a b.

End GoString.

(** Arithmetic on [int64] wraps around. *)
Definition wrap64 (z : Z) : Z := (z + 2 ^ 63) `mod` 2 ^ 64 - 2 ^ 63.

Definition maxInt64 : Z := 2 ^ 63 - 1.

(** ** Go's [sort.Slice] *)

Module sort.

(** Puts [x] into the sorted list [l], before the first element that
    [x] is less than. *)
Fixpoint insert {A} (less : A → A → bool) (x : A) (l : list A) : list A :=
  match l with
  | [] => [x]
  | y :: r => if less x y then x :: y :: r else y :: insert less x r
  end.

(** [sort.Slice(l, less)], as an insertion sort.  Go's sort is not
    stable, but the records of a store have pairwise different
    identifiers, and then every correct sort gives the same result
    ([sorted_listing_unique] below). *)
Fixpoint Slice {A} (less : A → A → bool) (l : list A) : list A :=
  match l with
  | [] => []
  | x :: r => insert less x (Slice less r)
  end.

End sort.

(** ** Errors

    The two sentinel errors of the repository are made with [errors.New];
    validation failures wrap a sentinel with [fmt.Errorf("%w: ...")]. *)

Inductive error : Type :=
  | errors_New (text : string)
  | Errorf_w (inner : error) (rest : string).

(** [err.Error()]: a wrapped error prints the wrapped text followed by
    the rest of the format string. *)
Fixpoint Error_text (e : error) : string :=
  match e with
  | errors_New t => t
  | Errorf_w inner rest => Error_text inner +:+ rest
  end.

Global Instance error_eq_dec : EqDecision error.
Proof. solve_decision. Defined.

(** [errors.Is(err, target)]: [target] is found along the chain of
    wrapped errors. *)
Fixpoint errors_Is (e target : error) : bool :=
  if decide (e = target) then true
  else match e with
       | Errorf_w inner _ => errors_Is inner target
       | errors_New _ => false
       end.

(** ** Package [user]: records and the store (value level) *)

Module user.
Import GoString.

(** A slice value: [None] is [nil]. *)
Definition slice (A : Type) : Type := option (list A).

Definition elems {A} (s : slice A) : list A := default [] s.

Record Attributes : Type := mkAttributes {
  Name : string;
  Email : string;
  Phone : string;
  Address : string;
  Bio : string;
  Tags : slice string;
  Avatar : slice ascii
}.

Record User : Type := mkUser {
  ID : string;
  Attrs : Attributes
}.

(** The zero values [Attributes{}] and [User{}]. *)
Definition zeroAttributes : Attributes :=
  mkAttributes "" "" "" "" "" None None.
Definition zeroUser : User := mkUser "" zeroAttributes.

Definition ErrNotFound : error := errors_New "user not found".

Record Store : Type := mkStore {
  users : gmap string User;
  nextID : Z
}.

Definition NewStore : Store := mkStore ∅ 0.

(** [append([]T(nil), xs...)]: appending nothing to [nil] leaves
    [nil]; otherwise the result is a new slice with the same elements. *)
Definition appendNil {A} (xs : list A) : slice A :=
  match xs with
  | [] => None
  | _ :: _ => Some xs
  end.

Definition cloneAttributes (attrs : Attributes) : Attributes :=
  let copied := attrs in
  let copied :=
    match Tags attrs with
    | Some l =>
        mkAttributes (Name copied) (Email copied) (Phone copied)
          (Address copied) (Bio copied) (appendNil l) (Avatar copied)
    | None => copied
    end in
  let copied :=
    match Avatar attrs with
    | Some l =>
        mkAttributes (Name copied) (Email copied) (Phone copied)
          (Address copied) (Bio copied) (Tags copied) (appendNil l)
    | None => copied
    end in
  copied.

Definition Create (s : Store) (attrs : Attributes) : Store * User :=
  let next := wrap64 (nextID s + 1) in
  let id := FormatInt next in
  let u := mkUser id (cloneAttributes attrs) in
  (mkStore (<[id := u]> (users s)) next, u).

Definition Update (s : Store) (id : string) (attrs : Attributes)
  : Store * (User * option error) :=
  match users s !! id with
  | None => (s, (zeroUser, Some ErrNotFound))
  | Some _ =>
      let u := mkUser id (cloneAttributes attrs) in
      (mkStore (<[id := u]> (users s)) (nextID s), (u, None))
  end.

(** Reading a missing key of a Go map gives the zero value and
    [false]. *)
Definition Get (s : Store) (id : string) : User * bool :=
  match users s !! id with
  | Some u => (u, true)
  | None => (zeroUser, false)
  end.

Definition Delete (s : Store) (id : string) : Store * bool :=
  match users s !! id with
  | None => (s, false)
  | Some _ => (mkStore (delete id (users s)) (nextID s), true)
  end.

(** [for _, u := range s.users] visits the records of the map in an
    order that Go leaves unspecified: [visit] is one such order. *)
Definition rangeOrder (s : Store) (visit : list User) : Prop :=
  visit ≡ₚ (map_to_list (users s)).*2.

(** [List] when [range] visits the records in the order [visit]. *)
Definition List_visiting (s : Store) (visit : list User) : slice User :=
  if decide (size (users s) = 0%nat) then None
  else Some (sort.Slice (λ a b, less (ID a) (ID b)) visit).

(** [List] with the records visited in the order of [map_to_list]. *)
Definition List (s : Store) : slice User :=
  List_visiting s (map_to_list (users s)).*2.

End user.

(** ** Package [service]: the directory service (value level) *)

Module service.
Import GoString.
Import user.

Definition ErrInvalidInput : error := errors_New "invalid user input".

Definition normalizeAttributes (attrs : Attributes) : Attributes :=
  let tags :=
    if decide (0 < length (elems (Tags attrs)))%nat then
      Some (filter (λ tag, tag ≠ "") (TrimSpace <$> elems (Tags attrs)))
    else Tags attrs in
  mkAttributes (TrimSpace (Name attrs)) (TrimSpace (Email attrs))
    (TrimSpace (Phone attrs)) (TrimSpace (Address attrs))
    (TrimSpace (Bio attrs)) tags (Avatar attrs).

Definition validatePayload (attrs : Attributes) : option error :=
  if decide (Name attrs = "") then
    Some (Errorf_w ErrInvalidInput ": name is required")
  else if bool_decide (Email attrs = "") || negb (Contains (Email attrs) "@")
  then Some (Errorf_w ErrInvalidInput ": email must contain '@'")
  else None.

Definition validateIdentifier (id : string) : option error :=
  if decide (TrimSpace id = "") then
    Some (Errorf_w ErrInvalidInput ": id is required")
  else None.

(** The service holds a pointer to its store; the store is threaded
    through the calls. *)
Definition Create (s : Store) (attrs : Attributes)
  : Store * (User * option error) :=
  let clean := normalizeAttributes attrs in
  match validatePayload clean with
  | Some err => (s, (zeroUser, Some err))
  | None => let '(s', u) := user.Create s clean in (s', (u, None))
  end.

Definition Update (s : Store) (id : string) (attrs : Attributes)
  : Store * (User * option error) :=
  match validateIdentifier id with
  | Some err => (s, (zeroUser, Some err))
  | None =>
      let clean := normalizeAttributes attrs in
      match validatePayload clean with
      | Some err => (s, (zeroUser, Some err))
      | None =>
          match user.Update s id clean with
          | (s', (_, Some err)) => (s', (zeroUser, Some err))
          | (s', (updated, None)) => (s', (updated, None))
          end
      end
  end.

Definition Get (s : Store) (id : string) : User * option error :=
  match validateIdentifier id with
  | Some err => (zeroUser, Some err)
  | None =>
      match user.Get s id with
      | (_, false) => (zeroUser, Some ErrNotFound)
      | (u, true) => (u, None)
      end
  end.

Definition Delete (s : Store) (id : string) : Store * option error :=
  match validateIdentifier id with
  | Some err => (s, Some err)
  | None =>
      match user.Delete s id with
      | (s', false) => (s', Some ErrNotFound)
      | (s', true) => (s', None)
      end
  end.

Definition List (s : Store) : slice User := user.List s.

(** *** The gRPC methods of the service *)

(** Modelled from the spec: the generated message [userpb.User] of
    package [pkg/gen/user/v1], which is not among the sources; it has
    one field per field that [toProto] fills. *)
Record pbUser : Type := mkPbUser {
  pb_Id : string;
  pb_Name : string;
  pb_Email : string;
  pb_Phone : string;
  pb_Address : string;
  pb_Bio : string;
  pb_Tags : slice string;
  pb_Avatar : slice ascii
}.

(** The gRPC status codes that [serviceError] produces. *)
Inductive code : Type := InvalidArgument | NotFound | Internal.

(** [status.Error(code, msg)]. *)
Record Status : Type := mkStatus { Code : code; Message : string }.

Definition serviceError (err : error) : Status :=
  if errors_Is err ErrInvalidInput then
    mkStatus InvalidArgument (Error_text err)
  else if errors_Is err ErrNotFound then
    mkStatus NotFound (Error_text err)
  else mkStatus Internal (Error_text err).

Definition toProto (u : User) : pbUser :=
  mkPbUser (ID u) (Name (Attrs u)) (Email (Attrs u)) (Phone (Attrs u))
    (Address (Attrs u)) (Bio (Attrs u))
    (appendNil (elems (Tags (Attrs u))))
    (appendNil (elems (Avatar (Attrs u)))).

Definition protoToAttributes (name email phone address bio : string)
    (tags : slice string) (avatar : slice ascii) : Attributes :=
  mkAttributes name email phone address bio
    (appendNil (elems tags)) (appendNil (elems avatar)).

(** [GetUser]; [reqId] is [req.GetId()].  The response is [nil] when
    there is an error. *)
Definition GetUser (s : Store) (reqId : string)
  : option pbUser * option Status :=
  match Get s (TrimSpace reqId) with
  | (_, Some err) => (None, Some (serviceError err))
  | (u, None) => (Some (toProto u), None)
  end.

Definition UpdateUser (s : Store) (reqId : string)
    (name email phone address bio : string)
    (tags : slice string) (avatar : slice ascii)
  : Store * (option pbUser * option Status) :=
  let attrs := protoToAttributes name email phone address bio tags avatar in
  match Update s (TrimSpace reqId) attrs with
  | (s', (_, Some err)) => (s', (None, Some (serviceError err)))
  | (s', (u, None)) => (s', (Some (toProto u), None))
  end.

(** [DeleteUser]; [true] stands for the empty response. *)
Definition DeleteUser (s : Store) (reqId : string)
  : Store * (bool * option Status) :=
  match Delete s (TrimSpace reqId) with
  | (s', Some err) => (s', (false, Some (serviceError err)))
  | (s', None) => (s', (true, None))
  end.

(** [CreateUser]; the arguments are the fields of the request, as its
    getters return them. *)
Definition CreateUser (s : Store) (name email phone address bio : string)
    (tags : slice string) (avatar : slice ascii)
  : Store * (option pbUser * option Status) :=
  let attrs := protoToAttributes name email phone address bio tags avatar in
  match Create s attrs with
  | (s', (_, Some err)) => (s', (None, Some (serviceError err)))
  | (s', (u, None)) => (s', (Some (toProto u), None))
  end.

(** [ListUsers]: the messages of the listed records, in the order of
    [List]; the slice of the response is made with [make] and is never
    [nil], and there is no error. *)
Definition ListUsers (s : Store) : list pbUser :=
  toProto <$> elems (List s).

End service.

(** ** Package [httptransport]: the HTTP handlers

    A handler is modelled from the values it takes out of the request to
    the status code and the value it hands to [c.JSON]. *)

Module httptransport.
Import user.

(** What a handler writes as the body of the response. *)
Inductive body : Type :=
  | UserBody (u : User)
  | UsersBody (l : slice User)
  | ErrorBody (message : string)
  | NoBody.

Record response : Type := mkResponse { status : Z; content : body }.

Definition handleError (err : error) : response :=
  if errors_Is err service.ErrInvalidInput then
    mkResponse 400 (ErrorBody (Error_text err))
  else if errors_Is err ErrNotFound then
    mkResponse 404 (ErrorBody (Error_text err))
  else mkResponse 500 (ErrorBody (Error_text err)).

(** [payload] is what [c.ShouldBindJSON] decoded, [None] when it
    failed. *)
Definition createUser (s : Store) (payload : option Attributes)
  : Store * response :=
  match payload with
  | None => (s, mkResponse 400 (ErrorBody "invalid JSON payload"))
  | Some attrs =>
      match service.Create s attrs with
      | (s', (_, Some err)) => (s', handleError err)
      | (s', (created, None)) => (s', mkResponse 201 (UserBody created))
      end
  end.

Definition listUsers (s : Store) : response :=
  mkResponse 200 (UsersBody (service.List s)).

(** [id] is [c.Param("id")], the path segment as it came. *)
Definition getUser (s : Store) (id : string) : response :=
  match service.Get s id with
  | (_, Some err) => handleError err
  | (u, None) => mkResponse 200 (UserBody u)
  end.

Definition updateUser (s : Store) (id : string) (payload : option Attributes)
  : Store * response :=
  match payload with
  | None => (s, mkResponse 400 (ErrorBody "invalid JSON payload"))
  | Some attrs =>
      match service.Update s id attrs with
      | (s', (_, Some err)) => (s', handleError err)
      | (s', (updated, None)) => (s', mkResponse 200 (UserBody updated))
      end
  end.

Definition deleteUser (s : Store) (id : string) : Store * response :=
  match service.Delete s id with
  | (s', Some err) => (s', handleError err)
  | (s', None) => (s', mkResponse 204 NoBody)
  end.

End httptransport.

(** ** Histories of store calls

    Every method of the store runs under the store's lock from its first
    statement to its return, so a concurrent execution is a sequence of
    whole calls: a history lists the calls in the order in which they took
    the lock. *)

Module history.
Import user.

Inductive call : Type :=
  | CallCreate (attrs : Attributes)
  | CallUpdate (id : string) (attrs : Attributes)
  | CallGet (id : string)
  | CallDelete (id : string)
  | CallList.

Inductive reply : Type :=
  | ReplyCreate (u : User)
  | ReplyUpdate (r : User * option error)
  | ReplyGet (r : User * bool)
  | ReplyDelete (existed : bool)
  | ReplyList (l : slice User).

Definition step (s : Store) (c : call) : Store * reply :=
  match c with
  | CallCreate attrs => let '(s', u) := Create s attrs in (s', ReplyCreate u)
  | CallUpdate id attrs =>
      let '(s', r) := Update s id attrs in (s', ReplyUpdate r)
  | CallGet id => (s, ReplyGet (Get s id))
  | CallDelete id => let '(s', b) := Delete s id in (s', ReplyDelete b)
  | CallList => (s, ReplyList (List s))
  end.

(** Runs the calls in order; returns the final store and the replies. *)
Fixpoint run (s : Store) (cs : list call) : Store * list reply :=
  match cs with
  | [] => (s, [])
  | c :: cs' =>
      let '(s1, r) := step s c in
      let '(s2, rs) := run s1 cs' in
      (s2, r :: rs)
  end.

(** The store after the calls, started from an empty store. *)
Definition after (cs : list call) : Store := (run NewStore cs).1.

(** The records returned by the [Create] calls, in call order. *)
Definition created (rs : list reply) : list User :=
  omap (λ r, match r with ReplyCreate u => Some u | _ => None end) rs.

(** Whether [id] names a live record after a call: a [Create] that
    returns [id] makes it live, a [Delete] of [id] ends that. *)
Definition liveStep (id : string) (b : bool) (cr : call * reply) : bool :=
  match cr with
  | (CallCreate _, ReplyCreate u) => if decide (ID u = id) then true else b
  | (CallDelete id', _) => if decide (id' = id) then false else b
  | _ => b
  end.

(** [id] was created and not deleted since, in the history [cs] run
    from an empty store. *)
Definition live (id : string) (cs : list call) : bool :=
  fold_left (liveStep id) (zip cs (run NewStore cs).2) false.

End history.

(** ** The same code at the level of memory

    A Go slice is a window on an array, and copying a struct copies the
    window, not the array: two records with the same window share their
    tags.  This model keeps the arrays in a heap and lets a caller write
    through a slice it holds, which is what the ownership of record data is
    about.  Strings are immutable in Go and stay values. *)

Module mem.
Import GoString.

(** A non-nil slice: the array it points into, the index of its first
    element there, and its length.  The capacity is left out: the one
    [append] to a non-nil slice, in [normalizeAttributes], appends at most
    as many elements as the slice it started from has, so it never
    reallocates. *)
Record window : Type := mkWindow { arr : nat; off : nat; len : nat }.

(** A slice value: [None] is [nil]. *)
Definition slice : Type := option window.

(** The arrays allocated so far, addressed by their index: the arrays of
    strings hold tags, the arrays of bytes hold avatars.  Nothing is ever
    freed. *)
Record Heap : Type := mkHeap {
  tagArrays : list (list string);
  byteArrays : list (list ascii)
}.

(** The elements of a slice. *)
Definition window_elems {A} (arrays : list (list A)) (sl : slice) : list A :=
  match sl with
  | None => []
  | Some w => take (len w) (drop (off w) (default [] (arrays !! arr w)))
  end.

(** [sl[i] = v].  [None] is the run-time panic for an index out of
    range. *)
Definition window_set {A} (arrays : list (list A)) (sl : slice) (i : nat)
    (v : A) : option (list (list A)) :=
  match sl with
  | Some w =>
      if decide (i < len w)%nat
      then Some (alter (λ a, <[(off w + i)%nat := v]> a) (arr w) arrays)
      else None
  | None => None
  end.

Record Attributes : Type := mkAttributes {
  Name : string;
  Email : string;
  Phone : string;
  Address : string;
  Bio : string;
  Tags : slice;
  Avatar : slice
}.

Record User : Type := mkUser {
  ID : string;
  Attrs : Attributes
}.

Definition zeroAttributes : Attributes :=
  mkAttributes "" "" "" "" "" None None.
Definition zeroUser : User := mkUser "" zeroAttributes.

Record Store : Type := mkStore {
  users : gmap string User;
  nextID : Z
}.

Definition NewStore : Store := mkStore ∅ 0.

Definition tagsOf (h : Heap) (attrs : Attributes) : list string :=
  window_elems (tagArrays h) (Tags attrs).

Definition avatarOf (h : Heap) (attrs : Attributes) : list ascii :=
  window_elems (byteArrays h) (Avatar attrs).

(** The statements [attrs.Tags[i] = v] and [attrs.Avatar[i] = b] of a
    caller that holds [attrs]. *)
Definition setTag (h : Heap) (attrs : Attributes) (i : nat) (v : string)
  : option Heap :=
  (λ arrays, mkHeap arrays (byteArrays h))
    <$> window_set (tagArrays h) (Tags attrs) i v.

Definition setAvatarByte (h : Heap) (attrs : Attributes) (i : nat) (b : ascii)
  : option Heap :=
  (λ arrays, mkHeap (tagArrays h) arrays)
    <$> window_set (byteArrays h) (Avatar attrs) i b.

(** [append([]T(nil), xs...)]: with no element to append the result is
    [nil]; otherwise a new array is allocated and filled with the elements
    of [xs]. *)
Definition appendNil {A} (arrays : list (list A)) (xs : slice)
  : list (list A) * slice :=
  match window_elems arrays xs with
  | [] => (arrays, None)
  | e :: es =>
      (arrays ++ [e :: es],
       Some (mkWindow (length arrays) 0 (length (e :: es))))
  end.

Definition cloneAttributes (h : Heap) (attrs : Attributes)
  : Heap * Attributes :=
  let '(tagArrays', tags) :=
    match Tags attrs with
    | Some _ => appendNil (tagArrays h) (Tags attrs)
    | None => (tagArrays h, Tags attrs)
    end in
  let '(byteArrays', avatar) :=
    match Avatar attrs with
    | Some _ => appendNil (byteArrays h) (Avatar attrs)
    | None => (byteArrays h, Avatar attrs)
    end in
  (mkHeap tagArrays' byteArrays',
   mkAttributes (Name attrs) (Email attrs) (Phone attrs) (Address attrs)
     (Bio attrs) tags avatar).

Definition Create (h : Heap) (s : Store) (attrs : Attributes)
  : Heap * Store * User :=
  let next := wrap64 (nextID s + 1) in
  let id := FormatInt next in
  let '(h', copied) := cloneAttributes h attrs in
  let u := mkUser id copied in
  (h', mkStore (<[id := u]> (users s)) next, u).

Definition Update (h : Heap) (s : Store) (id : string) (attrs : Attributes)
  : Heap * Store * (User * option error) :=
  match users s !! id with
  | None => (h, s, (zeroUser, Some user.ErrNotFound))
  | Some _ =>
      let '(h', copied) := cloneAttributes h attrs in
      let u := mkUser id copied in
      (h', mkStore (<[id := u]> (users s)) (nextID s), (u, None))
  end.

(** [Get] copies the record out of the map: the windows of its tags and
    avatar are the stored ones. *)
Definition Get (s : Store) (id : string) : User * bool :=
  match users s !! id with
  | Some u => (u, true)
  | None => (zeroUser, false)
  end.

Definition Delete (s : Store) (id : string) : Store * bool :=
  match users s !! id with
  | None => (s, false)
  | Some _ => (mkStore (delete id (users s)) (nextID s), true)
  end.

(** [List] builds a new slice of records; each record in it is a copy
    of the stored struct, windows included. *)
Definition List_visiting (s : Store) (visit : list User) : option (list User) :=
  if decide (size (users s) = 0%nat) then None
  else Some (sort.Slice (λ a b, less (ID a) (ID b)) visit).

Definition List (s : Store) : option (list User) :=
  List_visiting s (map_to_list (users s)).*2.

(** *** The service *)

(** The loop of [normalizeAttributes] over the array [a] that holds the
    tags: [i] is the index of the tag being read, [k] the length of
    [clean]; both count from the start [o] of the window.  A tag that is
    kept is written back into the same array, at [clean]'s end. *)
Fixpoint normalizeLoop (a : list string) (o : nat) (i : nat) (n : nat)
    (k : nat) : list string * nat :=
  match n with
  | O => (a, k)
  | S n' =>
      let tag := TrimSpace (default "" (a !! (o + i)%nat)) in
      if decide (tag = "") then normalizeLoop a o (S i) n' k
      else normalizeLoop (<[(o + k)%nat := tag]> a) o (S i) n' (S k)
  end.

Definition normalizeAttributes (h : Heap) (attrs : Attributes)
  : Heap * Attributes :=
  let '(h', tags) :=
    match Tags attrs with
    | Some w =>
        if decide (0 < len w)%nat then
          let '(a', k) :=
            normalizeLoop (default [] (tagArrays h !! arr w)) (off w) 0
              (len w) 0 in
          (mkHeap (<[arr w := a']> (tagArrays h)) (byteArrays h),
           Some (mkWindow (arr w) (off w) k))
        else (h, Tags attrs)
    | None => (h, Tags attrs)
    end in
  (h', mkAttributes (TrimSpace (Name attrs)) (TrimSpace (Email attrs))
         (TrimSpace (Phone attrs)) (TrimSpace (Address attrs))
         (TrimSpace (Bio attrs)) tags (Avatar attrs)).

Definition validatePayload (attrs : Attributes) : option error :=
  if decide (Name attrs = "") then
    Some (Errorf_w service.ErrInvalidInput ": name is required")
  else if bool_decide (Email attrs = "") || negb (Contains (Email attrs) "@")
  then Some (Errorf_w service.ErrInvalidInput ": email must contain '@'")
  else None.

Definition service_Create (h : Heap) (s : Store) (attrs : Attributes)
  : Heap * Store * (User * option error) :=
  let '(h1, clean) := normalizeAttributes h attrs in
  match validatePayload clean with
  | Some err => (h1, s, (zeroUser, Some err))
  | None => let '(h2, s', u) := Create h1 s clean in (h2, s', (u, None))
  end.

Definition service_Update (h : Heap) (s : Store) (id : string)
    (attrs : Attributes) : Heap * Store * (User * option error) :=
  match service.validateIdentifier id with
  | Some err => (h, s, (zeroUser, Some err))
  | None =>
      let '(h1, clean) := normalizeAttributes h attrs in
      match validatePayload clean with
      | Some err => (h1, s, (zeroUser, Some err))
      | None =>
          match Update h1 s id clean with
          | (h2, s', (_, Some err)) => (h2, s', (zeroUser, Some err))
          | (h2, s', (updated, None)) => (h2, s', (updated, None))
          end
      end
  end.

Definition service_Get (s : Store) (id : string) : User * option error :=
  match service.validateIdentifier id with
  | Some err => (zeroUser, Some err)
  | None =>
      match Get s id with
      | (_, false) => (zeroUser, Some user.ErrNotFound)
      | (u, true) => (u, None)
      end
  end.

(** *** The gRPC methods

    A message holds its tags and its avatar as slices, as a record
    does. *)
Record pbUser : Type := mkPbUser {
  pb_Id : string;
  pb_Name : string;
  pb_Email : string;
  pb_Phone : string;
  pb_Address : string;
  pb_Bio : string;
  pb_Tags : slice;
  pb_Avatar : slice
}.

Definition protoToAttributes (h : Heap) (name email phone address bio : string)
    (tags avatar : slice) : Heap * Attributes :=
  let '(tagArrays', tags') := appendNil (tagArrays h) tags in
  let '(byteArrays', avatar') := appendNil (byteArrays h) avatar in
  (mkHeap tagArrays' byteArrays',
   mkAttributes name email phone address bio tags' avatar').

Definition toProto (h : Heap) (u : User) : Heap * pbUser :=
  let '(tagArrays', tags') := appendNil (tagArrays h) (Tags (Attrs u)) in
  let '(byteArrays', avatar') := appendNil (byteArrays h) (Avatar (Attrs u)) in
  (mkHeap tagArrays' byteArrays',
   mkPbUser (ID u) (Name (Attrs u)) (Email (Attrs u)) (Phone (Attrs u))
     (Address (Attrs u)) (Bio (Attrs u)) tags' avatar').

Definition CreateUser (h : Heap) (s : Store)
    (name email phone address bio : string) (tags avatar : slice)
  : Heap * Store * (option pbUser * option service.Status) :=
  let '(h0, attrs) :=
    protoToAttributes h name email phone address bio tags avatar in
  match service_Create h0 s attrs with
  | (h1, s', (_, Some err)) =>
      (h1, s', (None, Some (service.serviceError err)))
  | (h1, s', (u, None)) =>
      let '(h2, pb) := toProto h1 u in (h2, s', (Some pb, None))
  end.

Definition GetUser (h : Heap) (s : Store) (reqId : string)
  : Heap * (option pbUser * option service.Status) :=
  match service_Get s (TrimSpace reqId) with
  | (_, Some err) => (h, (None, Some (service.serviceError err)))
  | (u, None) => let '(h', pb) := toProto h u in (h', (Some pb, None))
  end.

(** [UpdateUser]: the tags and the avatar of the request are copied by
    [protoToAttributes] before [Update] of the service normalises them. *)
Definition UpdateUser (h : Heap) (s : Store) (reqId : string)
    (name email phone address bio : string) (tags avatar : slice)
  : Heap * Store * (option pbUser * option service.Status) :=
  let '(h0, attrs) :=
    protoToAttributes h name email phone address bio tags avatar in
  match service_Update h0 s (TrimSpace reqId) attrs with
  | (h1, s', (_, Some err)) =>
      (h1, s', (None, Some (service.serviceError err)))
  | (h1, s', (u, None)) =>
      let '(h2, pb) := toProto h1 u in (h2, s', (Some pb, None))
  end.

(** What a slice and a message hold in a heap. *)
Definition valueOfSlice {A} (arrays : list (list A)) (sl : slice)
  : user.slice A :=
  match sl with
  | Some _ => Some (window_elems arrays sl)
  | None => None
  end.

Definition valueOfMessage (h : Heap) (pb : pbUser) : service.pbUser :=
  service.mkPbUser (pb_Id pb) (pb_Name pb) (pb_Email pb) (pb_Phone pb)
    (pb_Address pb) (pb_Bio pb) (valueOfSlice (tagArrays h) (pb_Tags pb))
    (valueOfSlice (byteArrays h) (pb_Avatar pb)).

Definition valueOfAnswer (h : Heap)
    (answer : option pbUser * option service.Status)
  : option service.pbUser * option service.Status :=
  (valueOfMessage h <$> answer.1, answer.2).

(** The statement [pb.Tags[i] = v] of a caller that holds the message
    [pb]. *)
Definition setMessageTag (h : Heap) (pb : pbUser) (i : nat) (v : string)
  : option Heap :=
  (λ arrays, mkHeap arrays (byteArrays h))
    <$> window_set (tagArrays h) (pb_Tags pb) i v.

Definition setMessageAvatarByte (h : Heap) (pb : pbUser) (i : nat) (b : ascii)
  : option Heap :=
  (λ arrays, mkHeap (tagArrays h) arrays)
    <$> window_set (byteArrays h) (pb_Avatar pb) i b.

(** *** What a record holds

    The value of a record in a heap: its fields, with the tags and the
    avatar read through their windows. *)
Definition valueOfAttributes (h : Heap) (attrs : Attributes)
  : user.Attributes :=
  user.mkAttributes (Name attrs) (Email attrs) (Phone attrs) (Address attrs)
    (Bio attrs)
    (match Tags attrs with
     | Some _ => Some (tagsOf h attrs)
     | None => None
     end)
    (match Avatar attrs with
     | Some _ => Some (avatarOf h attrs)
     | None => None
     end).

Definition valueOfUser (h : Heap) (u : User) : user.User :=
  user.mkUser (ID u) (valueOfAttributes h (Attrs u)).

Definition valueOfStore (h : Heap) (s : Store) : user.Store :=
  user.mkStore (valueOfUser h <$> users s) (nextID s).

(** A slice points into an allocated array. *)
Definition allocated {A} (arrays : list (list A)) (sl : slice) : Prop :=
  match sl with
  | Some w => (arr w < length arrays)%nat
  | None => True
  end.

Definition allocatedAttributes (h : Heap) (attrs : Attributes) : Prop :=
  allocated (tagArrays h) (Tags attrs)
  ∧ allocated (byteArrays h) (Avatar attrs).

(** Every stored record points into allocated arrays. *)
Definition allocatedStore (h : Heap) (s : Store) : Prop :=
  map_Forall (λ _ u, allocatedAttributes h (Attrs u)) (users s).

(** The heap [h'] has every array of [h], unchanged, and maybe more. *)
Definition extends (h h' : Heap) : Prop :=
  tagArrays h `prefix_of` tagArrays h'
  ∧ byteArrays h `prefix_of` byteArrays h'.

End mem.

(** ** Go's [strconv.Atoi] and [strconv.Itoa], the environment *)

Module strconv.

Definition minInt64 : Z := - 2 ^ 63.

(** The value of a decimal digit. *)
Definition digit (c : ascii) : option Z :=
  let n := GoString.byte c in
  if (48 <=? n)%N && (n <=? 57)%N then Some (Z.of_N n - 48) else None.

(** The digits of [s] read after the number [n]. *)
Fixpoint digits (n : Z) (s : string) : option Z :=
  match s with
  | EmptyString => Some n
  | String c r =>
      match digit c with
      | Some d => digits (n * 10 + d) r
      | None => None
      end
  end.

(** [strconv.Atoi] where [int] has 64 bits: an optional sign, then one
    decimal digit or more, and a value that fits [int]; [None] stands for
    an error, of syntax or of range. *)
Definition Atoi (s : string) : option Z :=
  match s with
  | EmptyString => None
  | String c r =>
      let neg := bool_decide (c = "-"%char) in
      let body := if neg || bool_decide (c = "+"%char) then r else s in
      match body with
      | EmptyString => None
      | _ =>
          match digits 0 body with
          | Some n =>
              let i := if neg then - n else n in
              if (minInt64 <=? i) && (i <=? maxInt64) then Some i else None
          | None => None
          end
      end
  end.

(** [strconv.Itoa(i)] is [FormatInt(int64(i), 10)]. *)
Definition Itoa (i : Z) : string := GoString.FormatInt i.

End strconv.

(** The environment of the process: [os.LookupEnv(key)] is [env !! key]. *)
Abbreviation Env := (gmap string string).

(** ** Package [config]: the configuration of the server *)

Module config.
Import strconv.

Definition defaultHTTPHost : string := "127.0.0.1".
Definition defaultGRPCHost : string := "127.0.0.1".
Definition defaultHTTPPort : Z := 8087.
Definition defaultGRPCPort : Z := 50055.
Definition defaultShutdownSeconds : Z := 5.

(** [time.Second], in nanoseconds. *)
Definition Second : Z := 1000000000.

(** [ShutdownGrace] is a [time.Duration], a number of nanoseconds. *)
Record Config : Type := mkConfig {
  HTTPAddr : string;
  GRPCAddr : string;
  ShutdownGrace : Z
}.

Definition lookupEnv (env : Env) (key fallback : string) : string :=
  match env !! key with
  | Some v => if decide (v ≠ "") then v else fallback
  | None => fallback
  end.

Definition lookupEnvInt (env : Env) (key : string) (fallback : Z) : Z :=
  match env !! key with
  | Some v =>
      if decide (v ≠ "") then
        match Atoi v with
        | Some parsed => parsed
        | None => fallback
        end
      else fallback
  | None => fallback
  end.

Definition joinHostPort (host : string) (port : Z) : string :=
  host +:+ ":" +:+ Itoa port.

Definition Load (env : Env) : Config :=
  let httpAddr :=
    joinHostPort (lookupEnv env "HTTP_HOST" defaultHTTPHost)
      (lookupEnvInt env "HTTP_PORT" defaultHTTPPort) in
  let grpcAddr :=
    joinHostPort (lookupEnv env "GRPC_HOST" defaultGRPCHost)
      (lookupEnvInt env "GRPC_PORT" defaultGRPCPort) in
  let grace :=
    wrap64
      (lookupEnvInt env "SHUTDOWN_GRACE_SECONDS" defaultShutdownSeconds
       * Second) in
  mkConfig httpAddr grpcAddr grace.

End config.

(** ** Command [server]: the shutdown of the two listeners

    Times are counted in nanoseconds, as [time.Duration] counts them,
    from the moment at which [main] makes the grace context; a statement
    that does not block takes no time.  The calls on the two servers and on
    the context are not code of the repository: they are modelled from the
    documentation of [net/http], of [google.golang.org/grpc] and of
    [context]. *)

Module server.

Definition Millisecond : Z := 1000000.



(** The calls that stop a server: [Shutdown] and [Close] of
    [http.Server], [GracefulStop] and [Stop] of [grpc.Server]. *)
Inductive call : Type :=
  | HTTPShutdown
  | HTTPClose
  | GRPCGracefulStop
  | GRPCStop.






End server.

(** ** The benchmark client: configuration, statistics, share of work *)

Module testclient.
Import strconv.

Definition defaultHTTPBaseURL : string := "http://127.0.0.1:8087".
Definition defaultGRPCAddress : string := "127.0.0.1:50055".
Definition defaultIterations : Z := 100.
Definition defaultConcurrency : Z := 5.
Definition defaultWarmup : Z := 20.
Definition defaultRPCTimeoutMs : Z := 2000.

(** [time.Millisecond], in nanoseconds. *)
Definition Millisecond : Z := 1000000.

Definition operationsOrder : list string :=
  ["create"; "update"; "get"; "delete"].

Record benchConfig : Type := mkBenchConfig {
  HTTPBaseURL : string;
  GRPCAddress : string;
  Iterations : Z;
  Concurrency : Z;
  Warmup : Z;
  RPCTimeout : Z
}.

Record stats : Type := mkStats { Avg : Z; Min : Z; Max : Z }.

Record accumulator : Type := mkAccumulator {
  total : Z;
  min : Z;
  max : Z;
  count : Z
}.

(** [accumulator{}] and [stats{}]. *)
Definition zeroAccumulator : accumulator := mkAccumulator 0 0 0 0.
Definition zeroStats : stats := mkStats 0 0 0.

(** [a.add(d)]; the accumulator is updated in place, here the new one
    is returned. *)
Definition accumulator_add (a : accumulator) (d : Z) : accumulator :=
  let total' := wrap64 (total a + d) in
  let min' := if (count a =? 0) || (d <? min a) then d else min a in
  let max' := if (count a =? 0) || (max a <? d) then d else max a in
  mkAccumulator total' min' max' (wrap64 (count a + 1)).

(** [a.stats()]; the division of [int64] rounds towards zero. *)
Definition accumulator_stats (a : accumulator) : stats :=
  if count a =? 0 then zeroStats
  else mkStats (wrap64 (total a ÷ count a)) (min a) (max a).

(** [statCollector] maps a key to a pointer to an accumulator of its
    own; the accumulators are kept in the map. *)
Abbreviation statCollector := (gmap string accumulator).

Definition newCollector (keys : list string) : statCollector :=
  foldl (λ c key, <[key := zeroAccumulator]> c) ∅ keys.

Definition statCollector_add (c : statCollector) (key : string) (d : Z)
  : statCollector :=
  match c !! key with
  | Some acc => <[key := accumulator_add acc d]> c
  | None => c
  end.

Definition statCollector_stats (c : statCollector) : gmap string stats :=
  accumulator_stats <$> c.

(** [strings.TrimRight(s, cutset)] for a cutset of one ASCII byte [c]:
    the bytes [c] at the end of [s] are removed. *)
Fixpoint trimLeftByte (s : string) (c : ascii) : string :=
  match s with
  | String x r => if decide (x = c) then trimLeftByte r c else s
  | EmptyString => s
  end.

Definition trimRightByte (s : string) (c : ascii) : string :=
  String.rev (trimLeftByte (String.rev s) c).

Definition getEnv (env : Env) (key fallback : string) : string :=
  match env !! key with
  | Some value =>
      if decide (GoString.TrimSpace value ≠ "") then value else fallback
  | None => fallback
  end.

Definition getEnvInt (env : Env) (key : string) (fallback : Z) : Z :=
  match env !! key with
  | Some value =>
      match Atoi (GoString.TrimSpace value) with
      | Some parsed => if 0 <? parsed then parsed else fallback
      | None => fallback
      end
  | None => fallback
  end.

Definition loadConfig (env : Env) : benchConfig :=
  mkBenchConfig
    (trimRightByte (getEnv env "BENCH_HTTP_BASE_URL" defaultHTTPBaseURL) "/")
    (getEnv env "BENCH_GRPC_ADDR" defaultGRPCAddress)
    (getEnvInt env "BENCH_ITERATIONS" defaultIterations)
    (getEnvInt env "BENCH_CONCURRENCY" defaultConcurrency)
    (getEnvInt env "BENCH_WARMUP" defaultWarmup)
    (wrap64 (getEnvInt env "BENCH_RPC_TIMEOUT_MS" defaultRPCTimeoutMs
             * Millisecond)).

(** [min] of the client. *)
Definition min_int (a b : Z) : Z := if a <? b then a else b.

(** The loop of [measureHTTPBatch] and [measureGRPCBatch] that hands
    out the work: [n] counts the rounds left, [w] is the number of the
    worker; the result lists the arguments [(start, end)] of the workers
    started, in the order in which they are started. *)
Fixpoint workers (n : nat) (w per iterations : Z) : list (Z * Z) :=
  match n with
  | O => []
  | S n' =>
      let start := wrap64 (w * per) in
      let end_ := min_int (wrap64 (wrap64 (w + 1) * per)) iterations in
      if end_ <=? start then []
      else (start, end_) :: workers n' (wrap64 (w + 1)) per iterations
  end.

(** The statements of [measureHTTPBatch] and [measureGRPCBatch] from
    the division [per := ...] to the end of the loop that starts the
    workers, which run once the channel [out] is made; [None] stands for
    the panic of a division by zero. *)
Definition shares (cfg : benchConfig) : option (list (Z * Z)) :=
  if Concurrency cfg =? 0 then None
  else
    let per :=
      wrap64 (wrap64 (wrap64 (Iterations cfg + Concurrency cfg) - 1)
              ÷ Concurrency cfg) in
    Some (workers (Z.to_nat (Concurrency cfg)) 0 per (Iterations cfg)).

(** [make(chan opResult, size)]: the run-time panics when the size is
    negative or larger than the channel buffers it grants; [limit] is the
    largest size it grants for a channel of [opResult], which depends on
    the platform (with addresses of 48 bits and 24 bytes for an
    [opResult], 11728124029606).  [None] stands for the panic. *)
Definition makeChan (limit size : Z) : option Z :=
  if (size <? 0) || (limit <? size) then None else Some size.

(** [measureHTTPBatch] and [measureGRPCBatch] from the making of the
    channel [out] to the end of the loop that starts the workers: the
    workers started, or [None] for a panic, before which no worker is
    started. *)
Definition startWorkers (limit : Z) (cfg : benchConfig)
  : option (list (Z * Z)) :=
  match
    makeChan limit
      (wrap64 (Iterations cfg * Z.of_nat (length operationsOrder)))
  with
  | Some _ => shares cfg
  | None => None
  end.

(** The indices [idxStart, ..., idxEnd - 1] that the loop of a worker
    goes through. *)
Definition indices (share : Z * Z) : list Z :=
  seqZ share.1 (share.2 - share.1).

(** *** The payloads of the benchmark

    The verbs of [fmt.Sprintf] that the client uses: [%s] writes the
    string, [%d] the decimal numeral of the integer, and [%0wd] the numeral
    with zeros put before its digits up to the width [w], the sign
    included. *)
Definition verb_d (z : Z) : string := GoString.FormatInt z.

Fixpoint zeros (n : nat) : string :=
  match n with
  | O => ""
  | S n' => String "0" (zeros n')
  end.

Definition verb_0d (width : nat) (z : Z) : string :=
  let digits := GoString.FormatInt (Z.abs z) in
  if z <? 0 then
    "-" +:+ zeros (width - 1 - String.length digits) +:+ digits
  else zeros (width - String.length digits) +:+ digits.

(** [strings.ToUpper] on a string of ASCII bytes: the letters [a] to
    [z] are replaced.  For a string with other bytes Go maps the runes by
    the tables of Unicode, which are not modelled: the properties below are
    stated for prefixes of ASCII bytes, as the prefixes of the client are. *)
Definition upperByte (c : ascii) : ascii :=
  let n := GoString.byte c in
  if (97 <=? n)%N && (n <=? 122)%N then ascii_of_N (n - 32) else c.

Fixpoint ToUpper (s : string) : string :=
  match s with
  | EmptyString => EmptyString
  | String c r => String (upperByte c) (ToUpper r)
  end.

Definition payloadBioRepeat : nat := 64.
Definition payloadAvatarBytes : Z := 4096.
Definition payloadTagCount : Z := 6.
Definition createDataSalt : Z := 13.
Definition updateDataSalt : Z := 101.
Definition addressDataSalt : Z := 29.
Definition httpEmailDomain : string := "example.com".
Definition grpcEmailDomain : string := "rpc.example".

Record wireUser : Type := mkWireUser {
  w_ID : string;
  w_Name : string;
  w_Email : string;
  w_Phone : string;
  w_Address : string;
  w_Bio : string;
  w_Tags : user.slice string;
  w_Avatar : user.slice ascii
}.

(** The conversion [byte(x)] of an [int]: its eight low bits. *)
Definition byteOf (x : Z) : ascii := ascii_of_N (Z.to_N (x `mod` 256)).

(** The sum and the product of two [int]s. *)
Definition add64 (a b : Z) : Z := wrap64 (a + b).
Definition mul64 (a b : Z) : Z := wrap64 (a * b).

Definition fragments : list string :=
  ["lorem ipsum dolor sit amet"; "transport benchmark payload";
   "gin vs grpc serialization"; "protobuf binary framing";
   "contention under load"].

(** The loop of [buildBio]: [n] counts the rounds left, [i] is the
    loop variable and [b] what the builder holds.  [None] stands for the
    panic of an index out of range, which a negative remainder gives. *)
Fixpoint bioLoop (n : nat) (i : Z) (snippet : string) (idx salt : Z)
    (b : string) : option string :=
  match n with
  | O => Some b
  | S n' =>
      let k := Z.rem (add64 (add64 idx salt) i) 5 in
      if k <? 0 then None
      else
        match fragments !! Z.to_nat k with
        | Some fragment =>
            bioLoop n' (i + 1) snippet idx salt
              (b +:+ snippet +:+ fragment +:+ " ")
        | None => None
        end
  end.

Definition buildBio (prefix : string) (idx salt : Z) : option string :=
  let snippet :=
    prefix +:+ " user " +:+ verb_d idx +:+ " salt " +:+ verb_d salt +:+ " " in
  bioLoop payloadBioRepeat 0 snippet idx salt "".

Definition buildTags (prefix : string) (idx salt : Z) : user.slice string :=
  Some ((λ i, prefix +:+ "-tag-" +:+ verb_0d 2 i +:+ "-"
              +:+ verb_d (Z.rem (add64 (add64 idx salt) i) 500))
        <$> seqZ 0 payloadTagCount).

Definition buildAvatar (prefix : string) (idx salt : Z) : user.slice ascii :=
  let base :=
    byteOf (add64 (add64 (add64 (Z.of_nat (String.length prefix)) idx) salt)
              addressDataSalt) in
  Some ((λ i, byteOf (Z.of_N (GoString.byte base)
                      + Z.of_N (GoString.byte
                                  (byteOf (Z.rem (add64 (mul64 i 13) salt)
                                             251)))))
        <$> seqZ 0 payloadAvatarBytes).

(** [makeUserPayload]; [None] stands for the panic of [buildBio]. *)
Definition makeUserPayload (prefix domain : string) (idx salt : Z)
  : option wireUser :=
  let name := prefix +:+ "-" +:+ verb_d idx +:+ "-" +:+ verb_d salt in
  let email :=
    prefix +:+ verb_d idx +:+ "+" +:+ verb_d salt +:+ "@" +:+ domain in
  let phone :=
    "+1-800-" +:+ verb_0d 4 (Z.rem (add64 idx salt) 10000) +:+ "-"
    +:+ verb_0d 4 (Z.rem (add64 (mul64 idx salt) addressDataSalt) 10000) in
  let address :=
    verb_d (add64 (add64 idx salt) addressDataSalt) +:+ " "
    +:+ ToUpper prefix +:+ " Benchmark Blvd Suite "
    +:+ verb_d (add64 (Z.rem (mul64 idx salt) 500) 1) in
  match buildBio prefix idx salt with
  | Some bio =>
      Some (mkWireUser "" name email phone address bio
              (buildTags prefix idx salt) (buildAvatar prefix idx salt))
  | None => None
  end.

(** The fields that [toCreateRequest] puts into the request, as
    [CreateUser] of the service takes them out of it. *)
Definition createUserOf (s : user.Store) (w : wireUser)
  : user.Store * (option service.pbUser * option service.Status) :=
  service.CreateUser s (w_Name w) (w_Email w) (w_Phone w) (w_Address w)
    (w_Bio w) (user.appendNil (user.elems (w_Tags w)))
    (user.appendNil (user.elems (w_Avatar w))).

End testclient.

(** ** Vocabulary of the properties *)

Import GoString user history.

(** The order in which [List] puts two records. *)
Definition idLt (a b : User) : Prop := less (ID a) (ID b) = true.

(** The order of two records by the numbers that their identifiers
    spell: the order in which [Create] mints the identifiers. *)
Definition numberLt (a b : User) : Prop :=
  ∃ x y, ID a = FormatInt x ∧ ID b = FormatInt y ∧ x < y.

(** Every record is stored under its own identifier. *)
Definition keyed (s : Store) : Prop :=
  map_Forall (λ k u, ID u = k) (users s).

(** Every key of the map is a numeral minted by [Create]. *)
Definition numeralKeys (s : Store) : Prop :=
  map_Forall (λ k _, ∃ z, k = FormatInt z) (users s).

(** A byte that is neither ASCII white space nor part of a multi-byte
    rune. *)
Definition plain (c : ascii) : bool :=
  negb (asciiSpace c) && (byte c <? 0x80)%N.

(** The UTF-8 encoding of one white-space rune. *)
Inductive spaceRune : string → Prop :=
  | space_ascii c : asciiSpace c = true → spaceRune (String c "")
  | space_two c1 c2 :
      space2 c1 c2 = true → spaceRune (String c1 (String c2 ""))
  | space_three c1 c2 c3 :
      space3 c1 c2 c3 = true →
      spaceRune (String c1 (String c2 (String c3 ""))).

(** A string made of white-space runes only; the empty string is one. *)
Inductive whiteSpaceOnly : string → Prop :=
  | ws_nil : whiteSpaceOnly ""
  | ws_cons r s : spaceRune r → whiteSpaceOnly s → whiteSpaceOnly (r +:+ s).

(** Two attribute bundles with the same fields, a tag list or avatar
    being taken by its elements ([nil] and an empty slice are both the
    empty list). *)
Definition sameBundle (a b : Attributes) : Prop :=
  Name a = Name b ∧ Email a = Email b ∧ Phone a = Phone b
  ∧ Address a = Address b ∧ Bio a = Bio b
  ∧ elems (Tags a) = elems (Tags b) ∧ elems (Avatar a) = elems (Avatar b).

(** [fmt.Errorf("%w" + detail, ErrInvalidInput)]. *)
Definition invalidInput (detail : string) : error :=
  Errorf_w service.ErrInvalidInput detail.

(** What a stored copy [c] of [attrs] owes to the call that made it in
    the heap [h] and left the heap [h']: [h'] has the arrays of [h]
    unchanged; [c] holds the tags and the avatar of [attrs]; whatever was
    allocated in [h] reads the same in [h']; and in any heap [hx], a write
    through a slice that was allocated in [h] leaves the value of [c] as it
    is. *)
Definition ownCopy (h h' : mem.Heap) (attrs c : mem.Attributes) : Prop :=
  mem.extends h h'
  ∧ mem.tagsOf h' c = mem.tagsOf h attrs
  ∧ mem.avatarOf h' c = mem.avatarOf h attrs
  ∧ (∀ prev, mem.allocatedAttributes h prev →
       mem.valueOfAttributes h' prev = mem.valueOfAttributes h prev)
  ∧ (∀ hx prev i v h2, mem.allocatedAttributes h prev →
       mem.setTag hx prev i v = Some h2 →
       mem.valueOfAttributes h2 c = mem.valueOfAttributes hx c)
  ∧ (∀ hx prev i b h2, mem.allocatedAttributes h prev →
       mem.setAvatarByte hx prev i b = Some h2 →
       mem.valueOfAttributes h2 c = mem.valueOfAttributes hx c).

(** The window of the tags lies inside its array. *)
Definition inBounds (h : mem.Heap) (attrs : mem.Attributes) : Prop :=
  match mem.Tags attrs with
  | Some w =>
      ∃ a, mem.tagArrays h !! mem.arr w = Some a
           ∧ (mem.off w + mem.len w ≤ length a)%nat
  | None => True
  end.

(** No stored record keeps its tags in the array that holds the tags
    of [attrs]. *)
Definition apart (s : mem.Store) (attrs : mem.Attributes) : Prop :=
  ∀ k u w w', mem.users s !! k = Some u →
    mem.Tags (mem.Attrs u) = Some w → mem.Tags attrs = Some w' →
    mem.arr w ≠ mem.arr w'.

(** One step of [run] in a proof by induction on the history: names
    the store [s1] and the reply [r] of the first call and takes the
    induction hypothesis [IH] at [s1]. *)
Ltac run_cons IH s c cs s1 r Hstep :=
  destruct (step s c) as [s1 r] eqn:Hstep;
  let s2 := fresh "s2" in
  let rs := fresh "rs" in
  let Hrun := fresh "Hrun" in
  destruct (run s1 cs) as [s2 rs] eqn:Hrun; simpl;
  specialize (IH s1); rewrite Hrun in IH; simpl in IH.

(** ** Sample data *)

(** Sample attribute bundles. *)
Definition ada : Attributes :=
  mkAttributes "Ada" "ada@example.com" "" "" "" None None.
Definition grace : Attributes :=
  mkAttributes "Grace" "grace@example.com" "" "" "" None None.

(** Attributes as a client may send them, with white space to trim and
    an empty tag to drop. *)
Definition adaRaw : Attributes :=
  mkAttributes "  Ada " "ada@example.com " "" "" " first programmer"
    (Some [" maths "; "   "; "engine"]) (Some ["a"; "b"]%char).

(** A history with creations, a deletion and an update. *)
Definition sampleCalls : list call :=
  [CallCreate ada; CallCreate grace; CallDelete "1"; CallCreate adaRaw;
   CallUpdate "3" grace; CallGet "2"; CallList].

(** Ten creations, then the deletion of all records but ["2"], ["9"]
    and ["10"]. *)
Definition sparseCalls : list call :=
  replicate 10 (CallCreate ada)
  ++ (CallDelete <$> ["1"; "3"; "4"; "5"; "6"; "7"; "8"]).

(** The records of the store after [sparseCalls] in the order of
    their creation, one of the six orders in which [range] may visit
    them. *)
Definition sparseVisit : list User :=
  [mkUser "2" ada; mkUser "9" ada; mkUser "10" ada].

(** Sample data for the memory-level model: a heap with one tag array
    and one avatar array, and attributes that point at them. *)
Definition sampleHeap : mem.Heap :=
  mem.mkHeap [["go"; "grpc"]] [["a"; "b"; "c"]%char].
Definition sampleAttributes : mem.Attributes :=
  mem.mkAttributes "Ada" "ada@example.com" "" "" ""
    (Some (mem.mkWindow 0 0 2)) (Some (mem.mkWindow 0 0 3)).

(** ** Vocabulary of the further properties *)



Definition isCreate (c : call) : bool :=
  match c with
  | CallCreate _ => true
  | _ => false
  end.

(** The number of [Create] calls of a history. *)
Fixpoint countCreates (cs : list call) : nat :=
  match cs with
  | [] => 0
  | c :: cs' => ((if isCreate c then 1 else 0) + countCreates cs')%nat
  end.

(** The number of [Delete] calls that answered [true]. *)
Fixpoint countRemoved (rs : list reply) : nat :=
  match rs with
  | [] => 0
  | ReplyDelete true :: rs' => S (countRemoved rs')
  | _ :: rs' => countRemoved rs'
  end.

(** The counter stands at [n] and every key of the map is the numeral
    of a number from 1 to [n]. *)
Definition mintedUpTo (n : Z) (s : Store) : Prop :=
  nextID s = n
  ∧ map_Forall (λ k _, ∃ z, 1 ≤ z ≤ n ∧ k = FormatInt z) (users s).

(** The HTTP status that stands for a gRPC code in [handleError]. *)
Definition httpStatusOf (c : service.code) : Z :=
  match c with
  | service.InvalidArgument => 400
  | service.NotFound => 404
  | service.Internal => 500
  end.

(** An HTTP answer and a gRPC answer that tell the same: the same record
    under the success status [ok], or the same kind of error with the same
    message. *)
Definition sameAnswer (ok : Z) (h : httptransport.response)
    (g : option service.pbUser * option service.Status) : Prop :=
  match g with
  | (Some pb, None) =>
      ∃ u, h = httptransport.mkResponse ok (httptransport.UserBody u)
           ∧ pb = service.toProto u
  | (None, Some st) =>
      h = httptransport.mkResponse (httpStatusOf (service.Code st))
            (httptransport.ErrorBody (service.Message st))
  | _ => False
  end.

(** The sum of a list of durations. *)
Definition sumZ (ds : list Z) : Z := foldr Z.add 0 ds.

(** The durations that a list of results holds under the key [op], in
    the order of the list. *)
Definition durationsOf (op : string) (rs : list (string * Z)) : list Z :=
  (filter (λ r, r.1 = op) rs).*2.

(** The collector after the results [rs] were added to it one by one. *)
Definition collect (c : testclient.statCollector) (rs : list (string * Z))
  : testclient.statCollector :=
  foldl (λ c r, testclient.statCollector_add c r.1 r.2) c rs.

(** An error of the service is an invalid-input error or
    [ErrNotFound]. *)
Definition serviceErr (err : error) : Prop :=
  (∃ detail, err = invalidInput detail) ∨ err = ErrNotFound.


(** A string of bytes that are neither white space nor part of a
    multi-byte rune. *)
Definition plainString (s : string) : Prop :=
  Forall (λ c, plain c = true) (list_ascii_of_string s).

(** A request to the service, from either transport. *)
Inductive request : Type :=
  | ReqCreate (attrs : Attributes)
  | ReqUpdate (id : string) (attrs : Attributes)
  | ReqGet (id : string)
  | ReqDelete (id : string)
  | ReqList.

(** The store after the service has served a request. *)
Definition serve (s : Store) (r : request) : Store :=
  match r with
  | ReqCreate attrs => (service.Create s attrs).1
  | ReqUpdate id attrs => (service.Update s id attrs).1
  | ReqDelete id => (service.Delete s id).1
  | ReqGet _ | ReqList => s
  end.

(** The store of a service that has served the requests [rs], in this
    order, since it was made. *)
Definition served (rs : list request) : Store := foldl serve NewStore rs.

(** A record as the service keeps it under the key [k]: the key is a
    numeral and the identifier of the record; the name is not empty and the
    e-mail address has an [@]; the five strings are trimmed; every tag is
    trimmed and not empty; and a tag list or an avatar without elements is
    [nil]. *)
Definition wellKept (k : string) (u : User) : Prop :=
  ID u = k ∧ (∃ z, k = FormatInt z)
  ∧ Name (Attrs u) ≠ "" ∧ Contains (Email (Attrs u)) "@" = true
  ∧ TrimSpace (Name (Attrs u)) = Name (Attrs u)
  ∧ TrimSpace (Email (Attrs u)) = Email (Attrs u)
  ∧ TrimSpace (Phone (Attrs u)) = Phone (Attrs u)
  ∧ TrimSpace (Address (Attrs u)) = Address (Attrs u)
  ∧ TrimSpace (Bio (Attrs u)) = Bio (Attrs u)
  ∧ Forall (λ tag, TrimSpace tag = tag ∧ tag ≠ "") (elems (Tags (Attrs u)))
  ∧ Tags (Attrs u) ≠ Some [] ∧ Avatar (Attrs u) ≠ Some [].

(** ** The order of Go strings *)

Section string_order.

Lemma less_leb (a b : string) : less a b = negb (String.leb b a).
Proof.
  unfold less, String.ltb, String.leb.
  rewrite (String.compare_antisym a b).
  by destruct (String.compare b a).
Qed.

Lemma less_irrefl (a : string) : less a a = false.
Proof.
  rewrite less_leb. apply negb_false_iff, Is_true_true.
  exact (reflexivity (R := String.le) a).
Qed.

Lemma less_le (a b : string) : less a b = true → String.le a b.
Proof.
  rewrite less_leb, negb_true_iff. intros Hba.
  destruct (total String.le a b) as [|Hle]; [done|].
  apply Is_true_true in Hle. unfold String.le in Hle. congruence.
Qed.

Lemma less_trans (a b c : string) :
  less a b = true → less b c = true → less a c = true.
Proof.
  intros Hab Hbc. rewrite less_leb. apply negb_true_iff.
  destruct (String.leb c a) eqn:Hca; [|done].
  assert (String.le c b) as Hcb.
  { etrans; [apply Is_true_true, Hca|by apply less_le]. }
  rewrite less_leb, negb_true_iff in Hbc.
  apply Is_true_true in Hcb. unfold String.le in Hcb. congruence.
Qed.

Lemma less_total (a b : string) :
  a ≠ b → less a b = true ∨ less b a = true.
Proof.
  intros Hne. rewrite !less_leb, !negb_true_iff.
  destruct (String.leb b a) eqn:Hba; [|by left].
  destruct (String.leb a b) eqn:Hab; [|by right].
  destruct Hne. by apply String.leb_antisym.
Qed.

Lemma less_asym (a b : string) : less a b = true → less b a = false.
Proof.
  intros Hab. destruct (less b a) eqn:Hba; [|done].
  pose proof (less_trans _ _ _ Hab Hba) as Haa.
  by rewrite less_irrefl in Haa.
Qed.

End string_order.

(** ** Sorting by identifier *)

Section sort_Slice_correct.

Local Notation "'byID'" := (λ a b : User, less (ID a) (ID b)).

Lemma insert_Permutation {A} (lt : A → A → bool) x l :
  sort.insert lt x l ≡ₚ x :: l.
Proof.
  induction l as [|y r IH]; simpl; [done|].
  destruct (lt x y); [done|]. by rewrite IH, Permutation_swap.
Qed.

Lemma Slice_Permutation {A} (lt : A → A → bool) l : sort.Slice lt l ≡ₚ l.
Proof.
  induction l as [|x r IH]; simpl; [done|].
  by rewrite insert_Permutation, IH.
Qed.

Lemma insert_sorted x l :
  Forall (λ y, ID y ≠ ID x) l →
  StronglySorted idLt l → StronglySorted idLt (sort.insert byID x l).
Proof.
  intros Hne Hl. induction Hl as [|y r Hr IH Hy]; simpl.
  { repeat constructor. }
  apply Forall_cons in Hne as [Hyx Hne].
  destruct (less (ID x) (ID y)) eqn:Hxy.
  - constructor; [by constructor|].
    constructor; [done|].
    eapply Forall_impl; [exact Hy|]. intros z Hz. unfold idLt in *.
    by eapply less_trans.
  - constructor; [by apply IH|].
    rewrite insert_Permutation. constructor; [|done].
    unfold idLt. destruct (less_total (ID y) (ID x)); [done..|congruence].
Qed.

Lemma Slice_sorted l :
  NoDup (ID <$> l) → StronglySorted idLt (sort.Slice byID l).
Proof.
  induction l as [|x r IH]; simpl; [constructor|].
  rewrite NoDup_cons. intros [Hx Hr].
  apply insert_sorted; [|by apply IH].
  rewrite Slice_Permutation. apply Forall_forall. intros y Hy Heq.
  apply Hx. rewrite <-Heq. by apply list_elem_of_fmap_2.
Qed.

(** Two listings of the same records in ascending identifier order are
    the same listing: the result of [List] does not depend on the sort
    that [sort.Slice] runs. *)
Lemma sorted_listing_unique (l1 l2 : list User) :
  StronglySorted idLt l1 → StronglySorted idLt l2 → l1 ≡ₚ l2 → l1 = l2.
Proof.
  apply StronglySorted_unique_strong. unfold idLt.
  intros a b _ _ Hab Hba. apply less_asym in Hab. congruence.
Qed.

End sort_Slice_correct.

(** ** Invariants of the store *)

Section store_invariants.

Lemma keyed_NewStore : keyed NewStore.
Proof. apply map_Forall_empty. Qed.

Lemma keyed_Create s attrs : keyed s → keyed (Create s attrs).1.
Proof. intros Hs. by apply map_Forall_insert_2. Qed.

Lemma keyed_Update s id attrs : keyed s → keyed (Update s id attrs).1.
Proof.
  intros Hs. unfold Update. destruct (users s !! id); [|done].
  by apply map_Forall_insert_2.
Qed.

Lemma keyed_Delete s id : keyed s → keyed (Delete s id).1.
Proof.
  intros Hs. unfold Delete. destruct (users s !! id); [|done].
  by apply map_Forall_delete.
Qed.

Lemma keyed_step s c : keyed s → keyed (step s c).1.
Proof.
  destruct c as [attrs|id attrs|id|id|]; simpl; intros Hs; try done.
  - by apply (keyed_Create s attrs).
  - pose proof (keyed_Update s id attrs Hs). by destruct (Update s id attrs).
  - pose proof (keyed_Delete s id Hs). by destruct (Delete s id).
Qed.

(** A property of stores that every call preserves holds after every
    history. *)
Lemma run_invariant (P : Store → Prop) :
  (∀ s c, P s → P (step s c).1) → ∀ cs s, P s → P (run s cs).1.
Proof.
  intros Hstep. induction cs as [|c cs IH]; intros s Hs; simpl; [done|].
  pose proof (Hstep s c Hs) as H1.
  destruct (step s c) as [s1 r]. specialize (IH s1 H1).
  by destruct (run s1 cs).
Qed.

Lemma keyed_after cs : keyed (after cs).
Proof. apply (run_invariant keyed keyed_step), keyed_NewStore. Qed.

(** In a keyed store the identifiers of the records are the keys of
    the map, so no two records share one. *)
Lemma keyed_ids s :
  keyed s → ID <$> (map_to_list (users s)).*2 = (map_to_list (users s)).*1.
Proof.
  intros Hs. rewrite <-list_fmap_compose. apply list_fmap_ext.
  intros i [k u] Hi; simpl.
  apply (Hs k u). apply elem_of_map_to_list. by eapply list_elem_of_lookup_2.
Qed.

Lemma keyed_NoDup_ids s visit :
  keyed s → rangeOrder s visit → NoDup (ID <$> visit).
Proof.
  intros Hs Hv. unfold rangeOrder in Hv. rewrite Hv, keyed_ids by done.
  apply NoDup_fst_map_to_list.
Qed.

End store_invariants.

(** ** [List] *)

Section listing.

Lemma rangeOrder_canonical s : rangeOrder s (map_to_list (users s)).*2.
Proof. unfold rangeOrder. reflexivity. Qed.

Lemma List_visiting_empty s visit :
  users s = ∅ → List_visiting s visit = None.
Proof.
  intros Hm. unfold List_visiting. rewrite Hm, map_size_empty.
  by rewrite decide_True.
Qed.

Lemma List_visiting_elems s visit :
  rangeOrder s visit →
  elems (List_visiting s visit)
  = sort.Slice (λ a b, less (ID a) (ID b)) visit.
Proof.
  intros Hv. unfold List_visiting. case_decide as Hsz; [|done].
  apply map_size_empty_iff in Hsz. unfold rangeOrder in Hv.
  rewrite Hsz, map_to_list_empty in Hv. apply Permutation_nil_r in Hv.
  by subst.
Qed.

Lemma List_visiting_nil_iff s visit :
  rangeOrder s visit → List_visiting s visit = None ↔ users s = ∅.
Proof.
  intros Hv. unfold List_visiting. case_decide as Hsz.
  - by apply map_size_empty_iff in Hsz.
  - split; [done|]. intros Hm. by rewrite Hm, map_size_empty in Hsz.
Qed.

End listing.

(** C1.  After any sequence of calls on a new store, whatever the order in
    which [range] visits the map, [List] returns every record of the store
    exactly once, in strictly ascending order of identifier, the
    identifiers being compared as Go compares strings; the result is the
    same for every visiting order, and it is the empty ([nil]) slice when
    the store holds nothing.  [List] has no error result. *)
Theorem List_sorted_by_identifier (cs : list call) (visit : list User) :
  rangeOrder (after cs) visit →
  let out := elems (List_visiting (after cs) visit) in
  StronglySorted idLt out
  ∧ out ≡ₚ (map_to_list (users (after cs))).*2
  ∧ (∀ u, u ∈ out ↔ users (after cs) !! ID u = Some u)
  ∧ List_visiting (after cs) visit = List (after cs)
  ∧ (users (after cs) = ∅ → List_visiting (after cs) visit = None ∧ out = []).
Proof.
  intros Hv out. pose proof (keyed_after cs) as Hk.
  assert (out ≡ₚ (map_to_list (users (after cs))).*2) as Hperm.
  { unfold out. rewrite List_visiting_elems by done.
    by rewrite Slice_Permutation. }
  assert (StronglySorted idLt out) as Hsorted.
  { unfold out. rewrite List_visiting_elems by done.
    apply Slice_sorted. by eapply keyed_NoDup_ids. }
  split_and!; [done|done| | |].
  - intros u. rewrite Hperm, list_elem_of_fmap. split.
    + intros [[k v] [-> Hkv]]. apply elem_of_map_to_list in Hkv. simpl.
      by rewrite (Hk k v Hkv).
    + intros Hu. exists (ID u, u). split; [done|].
      by apply elem_of_map_to_list.
  - unfold List, List_visiting in *. case_decide; [done|]. f_equal.
    apply sorted_listing_unique.
    + apply Slice_sorted. by eapply keyed_NoDup_ids.
    + apply Slice_sorted.
      eapply keyed_NoDup_ids; [done|apply rangeOrder_canonical].
    + rewrite !Slice_Permutation. exact Hv.
  - intros Hm. split; [by apply List_visiting_empty|].
    unfold out. by rewrite List_visiting_empty.
Qed.

(** ** The identifier counter *)

Section counter.

Lemma wrap64_in_range z : - 2 ^ 63 ≤ z ≤ maxInt64 → wrap64 z = z.
Proof.
  unfold wrap64, maxInt64. intros Hz.
  rewrite Z.mod_small by lia. lia.
Qed.

Lemma wrap64_add a b : wrap64 (wrap64 a + b) = wrap64 (a + b).
Proof.
  unfold wrap64. f_equal.
  replace ((a + 2 ^ 63) `mod` 2 ^ 64 - 2 ^ 63 + b + 2 ^ 63)
    with ((a + 2 ^ 63) `mod` 2 ^ 64 + b) by lia.
  rewrite Zplus_mod_idemp_l. f_equal. lia.
Qed.

Lemma FormatInt_inj a b : FormatInt a = FormatInt b → a = b.
Proof. apply (inj (pretty : Z → string)). Qed.

Lemma nextID_Update s id attrs : nextID (Update s id attrs).1 = nextID s.
Proof. unfold Update. by destruct (users s !! id). Qed.

Lemma nextID_Delete s id : nextID (Delete s id).1 = nextID s.
Proof. unfold Delete. by destruct (users s !! id). Qed.

Lemma nextID_step_other s c :
  (∀ attrs, c ≠ CallCreate attrs) → nextID (step s c).1 = nextID s.
Proof.
  destruct c as [attrs|id attrs|id|id|]; simpl; intros Hc; try done.
  - by destruct (Hc attrs).
  - pose proof (nextID_Update s id attrs). by destruct (Update s id attrs).
  - pose proof (nextID_Delete s id). by destruct (Delete s id).
Qed.

(** The [k]-th record created by a history, counting from zero, carries
    the numeral of the counter advanced [k + 1] times. *)
Lemma created_lookup cs : ∀ s (k : nat) u,
  created (run s cs).2 !! k = Some u →
  ID u = FormatInt (wrap64 (nextID s + (Z.of_nat k + 1))).
Proof.
  induction cs as [|c cs IH]; intros s k u; simpl; [done|].
  run_cons IH s c cs s1 r Hstep.
  destruct c as [attrs|id attrs|id|id|]; simpl in Hstep.
  - injection Hstep as <- <-. simpl. destruct k as [|k]; simpl.
    + intros [= <-]. simpl.
      by replace (nextID s + (0 + 1)) with (nextID s + 1) by lia.
    + intros Hk. rewrite (IH _ _ Hk). simpl. rewrite wrap64_add.
      f_equal. f_equal. lia.
  - pose proof (nextID_Update s id attrs) as Hn.
    destruct (Update s id attrs) as [s' r']. injection Hstep as <- <-.
    simpl in *. intros Hk. by rewrite (IH _ _ Hk), Hn.
  - injection Hstep as <- <-. simpl. apply IH.
  - pose proof (nextID_Delete s id) as Hn.
    destruct (Delete s id) as [s' b]. injection Hstep as <- <-.
    simpl in *. intros Hk. by rewrite (IH _ _ Hk), Hn.
  - injection Hstep as <- <-. simpl. apply IH.
Qed.

Lemma created_lookup_NewStore cs (k : nat) u :
  created (run NewStore cs).2 !! k = Some u →
  Z.of_nat k < maxInt64 →
  ID u = FormatInt (Z.of_nat k + 1).
Proof.
  intros Hk Hbound. rewrite (created_lookup _ _ _ _ Hk). simpl.
  rewrite wrap64_in_range; [done|]. unfold maxInt64 in *. lia.
Qed.

End counter.

(** C10.  The [n]-th [Create] call on a store since its construction,
    counting only the [Create] calls among any other calls, returns the
    record whose identifier is the decimal numeral of [n], as long as [n]
    is within [int64]; so the first identifier is ["1"] and the next ones
    follow without gaps.  [Delete] (and [Update]) leave the counter as it
    is, and a later [Create] gets a different identifier than the [n]-th. *)
Theorem nth_create_gets_numeral_n (cs : list call) (n : nat) (u : User) :
  (1 ≤ n)%nat →
  Z.of_nat n ≤ maxInt64 →
  created (run NewStore cs).2 !! (n - 1)%nat = Some u →
  ID u = FormatInt (Z.of_nat n)
  ∧ (n = 1%nat → ID u = "1")
  ∧ (∀ s id, nextID (Delete s id).1 = nextID s)
  ∧ (∀ s id attrs, nextID (Update s id attrs).1 = nextID s)
  ∧ (∀ (m : nat) v, (n < m)%nat → Z.of_nat m ≤ maxInt64 →
       created (run NewStore cs).2 !! (m - 1)%nat = Some v →
       ID v = FormatInt (Z.of_nat m) ∧ ID v ≠ ID u).
Proof.
  intros Hn Hmax Hu.
  assert (ID u = FormatInt (Z.of_nat n)) as Hid.
  { rewrite (created_lookup_NewStore _ _ _ Hu) by lia. f_equal. lia. }
  split_and!; [done| |apply nextID_Delete|apply nextID_Update|].
  - intros ->. by rewrite Hid.
  - intros m v Hm Hmmax Hv.
    assert (ID v = FormatInt (Z.of_nat m)) as Hidv.
    { rewrite (created_lookup_NewStore _ _ _ Hv) by lia. f_equal. lia. }
    split; [done|]. rewrite Hid, Hidv. intros Heq%FormatInt_inj. lia.
Qed.

(** C2.  In any history of calls on a new store, deletions included, two
    different [Create] calls never return the same identifier, and the
    later one returns the numeral of a strictly greater number than the
    earlier one, as long as the count of [Create] calls is within
    [int64]. *)
Theorem created_ids_unique_and_increasing
    (cs : list call) (i j : nat) (ui uj : User) :
  created (run NewStore cs).2 !! i = Some ui →
  created (run NewStore cs).2 !! j = Some uj →
  (i < j)%nat →
  Z.of_nat j < maxInt64 →
  ID ui ≠ ID uj
  ∧ ∃ a b : Z, ID ui = FormatInt a ∧ ID uj = FormatInt b ∧ 0 < a < b.
Proof.
  intros Hi Hj Hij Hmax.
  rewrite (created_lookup_NewStore _ _ _ Hi) by lia.
  rewrite (created_lookup_NewStore _ _ _ Hj) by lia.
  split.
  - intros Heq%FormatInt_inj. lia.
  - exists (Z.of_nat i + 1), (Z.of_nat j + 1). split_and!; [done|done|lia|lia].
Qed.

(** ** Trimming strings without white space *)

Section trimming.

Lemma list_of_rev_app s1 s2 :
  list_ascii_of_string (String.rev_app s1 s2)
  = (rev (list_ascii_of_string s1) ++ list_ascii_of_string s2)%list.
Proof.
  revert s2. induction s1 as [|c s1 IH]; intros s2; simpl; [done|].
  by rewrite IH, <-app_assoc.
Qed.

Lemma list_of_rev s :
  list_ascii_of_string (String.rev s) = rev (list_ascii_of_string s).
Proof. unfold String.rev. by rewrite list_of_rev_app, app_nil_r. Qed.

Lemma list_ascii_of_string_inj s1 s2 :
  list_ascii_of_string s1 = list_ascii_of_string s2 → s1 = s2.
Proof.
  intros Heq. rewrite <-(string_of_list_ascii_of_string s1),
    <-(string_of_list_ascii_of_string s2). by rewrite Heq.
Qed.

Lemma rev_rev s : String.rev (String.rev s) = s.
Proof.
  apply list_ascii_of_string_inj. by rewrite !list_of_rev, rev_involutive.
Qed.

Lemma plain_not_space2 c1 c2 : plain c1 = true → space2 c1 c2 = false.
Proof.
  unfold plain, space2. intros [_ Hc]%andb_true_iff.
  apply N.ltb_lt in Hc. apply andb_false_iff. left. apply N.eqb_neq. lia.
Qed.

Lemma plain_not_space3 c1 c2 c3 : plain c1 = true → space3 c1 c2 c3 = false.
Proof.
  unfold plain, space3. intros [_ Hc]%andb_true_iff.
  apply N.ltb_lt in Hc.
  assert ((byte c1 =? 0xE1) = false)%N as -> by (apply N.eqb_neq; lia).
  assert ((byte c1 =? 0xE2) = false)%N as -> by (apply N.eqb_neq; lia).
  assert ((byte c1 =? 0xE3) = false)%N as -> by (apply N.eqb_neq; lia).
  done.
Qed.

Lemma plain_last_not_space2 c1 c2 : plain c2 = true → space2 c1 c2 = false.
Proof.
  unfold plain, space2. intros [_ Hc]%andb_true_iff.
  apply N.ltb_lt in Hc. apply andb_false_iff. right.
  apply orb_false_iff. split; apply N.eqb_neq; lia.
Qed.

Lemma plain_last_not_space3 c1 c2 c3 :
  plain c3 = true → space3 c1 c2 c3 = false.
Proof.
  unfold plain, space3. intros [_ Hc]%andb_true_iff.
  apply N.ltb_lt in Hc.
  assert ((byte c3 =? 0x80) = false)%N as -> by (apply N.eqb_neq; lia).
  assert ((0x80 <=? byte c3) = false)%N as -> by (apply N.leb_gt; lia).
  assert ((byte c3 =? 0xA8) = false)%N as -> by (apply N.eqb_neq; lia).
  assert ((byte c3 =? 0xA9) = false)%N as -> by (apply N.eqb_neq; lia).
  assert ((byte c3 =? 0xAF) = false)%N as -> by (apply N.eqb_neq; lia).
  assert ((byte c3 =? 0x9F) = false)%N as -> by (apply N.eqb_neq; lia).
  by rewrite !andb_false_r.
Qed.

(** The scan from the left stops at once on a plain first byte. *)
Lemma trimLeft_plain c s : plain c = true → trimLeft (String c s) = String c s.
Proof.
  intros Hc. simpl.
  assert (asciiSpace c = false) as ->.
  { unfold plain in Hc. apply andb_true_iff in Hc as [Hc _].
    by apply negb_true_iff. }
  destruct s as [|c2 [|c3 s]]; [done| |].
  - by rewrite plain_not_space2.
  - by rewrite plain_not_space2, plain_not_space3.
Qed.

(** The scan from the right stops at once on a plain last byte. *)
Lemma trimLeftRev_plain c s :
  plain c = true → trimLeftRev (String c s) = String c s.
Proof.
  intros Hc. simpl.
  assert (asciiSpace c = false) as ->.
  { unfold plain in Hc. apply andb_true_iff in Hc as [Hc _].
    by apply negb_true_iff. }
  destruct s as [|c2 [|c3 s]]; [done| |].
  - by rewrite plain_last_not_space2.
  - by rewrite plain_last_not_space2, plain_last_not_space3.
Qed.

Lemma TrimSpace_plain s :
  Forall (λ c, plain c = true) (list_ascii_of_string s) → TrimSpace s = s.
Proof.
  intros Hs. unfold TrimSpace, trimRight.
  assert (trimLeft s = s) as ->.
  { destruct s as [|c s]; [done|]. apply trimLeft_plain.
    by apply Forall_cons in Hs as [? _]. }
  assert (trimLeftRev (String.rev s) = String.rev s) as ->.
  { assert (Forall (λ c, plain c = true)
              (list_ascii_of_string (String.rev s))) as Hr.
    { rewrite list_of_rev. by apply Forall_rev. }
    destruct (String.rev s) as [|c r]; [done|]. apply trimLeftRev_plain.
    by apply Forall_cons in Hr as [? _]. }
  apply rev_rev.
Qed.

Lemma pretty_N_go_plain x : ∀ s,
  Forall (λ c, plain c = true) (list_ascii_of_string s) →
  Forall (λ c, plain c = true) (list_ascii_of_string (pretty_N_go x s)).
Proof.
  induction (N.lt_wf_0 x) as [x _ IH]; intros s Hs.
  destruct (decide (x = 0)%N) as [->|Hx]; [by rewrite pretty_N_go_0|].
  rewrite pretty_N_go_step by lia. apply IH.
  { apply N.div_lt; lia. }
  simpl. constructor; [|done].
  unfold pretty_N_char. by repeat case_match.
Qed.

Lemma pretty_N_go_length x : ∀ s,
  (String.length s ≤ String.length (pretty_N_go x s))%nat.
Proof.
  induction (N.lt_wf_0 x) as [x _ IH]; intros s.
  destruct (decide (x = 0)%N) as [->|Hx]; [by rewrite pretty_N_go_0|].
  rewrite pretty_N_go_step by lia.
  etrans; [|apply IH, N.div_lt; lia]. simpl. lia.
Qed.

Lemma pretty_N_plain (x : N) :
  pretty x ≠ ""
  ∧ Forall (λ c, plain c = true) (list_ascii_of_string (pretty x)).
Proof.
  unfold pretty, pretty_N. case_decide as Hx.
  - split; [done|]. by repeat constructor.
  - split; [|by apply pretty_N_go_plain].
    rewrite pretty_N_go_step by lia. intros Hnil.
    pose proof (pretty_N_go_length (x `div` 10)
                  (String (pretty_N_char (x `mod` 10)) "")) as Hlen.
    rewrite Hnil in Hlen. simpl in Hlen. lia.
Qed.

Lemma FormatInt_plain z :
  FormatInt z ≠ ""
  ∧ Forall (λ c, plain c = true) (list_ascii_of_string (FormatInt z)).
Proof.
  unfold FormatInt, pretty, pretty_Z. destruct z as [|p|p].
  - split; [done|]. by repeat constructor.
  - apply (pretty_N_plain (N.pos p)).
  - destruct (pretty_N_plain (N.pos p)) as [_ Hp]. split; [done|].
    simpl. by constructor.
Qed.

(** A minted identifier has no white space to trim and is not empty. *)
Lemma TrimSpace_FormatInt z : TrimSpace (FormatInt z) = FormatInt z.
Proof. apply TrimSpace_plain, FormatInt_plain. Qed.

Lemma validateIdentifier_FormatInt z :
  service.validateIdentifier (FormatInt z) = None.
Proof.
  unfold service.validateIdentifier. rewrite TrimSpace_FormatInt.
  rewrite decide_False; [done|]. apply FormatInt_plain.
Qed.

End trimming.

(** ** Strings of white space *)

Section white_space.

Lemma append_assoc s1 s2 s3 : (s1 +:+ s2) +:+ s3 = s1 +:+ (s2 +:+ s3).
Proof.
  induction s1 as [|c s1 IH]; [done|].
  change (String c ((s1 +:+ s2) +:+ s3) = String c (s1 +:+ (s2 +:+ s3))).
  by rewrite IH.
Qed.

Lemma append_nil_r s : s +:+ "" = s.
Proof.
  induction s as [|c s IH]; [done|].
  change (String c (s +:+ "") = String c s). by rewrite IH.
Qed.

Lemma asciiSpace_byte c : asciiSpace c = true → (byte c < 0x80)%N.
Proof. destruct c as [[] [] [] [] [] [] [] []]; by vm_compute. Qed.

Lemma space2_bytes c1 c2 :
  space2 c1 c2 = true →
  byte c1 = 0xC2%N ∧ (0x80 ≤ byte c2)%N ∧ byte c2 ≠ 0xC2%N.
Proof.
  unfold space2. intros [H1 H2]%andb_true_iff. apply N.eqb_eq in H1.
  apply orb_true_iff in H2 as [H2|H2]; apply N.eqb_eq in H2; lia.
Qed.

Lemma space3_bytes c1 c2 c3 :
  space3 c1 c2 c3 = true →
  (0x80 ≤ byte c1)%N ∧ byte c1 ≠ 0xC2%N
  ∧ (0x80 ≤ byte c2)%N ∧ byte c2 ≠ 0xC2%N ∧ (0x80 ≤ byte c3)%N.
Proof.
  unfold space3.
  rewrite !orb_true_iff, !andb_true_iff, !orb_true_iff, !andb_true_iff,
    !N.eqb_eq, !N.leb_le.
  lia.
Qed.

Lemma not_asciiSpace c : (0x80 ≤ byte c)%N → asciiSpace c = false.
Proof.
  intros Hc. destruct (asciiSpace c) eqn:H; [|done].
  apply asciiSpace_byte in H. lia.
Qed.

Lemma not_space2_l c1 c2 : byte c1 ≠ 0xC2%N → space2 c1 c2 = false.
Proof.
  intros Hc. unfold space2. apply andb_false_iff. left. by apply N.eqb_neq.
Qed.

(** Induction on a string with the hypothesis for the string less one,
    two or three bytes, as [trimLeft] recurses. *)
Lemma string_ind3 (P : string → Prop) :
  P "" →
  (∀ c s, P s →
     (∀ c2 s2, s = String c2 s2 → P s2) →
     (∀ c2 c3 s3, s = String c2 (String c3 s3) → P s3) →
     P (String c s)) →
  ∀ s, P s.
Proof.
  intros Hnil Hstep.
  cut (∀ s, P s ∧ (∀ c2 s2, s = String c2 s2 → P s2)
            ∧ (∀ c2 c3 s3, s = String c2 (String c3 s3) → P s3)).
  { intros H s. apply H. }
  induction s as [|c s (IH1 & IH2 & IH3)]; [by split_and!|].
  split_and!.
  - by apply Hstep.
  - by intros c2 s2 [= _ <-].
  - intros c2 c3 s3 [= _ Hs]. by eapply IH2.
Qed.

Lemma trimLeft_spaceRune r s : spaceRune r → trimLeft (r +:+ s) = trimLeft s.
Proof.
  intros [c Hc|c1 c2 H2|c1 c2 c3 H3].
  - change (String c "" +:+ s) with (String c s). simpl. by rewrite Hc.
  - change (String c1 (String c2 "") +:+ s) with (String c1 (String c2 s)).
    pose proof (space2_bytes _ _ H2) as (Hb1 & _). simpl.
    rewrite not_asciiSpace by lia. by rewrite H2.
  - change (String c1 (String c2 (String c3 "")) +:+ s)
      with (String c1 (String c2 (String c3 s))).
    pose proof (space3_bytes _ _ _ H3) as (Hb1 & Hb1' & _). simpl.
    rewrite not_asciiSpace, not_space2_l by lia. by rewrite H3.
Qed.

Lemma trimLeftRev_spaceRune r s :
  spaceRune r → trimLeftRev (String.rev r +:+ s) = trimLeftRev s.
Proof.
  intros [c Hc|c1 c2 H2|c1 c2 c3 H3].
  - change (String.rev (String c "") +:+ s) with (String c s).
    simpl. by rewrite Hc.
  - change (String.rev (String c1 (String c2 "")) +:+ s)
      with (String c2 (String c1 s)).
    pose proof (space2_bytes _ _ H2) as (_ & Hb2 & _). simpl.
    rewrite not_asciiSpace by lia. by rewrite H2.
  - change (String.rev (String c1 (String c2 (String c3 ""))) +:+ s)
      with (String c3 (String c2 (String c1 s))).
    pose proof (space3_bytes _ _ _ H3) as (_ & _ & _ & Hb2 & Hb3). simpl.
    rewrite not_asciiSpace, not_space2_l by lia. by rewrite H3.
Qed.

Lemma trimLeft_whiteSpaceOnly l s :
  whiteSpaceOnly l → trimLeft (l +:+ s) = trimLeft s.
Proof.
  induction 1 as [|r l Hr Hl IH]; [done|].
  by rewrite append_assoc, trimLeft_spaceRune.
Qed.


Lemma whiteSpaceOnly_trimLeft s : whiteSpaceOnly s → trimLeft s = "".
Proof.
  intros Hs. rewrite <-(append_nil_r s) at 1.
  by rewrite trimLeft_whiteSpaceOnly.
Qed.

Lemma trimLeft_idemp s : trimLeft (trimLeft s) = trimLeft s.
Proof.
  induction s as [|c1 r1 IH1 IH2 IH3] using string_ind3; [done|].
  assert (trimLeft (String c1 r1) = trimLeft r1
          ∨ (∃ c2 r2, r1 = String c2 r2
               ∧ trimLeft (String c1 r1) = trimLeft r2)
          ∨ (∃ c2 c3 r3, r1 = String c2 (String c3 r3)
               ∧ trimLeft (String c1 r1) = trimLeft r3)
          ∨ trimLeft (String c1 r1) = String c1 r1) as Hcases.
  { simpl. destruct (asciiSpace c1); [by left|].
    destruct r1 as [|c2 r2]; [by do 3 right|].
    destruct (space2 c1 c2); [right; left; by eexists _, _|].
    destruct r2 as [|c3 r3]; [by do 3 right|].
    destruct (space3 c1 c2 c3); [|by do 3 right].
    right; right; left. by eexists _, _, _. }
  destruct Hcases as [->|[(c2 & r2 & -> & ->)|[(c2 & c3 & r3 & -> & ->)|Hs]]].
  - done.
  - by eapply IH2.
  - by eapply IH3.
  - by rewrite !Hs.
Qed.

End white_space.

Section white_space_both_ends.

Lemma list_of_append s1 s2 :
  list_ascii_of_string (s1 +:+ s2)
  = list_ascii_of_string s1 ++ list_ascii_of_string s2.
Proof.
  induction s1 as [|c s1 IH]; [done|].
  change (c :: list_ascii_of_string (s1 +:+ s2)
          = c :: (list_ascii_of_string s1 ++ list_ascii_of_string s2)).
  by rewrite IH.
Qed.

Lemma rev_append s1 s2 :
  String.rev (s1 +:+ s2) = String.rev s2 +:+ String.rev s1.
Proof.
  apply list_ascii_of_string_inj.
  by rewrite list_of_rev, !list_of_append, !list_of_rev, rev_app_distr.
Qed.

Lemma rev_blank s : String.rev s = "" → s = "".
Proof. intros H. by rewrite <-(rev_rev s), H. Qed.





Lemma trimLeftRev_whiteSpaceOnly r s :
  whiteSpaceOnly r → trimLeftRev (String.rev r +:+ s) = trimLeftRev s.
Proof.
  intros Hr. revert s. induction Hr as [|p r Hp Hr IH]; intros s; [done|].
  by rewrite rev_append, append_assoc, IH, trimLeftRev_spaceRune.
Qed.

(** White space around a string of plain bytes is trimmed away, and
    nothing else. *)
Lemma TrimSpace_surrounded l x r :
  whiteSpaceOnly l → whiteSpaceOnly r →
  Forall (λ c, plain c = true) (list_ascii_of_string x) →
  TrimSpace (l +:+ x +:+ r) = x.
Proof.
  intros Hl Hr Hx. unfold TrimSpace. rewrite trimLeft_whiteSpaceOnly by done.
  destruct x as [|c x].
  { change ("" +:+ r) with r. by rewrite whiteSpaceOnly_trimLeft. }
  change (String c x +:+ r) with (String c (x +:+ r)).
  rewrite trimLeft_plain by (by apply Forall_cons in Hx as [? _]).
  change (String c (x +:+ r)) with (String c x +:+ r).
  unfold trimRight. rewrite rev_append, trimLeftRev_whiteSpaceOnly by done.
  assert (Forall (λ c, plain c = true)
            (list_ascii_of_string (String.rev (String c x)))) as Hrev.
  { rewrite list_of_rev. by apply Forall_rev. }
  destruct (String.rev (String c x)) as [|d y] eqn:Hd.
  { apply rev_blank in Hd. done. }
  rewrite trimLeftRev_plain by (by apply Forall_cons in Hrev as [? _]).
  by rewrite <-Hd, rev_rev.
Qed.

(** White space around a minted identifier. *)
Lemma TrimSpace_around_FormatInt l z r :
  whiteSpaceOnly l → whiteSpaceOnly r →
  TrimSpace (l +:+ FormatInt z +:+ r) = FormatInt z.
Proof.
  intros Hl Hr. apply TrimSpace_surrounded; [done..|apply FormatInt_plain].
Qed.

End white_space_both_ends.

(** ** Create, then get *)

Section create_get.

Lemma elems_appendNil {A} (l : list A) : elems (appendNil l) = l.
Proof. by destruct l. Qed.

Lemma cloneAttributes_sameBundle attrs :
  sameBundle (cloneAttributes attrs) attrs.
Proof.
  destruct attrs as [n e p a b [tags|] [avatar|]]; unfold sameBundle; simpl;
    by rewrite ?elems_appendNil.
Qed.

Lemma Get_Create s attrs :
  Get (Create s attrs).1 (ID (Create s attrs).2) = ((Create s attrs).2, true).
Proof. unfold Get, Create. simpl. by rewrite lookup_insert_eq. Qed.

Lemma Create_ID s attrs :
  ID (Create s attrs).2 = FormatInt (wrap64 (nextID s + 1)).
Proof. done. Qed.

Lemma normalizeAttributes_tags attrs :
  elems (Tags (service.normalizeAttributes attrs))
  = filter (λ tag, tag ≠ "") (TrimSpace <$> elems (Tags attrs)).
Proof.
  unfold service.normalizeAttributes. simpl. case_decide as Hlen; [done|].
  destruct (elems (Tags attrs)); [done|]. simpl in Hlen. lia.
Qed.

End create_get.

(** C3.  When the normalised attributes pass validation, [Create] of the
    service succeeds, and [Get] on the identifier of the record it returned
    succeeds with that record: its fields are the trimmed fields of the
    input, its tags the trimmed tags of the input without the empty ones,
    its avatar the avatar of the input. *)
Theorem create_then_get_returns_normalized (s : Store) (attrs : Attributes) :
  service.validatePayload (service.normalizeAttributes attrs) = None →
  ∃ s' u,
    service.Create s attrs = (s', (u, None))
    ∧ service.Get s' (ID u) = (u, None)
    ∧ sameBundle (Attrs u) (service.normalizeAttributes attrs)
    ∧ Name (Attrs u) = TrimSpace (Name attrs)
    ∧ Email (Attrs u) = TrimSpace (Email attrs)
    ∧ Phone (Attrs u) = TrimSpace (Phone attrs)
    ∧ Address (Attrs u) = TrimSpace (Address attrs)
    ∧ Bio (Attrs u) = TrimSpace (Bio attrs)
    ∧ elems (Tags (Attrs u))
      = filter (λ tag, tag ≠ "") (TrimSpace <$> elems (Tags attrs))
    ∧ elems (Avatar (Attrs u)) = elems (Avatar attrs).
Proof.
  intros Hvalid.
  set (clean := service.normalizeAttributes attrs) in *.
  exists (Create s clean).1, (Create s clean).2.
  pose proof (cloneAttributes_sameBundle clean) as Hsame.
  assert (service.Get (Create s clean).1 (ID (Create s clean).2)
          = ((Create s clean).2, None)) as Hget.
  { unfold service.Get.
    rewrite (Create_ID s clean), validateIdentifier_FormatInt.
    rewrite <-(Create_ID s clean). by rewrite Get_Create. }
  destruct Hsame as (Hn & He & Hp & Ha & Hb & Ht & Hv).
  split_and!;
    [|done|done|exact Hn|exact He|exact Hp|exact Ha|exact Hb| |exact Hv].
  - unfold service.Create. fold clean. by rewrite Hvalid.
  - etrans; [exact Ht|]. apply normalizeAttributes_tags.
Qed.

(** ** Validation *)

Section validation.

Lemma Contains_empty sub : sub ≠ "" → Contains "" sub = false.
Proof. by destruct sub. Qed.



Lemma validatePayload_ok attrs :
  Name attrs ≠ "" → Contains (Email attrs) "@" = true →
  service.validatePayload attrs = None.
Proof.
  intros Hn He. unfold service.validatePayload. rewrite decide_False by done.
  rewrite He, bool_decide_eq_false_2; [done|].
  intros Hempty. by rewrite Hempty in He.
Qed.


Lemma validateIdentifier_ok id :
  TrimSpace id ≠ "" → service.validateIdentifier id = None.
Proof.
  intros H. unfold service.validateIdentifier. by rewrite decide_False.
Qed.

(** Once the identifier is not blank, the service looks it up as it
    was given. *)
Lemma service_Get_lookup s id :
  TrimSpace id ≠ "" →
  service.Get s id = match users s !! id with
                     | Some u => (u, None)
                     | None => (zeroUser, Some ErrNotFound)
                     end.
Proof.
  intros H. unfold service.Get, Get. rewrite validateIdentifier_ok by done.
  by destruct (users s !! id).
Qed.

Lemma service_Delete_lookup s id :
  TrimSpace id ≠ "" →
  service.Delete s id
  = match users s !! id with
    | Some _ => (mkStore (delete id (users s)) (nextID s), None)
    | None => (s, Some ErrNotFound)
    end.
Proof.
  intros H. unfold service.Delete, Delete.
  rewrite validateIdentifier_ok by done. by destruct (users s !! id).
Qed.

Lemma service_Update_lookup s id attrs :
  TrimSpace id ≠ "" →
  service.validatePayload (service.normalizeAttributes attrs) = None →
  service.Update s id attrs
  = match users s !! id with
    | Some _ =>
        let clean := service.normalizeAttributes attrs in
        let u := mkUser id (cloneAttributes clean) in
        (mkStore (<[id := u]> (users s)) (nextID s), (u, None))
    | None => (s, (zeroUser, Some ErrNotFound))
    end.
Proof.
  intros Hid Hp. unfold service.Update, Update.
  rewrite validateIdentifier_ok, Hp by done. by destruct (users s !! id).
Qed.

End validation.


(** ** Which identifiers name a record *)

Section liveness.

(** Started from a store and an answer [b] to "is [id] live" that agree,
    a history ends with the store and the answer in agreement. *)
Lemma liveStep_run id cs : ∀ s b,
  (b = true ↔ is_Some (users s !! id)) →
  fold_left (liveStep id) (zip cs (run s cs).2) b = true
  ↔ is_Some (users (run s cs).1 !! id).
Proof.
  induction cs as [|c cs IH]; intros s b Hb; simpl; [done|].
  run_cons IH s c cs s1 r Hstep. apply IH.
  destruct c as [attrs|id' attrs|id'|id'|]; simpl in Hstep.
  - injection Hstep as <- <-. simpl. case_decide as Heq.
    + rewrite <-Heq, lookup_insert_eq. split; [by eexists|done].
    + by rewrite lookup_insert_ne.
  - unfold Update in Hstep. destruct (users s !! id') as [old|] eqn:Hold;
      injection Hstep as <- <-; simpl; [|done].
    destruct (decide (id' = id)) as [->|Hne].
    + rewrite lookup_insert_eq, Hb, Hold. split; by eexists.
    + by rewrite lookup_insert_ne.
  - by injection Hstep as <- <-.
  - unfold Delete in Hstep. destruct (users s !! id') as [old|] eqn:Hold;
      injection Hstep as <- <-; simpl.
    + case_decide as Heq.
      * rewrite <-Heq, lookup_delete_eq. split; [done|by intros [??]].
      * by rewrite lookup_delete_ne.
    + case_decide as Heq; [|done].
      rewrite <-Heq, Hold. split; [done|by intros [??]].
  - by injection Hstep as <- <-.
Qed.

(** A record exists in the store exactly when its identifier was
    created and not deleted since. *)
Lemma live_iff_stored id cs :
  live id cs = true ↔ is_Some (users (after cs) !! id).
Proof.
  unfold live, after. apply liveStep_run. simpl. rewrite lookup_empty.
  split; [done|by intros [??]].
Qed.

Lemma not_live_iff_absent id cs :
  live id cs = false ↔ users (after cs) !! id = None.
Proof.
  rewrite <-not_true_iff_false, live_iff_stored.
  by rewrite <-eq_None_not_Some.
Qed.

End liveness.

(** ** [Update] and [Delete] of the store *)

Section update_delete.

Lemma Update_absent s id attrs :
  users s !! id = None → Update s id attrs = (s, (zeroUser, Some ErrNotFound)).
Proof. intros H. unfold Update. by rewrite H. Qed.

Lemma Update_present s id attrs old :
  users s !! id = Some old →
  Update s id attrs
  = (mkStore (<[id := mkUser id (cloneAttributes attrs)]> (users s)) (nextID s),
     (mkUser id (cloneAttributes attrs), None)).
Proof. intros H. unfold Update. by rewrite H. Qed.

Lemma Delete_absent s id : users s !! id = None → Delete s id = (s, false).
Proof. intros H. unfold Delete. by rewrite H. Qed.

Lemma Delete_present s id old :
  users s !! id = Some old →
  Delete s id = (mkStore (delete id (users s)) (nextID s), true).
Proof. intros H. unfold Delete. by rewrite H. Qed.

Lemma Delete_gone s id : users (Delete s id).1 !! id = None.
Proof.
  unfold Delete. destruct (users s !! id) eqn:H; simpl; [|done].
  apply lookup_delete_eq.
Qed.

End update_delete.

(** C6.  For the store reached by any history and any identifier that is
    not live in it (never returned by a [Create], or deleted since),
    [Update] returns [ErrNotFound] and the store is unchanged.  For a live
    identifier [Update] stores, under the same identifier, a record made of
    a copy of the given attributes alone, returns that record, and leaves
    every other record and the counter as they were. *)
Theorem update_absent_is_not_found_else_replaces
    (cs : list call) (id : string) (attrs : Attributes) :
  (live id cs = false →
     Update (after cs) id attrs = (after cs, (zeroUser, Some ErrNotFound)))
  ∧ (live id cs = true →
     ∃ s' u,
       Update (after cs) id attrs = (s', (u, None))
       ∧ ID u = id
       ∧ Attrs u = cloneAttributes attrs
       ∧ sameBundle (Attrs u) attrs
       ∧ users s' !! id = Some u
       ∧ (∀ id', id' ≠ id → users s' !! id' = users (after cs) !! id')
       ∧ nextID s' = nextID (after cs))
  ∧ (∀ s, users s !! id = None →
       Update s id attrs = (s, (zeroUser, Some ErrNotFound))).
Proof.
  split_and!.
  - intros Hdead%not_live_iff_absent. by apply Update_absent.
  - intros [old Hold]%live_iff_stored.
    eexists _, _. split; [by eapply Update_present|]. simpl.
    split_and!; [done|done|apply cloneAttributes_sameBundle| | |done].
    + by rewrite lookup_insert_eq.
    + intros id' Hne. by rewrite lookup_insert_ne.
  - intros s. apply Update_absent.
Qed.

(** C7.  [Delete] returns whether a record was stored under the
    identifier.  For an absent identifier it returns [false] and the store
    is unchanged; for a stored one it returns [true], the record is gone
    and every other record is as before.  A second [Delete] of the same
    identifier returns [false] and changes nothing. *)
Theorem delete_reports_existence_and_repeats_safely (s : Store) (id : string) :
  (users s !! id = None → Delete s id = (s, false))
  ∧ (is_Some (users s !! id) →
       (Delete s id).2 = true
       ∧ users (Delete s id).1 !! id = None
       ∧ (∀ id', id' ≠ id → users (Delete s id).1 !! id' = users s !! id')
       ∧ nextID (Delete s id).1 = nextID s)
  ∧ ((Delete s id).2 = true ↔ is_Some (users s !! id))
  ∧ Delete (Delete s id).1 id = ((Delete s id).1, false).
Proof.
  split_and!.
  - apply Delete_absent.
  - intros [old Hold]. rewrite (Delete_present _ _ _ Hold). simpl.
    split_and!; [done|apply lookup_delete_eq| |done].
    intros id' Hne. by rewrite lookup_delete_ne.
  - unfold Delete. destruct (users s !! id); simpl.
    + split; [by eexists|done].
    + split; [done|by intros [??]].
  - apply Delete_absent, Delete_gone.
Qed.

(** ** Identifiers with white space around them *)

Section identifiers.

Lemma numeralKeys_step s c : numeralKeys s → numeralKeys (step s c).1.
Proof.
  intros Hs. destruct c as [attrs|id attrs|id|id|]; simpl; try done.
  - apply map_Forall_insert_2; [by eexists|done].
  - unfold Update. destruct (users s !! id) eqn:Hid; simpl; [|done].
    apply map_Forall_insert_2; [|done]. by apply (Hs id u).
  - unfold Delete. destruct (users s !! id) eqn:Hid; simpl; [|done].
    by apply map_Forall_delete.
Qed.

Lemma numeralKeys_after cs : numeralKeys (after cs).
Proof.
  apply (run_invariant numeralKeys numeralKeys_step), map_Forall_empty.
Qed.

Lemma stored_id_trimmed cs id u :
  users (after cs) !! id = Some u → TrimSpace id = id ∧ id ≠ "".
Proof.
  intros Hu. destruct (numeralKeys_after cs id u Hu) as [z ->].
  split; [apply TrimSpace_FormatInt|apply FormatInt_plain].
Qed.

End identifiers.

(** C4, as the code has it.  Let [raw] be the identifier [id] of a
    stored record with white space put before and after it.  [Get],
    [Update] and [Delete] of the service trim the identifier only to see
    whether it is empty and ask the store for [raw] as it was given: unless
    [raw] is [id] itself they answer [ErrNotFound] and change nothing, and
    so does the HTTP handler [getUser], with status 404.  The gRPC methods
    [GetUser], [UpdateUser] and [DeleteUser] trim the
    identifier of the request before they call the service: through them
    [raw] resolves to the record stored under [id]. *)
Theorem identifier_looked_up_as_given_trimmed_by_grpc
    (cs : list call) (id : string) (u : User) (l r : string) :
  users (after cs) !! id = Some u →
  whiteSpaceOnly l → whiteSpaceOnly r →
  TrimSpace (l +:+ id +:+ r) = id
  ∧ (l +:+ id +:+ r ≠ id →
       service.Get (after cs) (l +:+ id +:+ r) = (zeroUser, Some ErrNotFound)
       ∧ service.Delete (after cs) (l +:+ id +:+ r)
         = (after cs, Some ErrNotFound)
       ∧ (∀ attrs,
            service.validatePayload (service.normalizeAttributes attrs) = None →
            service.Update (after cs) (l +:+ id +:+ r) attrs
            = (after cs, (zeroUser, Some ErrNotFound)))
       ∧ httptransport.getUser (after cs) (l +:+ id +:+ r)
         = httptransport.mkResponse 404
             (httptransport.ErrorBody "user not found"))
  ∧ service.Get (after cs) id = (u, None)
  ∧ service.GetUser (after cs) (l +:+ id +:+ r)
    = (Some (service.toProto u), None)
  ∧ (service.DeleteUser (after cs) (l +:+ id +:+ r)).2 = (true, None)
  ∧ users (service.DeleteUser (after cs) (l +:+ id +:+ r)).1 !! id = None
  ∧ (∀ name email phone address bio tags avatar,
       service.validatePayload
         (service.normalizeAttributes
            (service.protoToAttributes name email phone address bio
               tags avatar)) = None →
       ∃ s' u',
         service.UpdateUser (after cs) (l +:+ id +:+ r) name email phone
           address bio tags avatar = (s', (Some (service.toProto u'), None))
         ∧ ID u' = id
         ∧ users s' !! id = Some u')
  ∧ (∀ s id', TrimSpace id' ≠ "" →
       service.Get s id' = match users s !! id' with
                           | Some u' => (u', None)
                           | None => (zeroUser, Some ErrNotFound)
                           end).
Proof.
  intros Hu Hl Hr.
  destruct (numeralKeys_after cs id u Hu) as [z ->].
  assert (TrimSpace (l +:+ FormatInt z +:+ r) = FormatInt z) as Htrim
    by (by apply TrimSpace_around_FormatInt).
  assert (FormatInt z ≠ "") as Hne by apply FormatInt_plain.
  assert (TrimSpace (FormatInt z) ≠ "") as Hid
    by (by rewrite TrimSpace_FormatInt).
  split_and!; [done| | | | | | |].
  - intros Hraw.
    assert (users (after cs) !! (l +:+ FormatInt z +:+ r) = None) as Habs.
    { destruct (users (after cs) !! (l +:+ FormatInt z +:+ r)) as [u'|] eqn:Hu';
        [|done].
      destruct (stored_id_trimmed _ _ _ Hu') as [Hsame _].
      rewrite Htrim in Hsame. by destruct Hraw. }
    assert (TrimSpace (l +:+ FormatInt z +:+ r) ≠ "") as Hrawid
      by (by rewrite Htrim).
    split_and!.
    + by rewrite service_Get_lookup, Habs.
    + by rewrite service_Delete_lookup, Habs.
    + intros attrs Hp. by rewrite service_Update_lookup, Habs.
    + unfold httptransport.getUser. by rewrite service_Get_lookup, Habs.
  - by rewrite service_Get_lookup, Hu.
  - unfold service.GetUser. by rewrite Htrim, service_Get_lookup, Hu.
  - unfold service.DeleteUser. by rewrite Htrim, service_Delete_lookup, Hu.
  - unfold service.DeleteUser. rewrite Htrim, service_Delete_lookup, Hu by done.
    simpl. apply lookup_delete_eq.
  - intros name email phone address bio tags avatar Hp.
    unfold service.UpdateUser.
    rewrite Htrim, service_Update_lookup, Hu by done. simpl.
    eexists _, _. split; [done|]. split; [done|].
    simpl. apply lookup_insert_eq.
  - apply service_Get_lookup.
Qed.

(** C4 as stated fails: with the record ["1"] in the store, the
    identifier [" 1 "] differs from ["1"] only by the white space around it,
    and [Get], [Update] and [Delete] of the service all answer
    [ErrNotFound]; over HTTP that is a 404, while the gRPC method, which
    trims first, finds the record. *)
Lemma untrimmed_identifier_is_not_found :
  let s := (service.Create NewStore ada).1 in
  TrimSpace " 1 " = "1"
  ∧ (service.Get s "1").2 = None
  ∧ service.Get s " 1 " = (zeroUser, Some ErrNotFound)
  ∧ service.Update s " 1 " grace = (s, (zeroUser, Some ErrNotFound))
  ∧ service.Delete s " 1 " = (s, Some ErrNotFound)
  ∧ httptransport.getUser s " 1 "
    = httptransport.mkResponse 404 (httptransport.ErrorBody "user not found")
  ∧ service.GetUser s " 1 " = (Some (service.toProto (mkUser "1" ada)), None).
Proof. vm_compute. by repeat split. Qed.

(** ** Ownership of the tag list and the avatar *)

Section memory.

Lemma window_elems_prefix {A} (arrays arrays' : list (list A)) sl :
  arrays `prefix_of` arrays' → mem.allocated arrays sl →
  mem.window_elems arrays' sl = mem.window_elems arrays sl.
Proof.
  intros [k ->] Hsl. destruct sl as [w|]; [|done]. simpl in *.
  by rewrite lookup_app_l.
Qed.

Lemma allocated_prefix {A} (arrays arrays' : list (list A)) sl :
  arrays `prefix_of` arrays' → mem.allocated arrays sl →
  mem.allocated arrays' sl.
Proof.
  intros Hpre Hsl. destruct sl as [w|]; [|done]. simpl in *.
  apply prefix_length in Hpre. lia.
Qed.

(** A write through one slice is not seen through a slice on another
    array. *)
Lemma window_set_elsewhere {A} (arrays arrays2 : list (list A)) sl i v w' :
  mem.window_set arrays sl i v = Some arrays2 →
  (∀ w, sl = Some w → mem.arr w ≠ mem.arr w') →
  mem.window_elems arrays2 (Some w') = mem.window_elems arrays (Some w').
Proof.
  unfold mem.window_set. destruct sl as [w|]; [|done].
  case_decide; [|done]. intros [= <-] Hne. simpl.
  rewrite list_lookup_alter_ne; [done|]. by apply Hne.
Qed.

Lemma window_set_length {A} (arrays arrays2 : list (list A)) sl i v :
  mem.window_set arrays sl i v = Some arrays2 →
  length arrays2 = length arrays.
Proof.
  unfold mem.window_set. destruct sl as [w|]; [|done].
  case_decide; [|done]. intros [= <-]. apply length_alter.
Qed.

(** What [append([]T(nil), xs...)] gives: the old arrays are untouched,
    the result holds the elements of [xs], and it is [nil] or a window on
    the one array allocated by the call. *)
Lemma appendNil_spec {A} (arrays arrays' : list (list A)) xs c :
  mem.appendNil arrays xs = (arrays', c) →
  arrays `prefix_of` arrays'
  ∧ mem.window_elems arrays' c = mem.window_elems arrays xs
  ∧ mem.allocated arrays' c
  ∧ (∀ w, c = Some w → mem.arr w = length arrays)
  ∧ (c = None ↔ mem.window_elems arrays xs = []).
Proof.
  unfold mem.appendNil.
  destruct (mem.window_elems arrays xs) as [|e es] eqn:Hxs;
    intros [= <- <-].
  - by split_and!.
  - split_and!.
    + by apply prefix_app_r.
    + simpl. rewrite lookup_app_r, Nat.sub_diag by done. simpl.
      by rewrite take_ge by (simpl; lia).
    + simpl. rewrite length_app. simpl. lia.
    + by intros w [= <-].
    + done.
Qed.

Lemma cloneAttributes_spec h attrs h' c :
  mem.cloneAttributes h attrs = (h', c) →
  mem.extends h h'
  ∧ mem.tagsOf h' c = mem.tagsOf h attrs
  ∧ mem.avatarOf h' c = mem.avatarOf h attrs
  ∧ mem.allocatedAttributes h' c
  ∧ (∀ w, mem.Tags c = Some w → mem.arr w = length (mem.tagArrays h))
  ∧ (∀ w, mem.Avatar c = Some w → mem.arr w = length (mem.byteArrays h))
  ∧ mem.Name c = mem.Name attrs ∧ mem.Email c = mem.Email attrs
  ∧ mem.Phone c = mem.Phone attrs ∧ mem.Address c = mem.Address attrs
  ∧ mem.Bio c = mem.Bio attrs.
Proof.
  unfold mem.cloneAttributes.
  assert (∃ ts t, mem.appendNil (mem.tagArrays h) (mem.Tags attrs) = (ts, t)
            ∧ match mem.Tags attrs with
              | Some _ => mem.appendNil (mem.tagArrays h) (mem.Tags attrs)
              | None => (mem.tagArrays h, mem.Tags attrs)
              end = (ts, t)) as (ts & t & Ht & ->).
  { destruct (mem.Tags attrs); [|eexists _, _; split; reflexivity].
    destruct (mem.appendNil (mem.tagArrays h) _); by eexists _, _. }
  assert (∃ bs b, mem.appendNil (mem.byteArrays h) (mem.Avatar attrs) = (bs, b)
            ∧ match mem.Avatar attrs with
              | Some _ => mem.appendNil (mem.byteArrays h) (mem.Avatar attrs)
              | None => (mem.byteArrays h, mem.Avatar attrs)
              end = (bs, b)) as (bs & b & Hb & ->).
  { destruct (mem.Avatar attrs); [|eexists _, _; split; reflexivity].
    destruct (mem.appendNil (mem.byteArrays h) _); by eexists _, _. }
  intros [= <- <-].
  apply appendNil_spec in Ht as (Ht1 & Ht2 & Ht3 & Ht4 & _).
  apply appendNil_spec in Hb as (Hb1 & Hb2 & Hb3 & Hb4 & _).
  by split_and!.
Qed.

End memory.

Section copies.

(** Reading allocated attributes gives the same in a larger heap. *)
Lemma valueOfAttributes_extends h h' attrs :
  mem.extends h h' → mem.allocatedAttributes h attrs →
  mem.valueOfAttributes h' attrs = mem.valueOfAttributes h attrs.
Proof.
  intros [Ht Hb] [Hta Hba].
  unfold mem.valueOfAttributes, mem.tagsOf, mem.avatarOf.
  by rewrite (window_elems_prefix _ _ _ Ht Hta),
    (window_elems_prefix _ _ _ Hb Hba).
Qed.

(** A write through a slice that was allocated before a copy was made
    does not reach the copy. *)
Lemma copy_unreachable_by_setTag h h' c prev i v h2 :
  (∀ w, mem.Tags c = Some w → mem.arr w = length (mem.tagArrays h)) →
  mem.allocatedAttributes h prev →
  mem.setTag h' prev i v = Some h2 →
  mem.valueOfAttributes h2 c = mem.valueOfAttributes h' c.
Proof.
  intros Hfresh [Hprev _]. unfold mem.setTag.
  destruct (mem.window_set _ _ _ _) as [arrays2|] eqn:Hset; [|done].
  intros [= <-]. unfold mem.valueOfAttributes, mem.tagsOf, mem.avatarOf. simpl.
  destruct (mem.Tags c) as [w|] eqn:Hc; [|done].
  rewrite (window_set_elsewhere _ _ _ _ _ w Hset); [done|].
  intros w0 Hw0. rewrite Hw0 in Hprev. simpl in Hprev.
  rewrite (Hfresh w eq_refl). lia.
Qed.

Lemma copy_unreachable_by_setAvatarByte h h' c prev i b h2 :
  (∀ w, mem.Avatar c = Some w → mem.arr w = length (mem.byteArrays h)) →
  mem.allocatedAttributes h prev →
  mem.setAvatarByte h' prev i b = Some h2 →
  mem.valueOfAttributes h2 c = mem.valueOfAttributes h' c.
Proof.
  intros Hfresh [_ Hprev]. unfold mem.setAvatarByte.
  destruct (mem.window_set _ _ _ _) as [arrays2|] eqn:Hset; [|done].
  intros [= <-]. unfold mem.valueOfAttributes, mem.tagsOf, mem.avatarOf. simpl.
  destruct (mem.Avatar c) as [w|] eqn:Hc; [|done].
  rewrite (window_set_elsewhere _ _ _ _ _ w Hset); [done|].
  intros w0 Hw0. rewrite Hw0 in Hprev. simpl in Hprev.
  rewrite (Hfresh w eq_refl). lia.
Qed.

Lemma cloneAttributes_ownCopy h attrs h' c :
  mem.cloneAttributes h attrs = (h', c) → ownCopy h h' attrs c.
Proof.
  intros (Hext & Ht & Hb & _ & Hft & Hfb & _)%cloneAttributes_spec.
  split_and!; [done..| | |].
  - intros prev. by apply valueOfAttributes_extends.
  - intros hx prev i v h2. by apply copy_unreachable_by_setTag.
  - intros hx prev i b h2. by apply copy_unreachable_by_setAvatarByte.
Qed.

End copies.

(** C8, as the code has it.  [Create] and [Update] of the store copy the
    tag list and the avatar they are given into arrays that the call
    allocates, and store the record with these copies: the stored tags and
    avatar are those passed in, no array that existed before the call is
    written, and a later write through any slice that existed before the
    call, the ones passed in included, leaves the stored record as it is.
    [Get], [Delete] and [List] touch no array.  The record that [Create]
    and [Update] return, the one [Get] returns and each one in the slice
    that [List] returns is the stored record itself, with the windows of
    the stored tags and avatar. *)
Theorem store_copies_attributes_passed_in
    (h : mem.Heap) (s : mem.Store) (attrs : mem.Attributes) :
  (∀ h' s' u, mem.Create h s attrs = (h', s', u) →
     ownCopy h h' attrs (mem.Attrs u)
     ∧ mem.users s' !! mem.ID u = Some u
     ∧ mem.Get s' (mem.ID u) = (u, true))
  ∧ (∀ id h' s' u, mem.Update h s id attrs = (h', s', (u, None)) →
     ownCopy h h' attrs (mem.Attrs u)
     ∧ mem.ID u = id
     ∧ mem.users s' !! id = Some u
     ∧ mem.Get s' id = (u, true))
  ∧ (∀ id h' s' u err, mem.Update h s id attrs = (h', s', (u, Some err)) →
     h' = h ∧ s' = s)
  ∧ (∀ id u, mem.users s !! id = Some u → mem.Get s id = (u, true))
  ∧ (∀ visit l u, visit ≡ₚ (map_to_list (mem.users s)).*2 →
       mem.List_visiting s visit = Some l → u ∈ l →
       ∃ id, mem.users s !! id = Some u).
Proof.
  split_and!.
  - intros h' s' u. unfold mem.Create.
    destruct (mem.cloneAttributes h attrs) as [h1 c] eqn:Hc.
    intros [= <- <- <-]. simpl.
    split_and!; [by apply cloneAttributes_ownCopy| |].
    + by rewrite lookup_insert_eq.
    + unfold mem.Get. simpl. by rewrite lookup_insert_eq.
  - intros id h' s' u. unfold mem.Update.
    destruct (mem.users s !! id); [|done].
    destruct (mem.cloneAttributes h attrs) as [h1 c] eqn:Hc.
    intros [= <- <- <-]. simpl.
    split_and!; [by apply cloneAttributes_ownCopy|done| |].
    + by rewrite lookup_insert_eq.
    + unfold mem.Get. simpl. by rewrite lookup_insert_eq.
  - intros id h' s' u err. unfold mem.Update.
    destruct (mem.users s !! id).
    + destruct (mem.cloneAttributes h attrs). intros [=].
    + by intros [= <- <-].
  - intros id u Hu. unfold mem.Get. by rewrite Hu.
  - intros visit l u Hv. unfold mem.List_visiting. case_decide; [done|].
    intros [= <-]. rewrite Slice_Permutation, Hv.
    intros [[k v] [-> Hkv]]%list_elem_of_fmap.
    exists k. by apply elem_of_map_to_list.
Qed.

(** C8 as stated fails: the record returned by [Create], and the one
    returned by [Get] and by [List], is no copy.  A caller that writes
    ["changed"] into the first tag of the record it got from [Create], or
    a byte into its avatar, changes what the store holds: [Get] and [List]
    show the change. *)
Lemma returned_record_shares_stored_arrays :
  ∃ h1 s1 u h2 h3,
    mem.Create sampleHeap mem.NewStore sampleAttributes = (h1, s1, u)
    ∧ mem.Get s1 "1" = (u, true)
    ∧ mem.List s1 = Some [u]
    ∧ mem.tagsOf h1 (mem.Attrs (mem.Get s1 "1").1) = ["go"; "grpc"]
    ∧ mem.setTag h1 (mem.Attrs u) 0 "changed" = Some h2
    ∧ mem.tagsOf h2 (mem.Attrs (mem.Get s1 "1").1) = ["changed"; "grpc"]
    ∧ mem.avatarOf h2 (mem.Attrs (mem.Get s1 "1").1) = ["a"; "b"; "c"]%char
    ∧ mem.setAvatarByte h2 (mem.Attrs (mem.Get s1 "1").1) 2 "z"%char = Some h3
    ∧ fmap (M := list) (mem.valueOfUser h3) <$> mem.List s1
      = Some [user.mkUser "1"
                (user.mkAttributes "Ada" "ada@example.com" "" "" ""
                   (Some ["changed"; "grpc"]) (Some ["a"; "b"; "z"]%char))].
Proof. do 5 eexists. vm_compute. by repeat split. Qed.

(** ** The value-level model abstracts the memory-level one *)

Section refinement.

Lemma valueOf_appendNil {A} (arrays arrays' : list (list A)) xs c :
  mem.appendNil arrays xs = (arrays', c) →
  match c with Some _ => Some (mem.window_elems arrays' c) | None => None end
  = user.appendNil (mem.window_elems arrays xs).
Proof.
  unfold mem.appendNil.
  destruct (mem.window_elems arrays xs) as [|e es] eqn:Hxs;
    intros [= <- <-]; [done|]. simpl.
  rewrite lookup_app_r, Nat.sub_diag by done. simpl.
  by rewrite take_ge by (simpl; lia).
Qed.

Lemma valueOf_cloneAttributes h attrs h' c :
  mem.cloneAttributes h attrs = (h', c) →
  mem.valueOfAttributes h' c
  = user.cloneAttributes (mem.valueOfAttributes h attrs).
Proof.
  destruct attrs as [n e p a b tags avatar].
  unfold mem.cloneAttributes, mem.valueOfAttributes, user.cloneAttributes,
    mem.tagsOf, mem.avatarOf. simpl.
  destruct tags as [tw|], avatar as [aw|]; simpl.
  - destruct (mem.appendNil _ (Some tw)) as [ts t] eqn:Ht.
    destruct (mem.appendNil _ (Some aw)) as [bs v] eqn:Hv.
    intros [= <- <-]. simpl.
    f_equal; [exact (valueOf_appendNil _ _ _ _ Ht)|].
    exact (valueOf_appendNil _ _ _ _ Hv).
  - destruct (mem.appendNil _ (Some tw)) as [ts t] eqn:Ht.
    intros [= <- <-]. simpl. f_equal. exact (valueOf_appendNil _ _ _ _ Ht).
  - destruct (mem.appendNil _ (Some aw)) as [bs v] eqn:Hv.
    intros [= <- <-]. simpl. f_equal. exact (valueOf_appendNil _ _ _ _ Hv).
  - by intros [= <- <-].
Qed.

Lemma valueOfUser_extends h h' u :
  mem.extends h h' → mem.allocatedAttributes h (mem.Attrs u) →
  mem.valueOfUser h' u = mem.valueOfUser h u.
Proof.
  intros Hext Hu. unfold mem.valueOfUser.
  by rewrite (valueOfAttributes_extends _ _ _ Hext Hu).
Qed.

Lemma valueOfStore_extends h h' s :
  mem.extends h h' → mem.allocatedStore h s →
  mem.valueOfUser h' <$> mem.users s = mem.valueOfUser h <$> mem.users s.
Proof.
  intros Hext Hs. apply map_fmap_ext. intros k u Hu.
  apply valueOfUser_extends; [done|]. by apply (Hs k u).
Qed.

Lemma allocatedAttributes_extends h h' attrs :
  mem.extends h h' → mem.allocatedAttributes h attrs →
  mem.allocatedAttributes h' attrs.
Proof.
  intros [Ht Hb] [Hta Hba].
  split; by eapply allocated_prefix.
Qed.

Lemma allocatedStore_extends h h' s :
  mem.extends h h' → mem.allocatedStore h s → mem.allocatedStore h' s.
Proof.
  intros Hext Hs k u Hu. eapply allocatedAttributes_extends; [done|].
  by apply (Hs k u).
Qed.

(** [Create] of the memory-level store is [Create] of the value-level
    store on the values. *)
Lemma refine_Create h s attrs h' s' u :
  mem.allocatedStore h s →
  mem.Create h s attrs = (h', s', u) →
  user.Create (mem.valueOfStore h s) (mem.valueOfAttributes h attrs)
  = (mem.valueOfStore h' s', mem.valueOfUser h' u)
  ∧ mem.allocatedStore h' s'.
Proof.
  intros Hs. unfold mem.Create.
  destruct (mem.cloneAttributes h attrs) as [h1 c] eqn:Hc.
  intros [= <- <- <-].
  pose proof (valueOf_cloneAttributes _ _ _ _ Hc) as Hval.
  apply cloneAttributes_spec in Hc as (Hext & _ & _ & Halloc & _).
  split.
  - unfold user.Create, mem.valueOfStore.
    cbn [mem.users mem.nextID user.users user.nextID].
    rewrite fmap_insert, (valueOfStore_extends _ _ _ Hext Hs).
    by rewrite <-Hval.
  - apply map_Forall_insert_2; [done|]. by eapply allocatedStore_extends.
Qed.

Lemma refine_Update h s id attrs h' s' r :
  mem.allocatedStore h s →
  mem.Update h s id attrs = (h', s', r) →
  user.Update (mem.valueOfStore h s) id (mem.valueOfAttributes h attrs)
  = (mem.valueOfStore h' s', (mem.valueOfUser h' r.1, r.2))
  ∧ mem.allocatedStore h' s'.
Proof.
  intros Hs. unfold mem.Update, user.Update. simpl. rewrite lookup_fmap.
  destruct (mem.users s !! id) as [old|] eqn:Hold; simpl.
  - destruct (mem.cloneAttributes h attrs) as [h1 c] eqn:Hc.
    intros [= <- <- <-].
    pose proof (valueOf_cloneAttributes _ _ _ _ Hc) as Hval.
    apply cloneAttributes_spec in Hc as (Hext & _ & _ & Halloc & _).
    split.
    + unfold mem.valueOfStore. cbn [mem.users mem.nextID fst snd].
      rewrite fmap_insert, (valueOfStore_extends _ _ _ Hext Hs).
      by rewrite <-Hval.
    + apply map_Forall_insert_2; [done|]. by eapply allocatedStore_extends.
  - by intros [= <- <- <-].
Qed.

Lemma refine_Get h s id :
  user.Get (mem.valueOfStore h s) id
  = (mem.valueOfUser h (mem.Get s id).1, (mem.Get s id).2).
Proof.
  unfold user.Get, mem.Get. simpl. rewrite lookup_fmap.
  by destruct (mem.users s !! id).
Qed.

Lemma refine_Delete h s id :
  user.Delete (mem.valueOfStore h s) id
  = (mem.valueOfStore h (mem.Delete s id).1, (mem.Delete s id).2).
Proof.
  unfold user.Delete, mem.Delete. simpl. rewrite lookup_fmap.
  destruct (mem.users s !! id); simpl; [|done].
  unfold mem.valueOfStore. simpl. by rewrite fmap_delete.
Qed.

Lemma refine_insert h x l :
  sort.insert (λ a b, less (user.ID a) (user.ID b)) (mem.valueOfUser h x)
    (mem.valueOfUser h <$> l)
  = mem.valueOfUser h <$> sort.insert (λ a b, less (mem.ID a) (mem.ID b)) x l.
Proof.
  induction l as [|y r IH]; [done|].
  rewrite fmap_cons. cbn [sort.insert].
  change (user.ID (mem.valueOfUser h x)) with (mem.ID x).
  change (user.ID (mem.valueOfUser h y)) with (mem.ID y).
  destruct (less (mem.ID x) (mem.ID y)); [by rewrite !fmap_cons|].
  rewrite fmap_cons. f_equal. apply IH.
Qed.

Lemma refine_Slice h l :
  sort.Slice (λ a b, less (user.ID a) (user.ID b)) (mem.valueOfUser h <$> l)
  = mem.valueOfUser h <$> sort.Slice (λ a b, less (mem.ID a) (mem.ID b)) l.
Proof.
  induction l as [|x r IH]; [done|].
  rewrite fmap_cons. cbn [sort.Slice].
  by rewrite IH, refine_insert.
Qed.

(** [List]: a visiting order of the memory-level map is one of the
    value-level map, and the listings agree. *)
Lemma refine_List h s visit :
  visit ≡ₚ (map_to_list (mem.users s)).*2 →
  user.rangeOrder (mem.valueOfStore h s) (mem.valueOfUser h <$> visit)
  ∧ user.List_visiting (mem.valueOfStore h s) (mem.valueOfUser h <$> visit)
    = fmap (M := list) (mem.valueOfUser h) <$> mem.List_visiting s visit.
Proof.
  intros Hv. split.
  - unfold user.rangeOrder, mem.valueOfStore. simpl.
    rewrite map_to_list_fmap, Hv.
    assert ((prod_map id (mem.valueOfUser h) <$> map_to_list (mem.users s)).*2
            = mem.valueOfUser h <$> (map_to_list (mem.users s)).*2) as ->;
      [|done].
    rewrite <-!list_fmap_compose. apply list_fmap_ext. by intros i [k u] _.
  - unfold user.List_visiting, mem.List_visiting, mem.valueOfStore. simpl.
    rewrite map_size_fmap. case_decide; [done|]. simpl.
    by rewrite refine_Slice.
Qed.

End refinement.

(** ** Normalising the tags in place *)

Section normalize_in_place.

(** The loop from index [i] on, with [k] tags kept so far: the tags
    kept end up at the front of the window, in order; nothing outside the
    part of the window already read is written. *)
Lemma normalizeLoop_spec n : ∀ a o i k a' k',
  (k ≤ i)%nat → (o + i + n ≤ length a)%nat →
  mem.normalizeLoop a o i n k = (a', k') →
  length a' = length a
  ∧ take k' (drop o a')
    = take k (drop o a)
      ++ filter (λ tag, tag ≠ "") (TrimSpace <$> take n (drop (o + i) a))
  ∧ take o a' = take o a
  ∧ drop (o + i + n) a' = drop (o + i + n) a.
Proof.
  induction n as [|n IH]; intros a o i k a' k' Hk Hlen; simpl.
  { intros [= <- <-]. split_and!; try done. by rewrite app_nil_r. }
  destruct (lookup_lt_is_Some_2 a (o + i)%nat) as [x Hx]; [lia|].
  rewrite Hx. simpl. rewrite (drop_S _ _ _ Hx). simpl.
  case_decide as Htag.
  - intros Hloop. apply IH in Hloop as (H1 & H2 & H3 & H4); [|lia..].
    rewrite filter_cons_False by (by intros ?).
    replace (S (o + i)) with (o + S i)%nat by lia.
    replace (o + i + S n)%nat with (o + S i + n)%nat by lia. done.
  - intros Hloop. apply IH in Hloop as (H1 & H2 & H3 & H4);
      [|rewrite ?length_insert; lia..].
    rewrite length_insert in H1. rewrite filter_cons_True by done.
    replace (S (o + i)) with (o + S i)%nat by lia.
    replace (o + i + S n)%nat with (o + S i + n)%nat by lia.
    rewrite (drop_insert_lt _ (o + S i)) in H2 by lia.
    rewrite (drop_insert_lt _ (o + S i + n)) in H4 by lia.
    rewrite take_insert_ge in H3 by lia.
    split_and!; [done| |done|done].
    rewrite H2, drop_insert_ge by lia.
    replace (o + k - o)%nat with k by lia.
    rewrite (take_S_r _ _ (TrimSpace x)).
    + rewrite take_insert_ge by lia. by rewrite <-app_assoc.
    + apply list_lookup_insert_eq. rewrite length_drop. lia.
Qed.

(** In-place normalisation computes the normalised value, writes only
    into the array of the tags it was given, and leaves the avatars
    alone. *)
Lemma refine_normalizeAttributes h attrs h' clean :
  inBounds h attrs →
  mem.normalizeAttributes h attrs = (h', clean) →
  mem.valueOfAttributes h' clean
  = service.normalizeAttributes (mem.valueOfAttributes h attrs)
  ∧ mem.byteArrays h' = mem.byteArrays h
  ∧ length (mem.tagArrays h') = length (mem.tagArrays h)
  ∧ (∀ j, (∀ w, mem.Tags attrs = Some w → j ≠ mem.arr w) →
       mem.tagArrays h' !! j = mem.tagArrays h !! j).
Proof.
  destruct attrs as [n e p ad b tags avatar].
  unfold inBounds, mem.normalizeAttributes, service.normalizeAttributes,
    mem.valueOfAttributes, mem.tagsOf, mem.avatarOf. simpl.
  destruct tags as [w|]; [|by intros _ [= <- <-]].
  intros (a & Ha & Hlen). rewrite Ha. simpl.
  assert (length (take (mem.len w) (drop (mem.off w) a)) = mem.len w) as Hl.
  { rewrite length_take, length_drop. lia. }
  case_decide as Hpos.
  - destruct (mem.normalizeLoop a (mem.off w) 0 (mem.len w) 0)
      as [a' k'] eqn:Hloop.
    intros [= <- <-]. simpl.
    apply normalizeLoop_spec in Hloop as (H1 & H2 & H3 & H4); [|lia..].
    assert (mem.arr w < length (mem.tagArrays h))%nat as Harr
      by (by eapply lookup_lt_Some).
    rewrite list_lookup_insert_eq by done. simpl. rewrite Ha. simpl.
    rewrite Hl, decide_True by lia.
    split_and!; [|done|by rewrite length_insert|].
    + rewrite H2, take_0, Nat.add_0_r. done.
    + intros j Hj. rewrite list_lookup_insert_ne; [done|].
      intros Heq. by apply (Hj w eq_refl).
  - intros [= <- <-]. simpl. rewrite Ha. simpl.
    rewrite Hl, decide_False by lia. done.
Qed.

End normalize_in_place.

(** ** The service, value level against memory level *)

Section refinement_service.

Lemma validatePayload_valueOf h attrs :
  service.validatePayload (mem.valueOfAttributes h attrs)
  = mem.validatePayload attrs.
Proof. done. Qed.

(** Normalising attributes that are apart from the store leaves the
    value of the store as it is. *)
Lemma normalizeAttributes_store h s attrs h1 clean :
  mem.allocatedStore h s → inBounds h attrs → apart s attrs →
  mem.normalizeAttributes h attrs = (h1, clean) →
  mem.valueOfStore h1 s = mem.valueOfStore h s
  ∧ mem.allocatedStore h1 s.
Proof.
  intros Hs Hin Hapart Hnorm.
  apply refine_normalizeAttributes in Hnorm as (_ & Hb & Hlen & Hother);
    [|done].
  split.
  - unfold mem.valueOfStore. f_equal. apply map_fmap_ext. intros k u Hu.
    unfold mem.valueOfUser, mem.valueOfAttributes, mem.tagsOf, mem.avatarOf.
    rewrite Hb. do 2 f_equal.
    destruct (mem.Tags (mem.Attrs u)) as [w|] eqn:Hw; [|done]. simpl.
    rewrite Hother; [done|]. intros w' Hw'. by eapply Hapart.
  - intros k u Hu. destruct (Hs k u Hu) as [Ht Ha]. split.
    + destruct (mem.Tags (mem.Attrs u)); [|done]. simpl in *. by rewrite Hlen.
    + by rewrite Hb.
Qed.

Lemma refine_service_Create h s attrs h' s' r :
  mem.allocatedStore h s → inBounds h attrs → apart s attrs →
  mem.service_Create h s attrs = (h', s', r) →
  service.Create (mem.valueOfStore h s) (mem.valueOfAttributes h attrs)
  = (mem.valueOfStore h' s', (mem.valueOfUser h' r.1, r.2)).
Proof.
  intros Hs Hin Hapart. unfold mem.service_Create, service.Create.
  destruct (mem.normalizeAttributes h attrs) as [h1 clean] eqn:Hnorm.
  destruct (normalizeAttributes_store _ _ _ _ _ Hs Hin Hapart Hnorm)
    as [Hstore Halloc].
  apply refine_normalizeAttributes in Hnorm as (Hval & _); [|done].
  rewrite <-Hval, validatePayload_valueOf.
  destruct (mem.validatePayload clean) as [err|].
  - intros [= <- <- <-]. by rewrite Hstore.
  - destruct (mem.Create h1 s clean) as [[h2 s2] u] eqn:Hcreate.
    intros [= <- <- <-].
    apply refine_Create in Hcreate as [Hcreate _]; [|done].
    by rewrite <-Hstore, Hcreate.
Qed.

Lemma refine_service_Update h s id attrs h' s' r :
  mem.allocatedStore h s → inBounds h attrs → apart s attrs →
  mem.service_Update h s id attrs = (h', s', r) →
  service.Update (mem.valueOfStore h s) id (mem.valueOfAttributes h attrs)
  = (mem.valueOfStore h' s', (mem.valueOfUser h' r.1, r.2)).
Proof.
  intros Hs Hin Hapart. unfold mem.service_Update, service.Update.
  destruct (service.validateIdentifier id) as [err|].
  { by intros [= <- <- <-]. }
  destruct (mem.normalizeAttributes h attrs) as [h1 clean] eqn:Hnorm.
  destruct (normalizeAttributes_store _ _ _ _ _ Hs Hin Hapart Hnorm)
    as [Hstore Halloc].
  apply refine_normalizeAttributes in Hnorm as (Hval & _); [|done].
  rewrite <-Hval, validatePayload_valueOf.
  destruct (mem.validatePayload clean) as [err|].
  - intros [= <- <- <-]. by rewrite Hstore.
  - destruct (mem.Update h1 s id clean) as [[h2 s2] [u err]] eqn:Hupdate.
    apply refine_Update in Hupdate as [Hupdate _]; [|done].
    rewrite <-Hstore, Hupdate. simpl.
    destruct err; by intros [= <- <- <-].
Qed.

Lemma refine_service_Get h s id :
  service.Get (mem.valueOfStore h s) id
  = (mem.valueOfUser h (mem.service_Get s id).1, (mem.service_Get s id).2).
Proof.
  unfold service.Get, mem.service_Get.
  destruct (service.validateIdentifier id); [done|].
  rewrite refine_Get. by destruct (mem.Get s id) as [u []].
Qed.

End refinement_service.

(** ** Worked examples *)

(** The scenario of the design document: two creations get ["1"] and
    ["2"], the listing has them in that order, and after deleting ["1"] it
    is not found and the listing has ["2"] alone. *)
Example directory_scenario :
  let '(s1, r1) := service.Create NewStore ada in
  let '(s2, r2) := service.Create s1 grace in
  let '(s3, r3) := service.Delete s2 "1" in
  r1 = (mkUser "1" ada, None)
  ∧ r2 = (mkUser "2" grace, None)
  ∧ service.List s2 = Some [mkUser "1" ada; mkUser "2" grace]
  ∧ (user.Delete s2 "1").2 = true
  ∧ r3 = None
  ∧ service.Get s3 "1" = (zeroUser, Some ErrNotFound)
  ∧ service.List s3 = Some [mkUser "2" grace].
Proof. vm_compute. by repeat split. Qed.

(** Identifiers are compared as strings: with ten records the listing
    has ["10"] between ["1"] and ["2"]. *)
Example listing_of_ten_records :
  ID <$> elems (List (after (replicate 10 (CallCreate ada))))
  = ["1"; "10"; "2"; "3"; "4"; "5"; "6"; "7"; "8"; "9"].
Proof. by vm_compute. Qed.

(** The counter wraps around at the end of [int64]: the identifier
    after ["9223372036854775807"] is negative. *)
Example counter_wraps_around :
  ID (Create (mkStore ∅ maxInt64) ada).2 = "-9223372036854775808".
Proof. by vm_compute. Qed.

(** [live] on the sample history: ["1"] was deleted, ["2"] and ["3"]
    are live, ["4"] was never created. *)
Example sample_live :
  live "1" sampleCalls = false ∧ live "2" sampleCalls = true
  ∧ live "3" sampleCalls = true ∧ live "4" sampleCalls = false.
Proof. by vm_compute. Qed.

(** In-place normalisation writes the kept tags to the front of the
    caller's array. *)
Example normalize_in_place_sample :
  let h := mem.mkHeap [[" maths "; "   "; "engine"]] [] in
  let attrs := mem.mkAttributes "Ada" "ada@example.com" "" "" ""
                 (Some (mem.mkWindow 0 0 3)) None in
  let '(h', clean) := mem.normalizeAttributes h attrs in
  mem.tagArrays h' = [["maths"; "engine"; "engine"]]
  ∧ mem.Tags clean = Some (mem.mkWindow 0 0 2)
  ∧ mem.tagsOf h' clean = ["maths"; "engine"].
Proof. by vm_compute. Qed.

Lemma whiteSpaceOnly_one_space : whiteSpaceOnly " ".
Proof. apply (ws_cons " " ""); [by apply space_ascii|apply ws_nil]. Defined.

(** C4 applies: the record ["1"] and the identifier [" 1 "]. *)
Lemma identifier_looked_up_as_given_trimmed_by_grpc_witness :
  users (after [CallCreate ada]) !! "1" = Some (mkUser "1" ada)
  ∧ whiteSpaceOnly " "
  ∧ service.GetUser (after [CallCreate ada]) " 1 "
    = (Some (service.toProto (mkUser "1" ada)), None).
Proof.
  assert (users (after [CallCreate ada]) !! "1" = Some (mkUser "1" ada))
    as Hu by (vm_compute; reflexivity).
  split; [exact Hu|]. split; [exact whiteSpaceOnly_one_space|].
  exact (proj1 (proj2 (proj2 (proj2
    (identifier_looked_up_as_given_trimmed_by_grpc [CallCreate ada] "1"
       (mkUser "1" ada) " " " " Hu whiteSpaceOnly_one_space
       whiteSpaceOnly_one_space))))).
Defined.

(** C1 as stated fails when identifiers are ordered as [Create] mints
    them, by the numbers they spell: after ten creations [List] puts the
    record ["10"] before the record ["2"]. *)
Lemma List_not_ascending_by_number :
  ID <$> elems (List (after (replicate 10 (CallCreate ada))))
  = ["1"; "10"; "2"; "3"; "4"; "5"; "6"; "7"; "8"; "9"]
  ∧ ¬ StronglySorted numberLt
        (elems (List (after (replicate 10 (CallCreate ada))))).
Proof.
  assert (elems (List (after (replicate 10 (CallCreate ada))))
          = (λ id, mkUser id ada)
            <$> ["1"; "10"; "2"; "3"; "4"; "5"; "6"; "7"; "8"; "9"]) as ->
    by (vm_compute; reflexivity).
  split; [reflexivity|]. intros H.
  apply StronglySorted_inv in H as [H _].
  apply StronglySorted_inv in H as [_ H].
  apply Forall_inv in H as (x & y & Hx & Hy & Hlt).
  apply (FormatInt_inj 10 x) in Hx. apply (FormatInt_inj 2 y) in Hy. lia.
Qed.

(** C1 applies: the records of the sparse store visited in the order
    of their creation, ["2"], ["9"], ["10"], are listed in the order of
    their identifiers as strings, ["10"], ["2"], ["9"]. *)
Lemma List_sorted_by_identifier_witness :
  rangeOrder (after sparseCalls) sparseVisit
  ∧ ¬ StronglySorted idLt sparseVisit
  ∧ ID <$> elems (List_visiting (after sparseCalls) sparseVisit)
    = ["10"; "2"; "9"]
  ∧ StronglySorted idLt
      (elems (List_visiting (after sparseCalls) sparseVisit)).
Proof.
  assert (rangeOrder (after sparseCalls) sparseVisit) as Hv.
  { unfold rangeOrder. vm_compute. apply Permutation_cons_append. }
  split; [exact Hv|]. split.
  { intros H. apply StronglySorted_inv in H as [_ H].
    apply Forall_inv_tail, Forall_inv in H. vm_compute in H.
    discriminate H. }
  split; [vm_compute; reflexivity|].
  exact (proj1 (List_sorted_by_identifier sparseCalls sparseVisit Hv)).
Defined.

(** C10 applies: the second creation of the sample history. *)
Lemma nth_create_gets_numeral_n_witness :
  ∃ u, created (run NewStore sampleCalls).2 !! 1%nat = Some u
       ∧ ID u = FormatInt 2.
Proof.
  exists (mkUser "2" grace).
  assert (created (run NewStore sampleCalls).2 !! 1%nat
          = Some (mkUser "2" grace)) as Hu by (vm_compute; reflexivity).
  split; [exact Hu|].
  refine (proj1 (nth_create_gets_numeral_n sampleCalls 2 _ _ _ Hu)).
  - lia.
  - vm_compute. discriminate.
Defined.

(** C2 applies: the first and the third creation of the sample
    history. *)
Lemma created_ids_unique_and_increasing_witness :
  created (run NewStore sampleCalls).2 !! 0%nat = Some (mkUser "1" ada)
  ∧ created (run NewStore sampleCalls).2 !! 2%nat
    = Some (mkUser "3" (cloneAttributes adaRaw))
  ∧ ID (mkUser "1" ada) ≠ ID (mkUser "3" (cloneAttributes adaRaw)).
Proof.
  assert (created (run NewStore sampleCalls).2 !! 0%nat
          = Some (mkUser "1" ada)) as H1 by (vm_compute; reflexivity).
  assert (created (run NewStore sampleCalls).2 !! 2%nat
          = Some (mkUser "3" (cloneAttributes adaRaw))) as H3
    by (vm_compute; reflexivity).
  split; [exact H1|]. split; [exact H3|].
  refine (proj1 (created_ids_unique_and_increasing sampleCalls 0 2
                   (mkUser "1" ada) (mkUser "3" (cloneAttributes adaRaw))
                   H1 H3 _ _)).
  - lia.
  - vm_compute. reflexivity.
Defined.

(** C3 applies: [adaRaw] passes validation once normalised. *)
Lemma create_then_get_returns_normalized_witness :
  service.validatePayload (service.normalizeAttributes adaRaw) = None
  ∧ ∃ s' u, service.Create NewStore adaRaw = (s', (u, None))
            ∧ service.Get s' (ID u) = (u, None)
            ∧ elems (Tags (Attrs u)) = ["maths"; "engine"].
Proof.
  assert (service.validatePayload (service.normalizeAttributes adaRaw) = None)
    as Hvalid by (vm_compute; reflexivity).
  split; [exact Hvalid|].
  destruct (create_then_get_returns_normalized NewStore adaRaw Hvalid)
    as (s' & u & Hc & Hg & _ & _ & _ & _ & _ & _ & Ht & _).
  exists s', u. split; [exact Hc|]. split; [exact Hg|].
  rewrite Ht. vm_compute. reflexivity.
Defined.

(** ** The shutdown of the server *)

Section shutdown_of_the_server.


End shutdown_of_the_server.




(** * Further properties of the code *)

(** ** The store: fresh identifiers and the number of records *)

Section fresh_identifiers.

Lemma mintedUpTo_weaken n m s k u :
  mintedUpTo n s → n ≤ m → users s !! k = Some u →
  ∃ z, 1 ≤ z ≤ m ∧ k = FormatInt z.
Proof.
  intros [_ Hs] Hnm Hk. destruct (Hs k u Hk) as (z & Hz & ->).
  exists z. split; [lia|done].
Qed.

(** With the counter at [n] below the end of [int64], the identifier
    that [Create] is about to mint is not in the map. *)
Lemma mintedUpTo_fresh n s :
  mintedUpTo n s → 0 ≤ n < maxInt64 →
  users s !! FormatInt (wrap64 (nextID s + 1)) = None.
Proof.
  intros [Hn Hs] Hb. rewrite Hn, wrap64_in_range by (unfold maxInt64 in *; lia).
  destruct (users s !! FormatInt (n + 1)) as [u|] eqn:Hu; [|done].
  destruct (Hs _ _ Hu) as (z & Hz & Heq%FormatInt_inj). lia.
Qed.

Lemma mintedUpTo_step n s c :
  mintedUpTo n s → 0 ≤ n →
  n + (if isCreate c then 1 else 0) ≤ maxInt64 →
  mintedUpTo (n + (if isCreate c then 1 else 0)) (step s c).1.
Proof.
  intros Hs Hn Hb. pose proof Hs as [Hnext Hkeys].
  destruct c as [attrs|id attrs|id|id|]; simpl in *;
    rewrite ?Z.add_0_r; try done.
  - split; simpl.
    + rewrite Hnext. apply wrap64_in_range. unfold maxInt64 in *. lia.
    + rewrite Hnext, wrap64_in_range by (unfold maxInt64 in *; lia).
      apply map_Forall_insert_2.
      * exists (n + 1). split; [lia|done].
      * intros k u Hk. by eapply mintedUpTo_weaken; [done|lia|done].
  - unfold Update. destruct (users s !! id) as [old|] eqn:Hold; [|done].
    split; [done|]. simpl. apply map_Forall_insert_2; [|done].
    by apply (Hkeys id old).
  - unfold Delete. destruct (users s !! id) as [old|] eqn:Hold; [|done].
    split; [done|]. simpl. by apply map_Forall_delete.
Qed.

Lemma countCreates_step c cs :
  Z.of_nat (countCreates (c :: cs))
  = (if isCreate c then 1 else 0) + Z.of_nat (countCreates cs).
Proof. simpl. destruct (isCreate c); lia. Qed.

Lemma mintedUpTo_run cs : ∀ s n,
  mintedUpTo n s → 0 ≤ n →
  n + Z.of_nat (countCreates cs) ≤ maxInt64 →
  mintedUpTo (n + Z.of_nat (countCreates cs)) (run s cs).1.
Proof.
  induction cs as [|c cs IH]; intros s n Hs Hn Hb.
  { simpl. by rewrite Z.add_0_r. }
  rewrite countCreates_step in *. simpl.
  assert (mintedUpTo (n + (if isCreate c then 1 else 0)) (step s c).1) as H1.
  { apply mintedUpTo_step; [done..|]. destruct (isCreate c); lia. }
  destruct (step s c) as [s1 r]. simpl in H1.
  apply IH in H1; [|destruct (isCreate c); lia..].
  destruct (run s1 cs) as [s2 rs]. simpl in *.
  by rewrite Z.add_assoc.
Qed.

Lemma mintedUpTo_after cs :
  Z.of_nat (countCreates cs) ≤ maxInt64 →
  mintedUpTo (Z.of_nat (countCreates cs)) (after cs).
Proof.
  intros Hb. apply (mintedUpTo_run cs NewStore 0); [|done|done].
  split; [done|]. apply map_Forall_empty.
Qed.

(** The records of a store, less those removed, are those created. *)
Lemma size_run cs : ∀ s n,
  mintedUpTo n s → 0 ≤ n →
  n + Z.of_nat (countCreates cs) ≤ maxInt64 →
  (size (users (run s cs).1) + countRemoved (run s cs).2
   = size (users s) + countCreates cs)%nat.
Proof.
  induction cs as [|c cs IH]; intros s n Hs Hn Hb; [simpl; lia|].
  rewrite countCreates_step in Hb.
  assert (mintedUpTo (n + (if isCreate c then 1 else 0)) (step s c).1) as H1.
  { apply mintedUpTo_step; [done..|]. destruct (isCreate c); lia. }
  assert (users s !! FormatInt (wrap64 (nextID s + 1)) = None
          ∨ isCreate c = false) as Hfresh.
  { destruct (isCreate c) eqn:Hc; [left|by right].
    apply (mintedUpTo_fresh n); [done|lia]. }
  simpl. destruct (step s c) as [s1 r] eqn:Hstep. simpl in H1.
  specialize (IH s1 _ H1). destruct (run s1 cs) as [s2 rs]. simpl in *.
  assert (size (users s2) + countRemoved rs
          = size (users s1) + countCreates cs)%nat as Hrest.
  { apply IH; destruct (isCreate c); lia. }
  destruct c as [attrs|id attrs|id|id|]; simpl in Hstep.
  - injection Hstep as <- <-. simpl in *.
    destruct Hfresh as [Hfresh|]; [|done].
    rewrite map_size_insert_None in Hrest by done. lia.
  - unfold Update in Hstep. destruct (users s !! id) as [old|] eqn:Hold;
      injection Hstep as <- <-; simpl in *; [|lia].
    rewrite map_size_insert_Some in Hrest by done. lia.
  - injection Hstep as <- <-. simpl. lia.
  - unfold Delete in Hstep. destruct (users s !! id) as [old|] eqn:Hold;
      injection Hstep as <- <-; simpl in *; [|lia].
    assert (size (delete id (users s)) = pred (size (users s))) as Hdel
      by (by apply map_size_delete_Some).
    assert (size (users s) ≠ 0%nat).
    { intros H0%map_size_empty_iff. by rewrite H0 in Hold. }
    lia.
  - injection Hstep as <- <-. simpl. lia.
Qed.

Lemma List_length s : length (elems (List s)) = size (users s).
Proof.
  unfold List. rewrite List_visiting_elems by apply rangeOrder_canonical.
  by rewrite Slice_Permutation, length_fmap, length_map_to_list.
Qed.

End fresh_identifiers.

(** X1.  While fewer than 2^63 - 1 records have been created, [Create]
    mints an identifier that no stored record has: it adds one record and
    leaves every stored record as it is. *)
Theorem Create_never_overwrites (cs : list call) (attrs : Attributes) :
  Z.of_nat (countCreates cs) < maxInt64 →
  users (after cs) !! ID (Create (after cs) attrs).2 = None
  ∧ size (users (Create (after cs) attrs).1) = S (size (users (after cs)))
  ∧ (∀ id u, users (after cs) !! id = Some u →
       users (Create (after cs) attrs).1 !! id = Some u).
Proof.
  intros Hb.
  assert (users (after cs) !! ID (Create (after cs) attrs).2 = None) as Hfresh.
  { apply (mintedUpTo_fresh (Z.of_nat (countCreates cs))); [|lia].
    apply mintedUpTo_after. lia. }
  split_and!; [done| |].
  - simpl in *. by rewrite map_size_insert_None.
  - intros id u Hu. simpl in *. rewrite lookup_insert_ne; [done|].
    intros Heq. rewrite Heq in Hfresh. congruence.
Qed.

(** X2.  After any history with at most 2^63 - 1 creations, the store
    holds as many records as were created, less the deletions that
    answered [true]; [List] returns that many records. *)
Theorem store_size_is_created_less_removed (cs : list call) :
  Z.of_nat (countCreates cs) ≤ maxInt64 →
  (size (users (after cs)) + countRemoved (run NewStore cs).2
   = countCreates cs)%nat
  ∧ length (elems (List (after cs))) = size (users (after cs)).
Proof.
  intros Hb. split; [|apply List_length].
  pose proof (size_run cs NewStore 0) as H. simpl in H.
  rewrite map_size_empty in H. apply H; [|done|done].
  split; [done|]. apply map_Forall_empty.
Qed.

(** X3.  After any history, [Get] finds a record under an identifier,
    and [List] has a record with that identifier, exactly when the
    identifier was returned by a [Create] and not deleted since; the record
    found carries the identifier it was asked for. *)
Theorem record_readable_iff_live (cs : list call) (id : string) :
  ((Get (after cs) id).2 = true ↔ live id cs = true)
  ∧ (id ∈ ID <$> elems (List (after cs)) ↔ live id cs = true)
  ∧ ((Get (after cs) id).2 = true → ID (Get (after cs) id).1 = id).
Proof.
  pose proof (keyed_after cs) as Hk.
  split_and!.
  - rewrite live_iff_stored. unfold Get.
    destruct (users (after cs) !! id); simpl.
    + split; [by eexists|done].
    + split; [done|by intros [??]].
  - rewrite live_iff_stored. unfold List.
    rewrite List_visiting_elems by apply rangeOrder_canonical.
    rewrite Slice_Permutation, keyed_ids by done.
    rewrite list_elem_of_fmap. split.
    + intros [[k u] [-> Hku%elem_of_map_to_list]]. by eexists.
    + intros [u Hu]. exists (id, u). split; [done|].
      by apply elem_of_map_to_list.
  - unfold Get. destruct (users (after cs) !! id) as [u|] eqn:Hu; [|done].
    intros _. simpl. by apply (Hk id u).
Qed.

Lemma Create_never_overwrites_witness :
  Z.of_nat (countCreates sampleCalls) < maxInt64
  ∧ users (after sampleCalls) !! ID (Create (after sampleCalls) ada).2 = None.
Proof.
  assert (Z.of_nat (countCreates sampleCalls) < maxInt64) as Hb
    by (vm_compute; reflexivity).
  split; [exact Hb|].
  exact (proj1 (Create_never_overwrites sampleCalls ada Hb)).
Defined.

Lemma store_size_is_created_less_removed_witness :
  Z.of_nat (countCreates sampleCalls) ≤ maxInt64
  ∧ (size (users (after sampleCalls))
     + countRemoved (run NewStore sampleCalls).2
     = countCreates sampleCalls)%nat.
Proof.
  assert (Z.of_nat (countCreates sampleCalls) ≤ maxInt64) as Hb
    by (vm_compute; discriminate).
  split; [exact Hb|].
  exact (proj1 (store_size_is_created_less_removed sampleCalls Hb)).
Defined.

(** ** Trimming twice *)

Section trim_twice.

Lemma length_append s1 s2 :
  String.length (s1 +:+ s2) = (String.length s1 + String.length s2)%nat.
Proof.
  induction s1 as [|c s1 IH]; [done|].
  change (S (String.length (s1 +:+ s2))
          = S (String.length s1 + String.length s2)). by rewrite IH.
Qed.

Lemma spaceRune_length r : spaceRune r → (1 ≤ String.length r)%nat.
Proof. intros [c Hc|c1 c2 H2|c1 c2 c3 H3]; simpl; lia. Qed.

Lemma trimLeft_length s : (String.length (trimLeft s) ≤ String.length s)%nat.
Proof.
  induction s as [|c1 r1 IH1 IH2 IH3] using string_ind3; [done|].
  simpl. destruct (asciiSpace c1); [lia|].
  destruct r1 as [|c2 r2]; [done|].
  destruct (space2 c1 c2).
  { specialize (IH2 c2 r2 eq_refl). simpl. lia. }
  destruct r2 as [|c3 r3]; [done|].
  destruct (space3 c1 c2 c3); [|done].
  specialize (IH3 c2 c3 r3 eq_refl). simpl. lia.
Qed.

(** A string is left alone by [trimLeft] or starts with a white-space
    rune. *)
Lemma trimLeft_fixed_or_rune s :
  trimLeft s = s ∨ ∃ p s', spaceRune p ∧ s = p +:+ s'.
Proof.
  destruct s as [|c1 r1]; [by left|]. simpl.
  destruct (asciiSpace c1) eqn:H1.
  { right. exists (String c1 ""), r1. split; [by constructor|done]. }
  destruct r1 as [|c2 r2]; [by left|].
  destruct (space2 c1 c2) eqn:H2.
  { right. exists (String c1 (String c2 "")), r2.
    split; [by constructor|done]. }
  destruct r2 as [|c3 r3]; [by left|].
  destruct (space3 c1 c2 c3) eqn:H3; [|by left].
  right. exists (String c1 (String c2 (String c3 ""))), r3.
  split; [by constructor|done].
Qed.

(** What [trimLeft] leaves alone, it leaves alone with its end cut
    off. *)
Lemma trimLeft_fixed_prefix u w : trimLeft (u +:+ w) = u +:+ w → trimLeft u = u.
Proof.
  intros Hfix. destruct (trimLeft_fixed_or_rune u) as [|(p & u' & Hp & ->)];
    [done|].
  rewrite append_assoc, trimLeft_spaceRune in Hfix by done.
  pose proof (trimLeft_length (u' +:+ w)) as Hlen.
  rewrite Hfix, !length_append in Hlen.
  apply spaceRune_length in Hp. lia.
Qed.

(** [trimLeftRev] cuts a piece off the front of its argument. *)
Lemma trimLeftRev_suffix s : ∃ w, s = w +:+ trimLeftRev s.
Proof.
  induction s as [|c1 r1 IH1 IH2 IH3] using string_ind3; [by exists ""|].
  simpl. destruct (asciiSpace c1).
  { destruct IH1 as [w Hw]. exists (String c1 w).
    change (String c1 r1 = String c1 (w +:+ trimLeftRev r1)). by rewrite <-Hw. }
  destruct r1 as [|c2 r2]; [by exists ""|].
  destruct (space2 c2 c1).
  { destruct (IH2 c2 r2 eq_refl) as [w Hw]. exists (String c1 (String c2 w)).
    change (String c1 (String c2 r2)
            = String c1 (String c2 (w +:+ trimLeftRev r2))). by rewrite <-Hw. }
  destruct r2 as [|c3 r3]; [by exists ""|].
  destruct (space3 c3 c2 c1); [|by exists ""].
  destruct (IH3 c2 c3 r3 eq_refl) as [w Hw].
  exists (String c1 (String c2 (String c3 w))).
  change (String c1 (String c2 (String c3 r3))
          = String c1 (String c2 (String c3 (w +:+ trimLeftRev r3)))).
  by rewrite <-Hw.
Qed.

Lemma trimRight_prefix s : ∃ w, s = trimRight s +:+ w.
Proof.
  destruct (trimLeftRev_suffix (String.rev s)) as [w Hw].
  exists (String.rev w). unfold trimRight.
  by rewrite <-rev_append, <-Hw, rev_rev.
Qed.

Lemma trimLeftRev_idemp s : trimLeftRev (trimLeftRev s) = trimLeftRev s.
Proof.
  induction s as [|c1 r1 IH1 IH2 IH3] using string_ind3; [done|].
  assert (trimLeftRev (String c1 r1) = trimLeftRev r1
          ∨ (∃ c2 r2, r1 = String c2 r2
               ∧ trimLeftRev (String c1 r1) = trimLeftRev r2)
          ∨ (∃ c2 c3 r3, r1 = String c2 (String c3 r3)
               ∧ trimLeftRev (String c1 r1) = trimLeftRev r3)
          ∨ trimLeftRev (String c1 r1) = String c1 r1) as Hcases.
  { simpl. destruct (asciiSpace c1); [by left|].
    destruct r1 as [|c2 r2]; [by do 3 right|].
    destruct (space2 c2 c1); [right; left; by eexists _, _|].
    destruct r2 as [|c3 r3]; [by do 3 right|].
    destruct (space3 c3 c2 c1); [|by do 3 right].
    right; right; left. by eexists _, _, _. }
  destruct Hcases as [->|[(c2 & r2 & -> & ->)|[(c2 & c3 & r3 & -> & ->)|Hs]]].
  - done.
  - by eapply IH2.
  - by eapply IH3.
  - by rewrite !Hs.
Qed.

Lemma trimRight_idemp s : trimRight (trimRight s) = trimRight s.
Proof. unfold trimRight. by rewrite rev_rev, trimLeftRev_idemp. Qed.

(** Trimming a trimmed string changes nothing. *)
Lemma TrimSpace_idemp s : TrimSpace (TrimSpace s) = TrimSpace s.
Proof.
  unfold TrimSpace.
  assert (trimLeft (trimRight (trimLeft s)) = trimRight (trimLeft s)) as ->.
  { destruct (trimRight_prefix (trimLeft s)) as [w Hw].
    apply (trimLeft_fixed_prefix _ w). by rewrite <-Hw, trimLeft_idemp. }
  apply trimRight_idemp.
Qed.

End trim_twice.

(** ** The two transports *)

Section transports.

Lemma validateIdentifier_TrimSpace id :
  service.validateIdentifier (TrimSpace id) = service.validateIdentifier id.
Proof. unfold service.validateIdentifier. by rewrite TrimSpace_idemp. Qed.

Lemma serviceError_invalidInput detail :
  service.serviceError (invalidInput detail)
  = service.mkStatus service.InvalidArgument ("invalid user input" +:+ detail).
Proof. reflexivity. Qed.

Lemma serviceError_NotFound :
  service.serviceError ErrNotFound
  = service.mkStatus service.NotFound "user not found".
Proof. reflexivity. Qed.

(** [handleError] and [serviceError] sort every error alike. *)
Lemma handleError_serviceError err :
  httptransport.handleError err
  = httptransport.mkResponse
      (httpStatusOf (service.Code (service.serviceError err)))
      (httptransport.ErrorBody (service.Message (service.serviceError err))).
Proof.
  unfold httptransport.handleError, service.serviceError.
  destruct (errors_Is err service.ErrInvalidInput); [done|].
  by destruct (errors_Is err ErrNotFound).
Qed.

Lemma validatePayload_serviceErr attrs err :
  service.validatePayload attrs = Some err → ∃ detail, err = invalidInput detail.
Proof.
  unfold service.validatePayload. case_decide; [intros [= <-]; by eexists|].
  destruct (_ || _); [intros [= <-]; by eexists|done].
Qed.

Lemma validateIdentifier_serviceErr id err :
  service.validateIdentifier id = Some err →
  err = invalidInput ": id is required".
Proof.
  unfold service.validateIdentifier. case_decide; [by intros [= <-]|done].
Qed.

Lemma Create_serviceErr s attrs err :
  (service.Create s attrs).2.2 = Some err →
  (∃ detail, err = invalidInput detail) ∧ (service.Create s attrs).1 = s.
Proof.
  unfold service.Create.
  destruct (service.validatePayload _) as [e|] eqn:Hv; simpl.
  - intros [= <-]. split; [by eapply validatePayload_serviceErr|done].
  - done.
Qed.

Lemma Get_serviceErr s id err :
  (service.Get s id).2 = Some err → serviceErr err.
Proof.
  unfold service.Get.
  destruct (service.validateIdentifier id) as [e|] eqn:Hv; simpl.
  - intros [= <-]. left. apply validateIdentifier_serviceErr in Hv. by eexists.
  - destruct (Get s id) as [u []]; simpl; [done|]. intros [= <-]. by right.
Qed.

Lemma Delete_serviceErr s id err :
  (service.Delete s id).2 = Some err →
  serviceErr err ∧ (service.Delete s id).1 = s.
Proof.
  unfold service.Delete.
  destruct (service.validateIdentifier id) as [e|] eqn:Hv; simpl.
  - intros [= <-]. split; [|done]. left.
    apply validateIdentifier_serviceErr in Hv. by eexists.
  - unfold Delete. destruct (users s !! id); simpl; [done|].
    intros [= <-]. split; [by right|done].
Qed.

Lemma Update_serviceErr s id attrs err :
  (service.Update s id attrs).2.2 = Some err →
  serviceErr err ∧ (service.Update s id attrs).1 = s.
Proof.
  unfold service.Update.
  destruct (service.validateIdentifier id) as [e|] eqn:Hv; simpl.
  { intros [= <-]. split; [|done]. left.
    apply validateIdentifier_serviceErr in Hv. by eexists. }
  destruct (service.validatePayload _) as [e|] eqn:Hp; simpl.
  { intros [= <-]. split; [|done]. left.
    by eapply validatePayload_serviceErr. }
  unfold Update. destruct (users s !! id); simpl; [done|].
  intros [= <-]. split; [by right|done].
Qed.

Lemma serviceErr_code err :
  serviceErr err →
  service.Code (service.serviceError err) ≠ service.Internal
  ∧ service.Message (service.serviceError err) = Error_text err.
Proof. by intros [[detail ->]| ->]. Qed.

(** The fields sent over gRPC and the same fields decoded from JSON
    make the same record. *)
Lemma clone_protoToAttributes n e p a b t v :
  cloneAttributes
    (service.normalizeAttributes (service.protoToAttributes n e p a b t v))
  = cloneAttributes (service.normalizeAttributes (mkAttributes n e p a b t v)).
Proof.
  unfold service.normalizeAttributes, service.protoToAttributes,
    cloneAttributes.
  destruct t as [[|t0 t]|], v as [[|v0 v]|]; simpl;
    repeat case_decide; simpl in *; try lia; reflexivity.
Qed.

Lemma Create_protoToAttributes s n e p a b t v :
  service.Create s (service.protoToAttributes n e p a b t v)
  = service.Create s (mkAttributes n e p a b t v).
Proof.
  unfold service.Create.
  assert (service.validatePayload
            (service.normalizeAttributes (service.protoToAttributes n e p a b t v))
          = service.validatePayload
              (service.normalizeAttributes (mkAttributes n e p a b t v))) as ->
    by done.
  destruct (service.validatePayload _); [done|].
  unfold Create. by rewrite clone_protoToAttributes.
Qed.

Lemma Update_protoToAttributes s id n e p a b t v :
  service.Update s id (service.protoToAttributes n e p a b t v)
  = service.Update s id (mkAttributes n e p a b t v).
Proof.
  unfold service.Update.
  destruct (service.validateIdentifier id); [done|].
  assert (service.validatePayload
            (service.normalizeAttributes (service.protoToAttributes n e p a b t v))
          = service.validatePayload
              (service.normalizeAttributes (mkAttributes n e p a b t v))) as ->
    by done.
  destruct (service.validatePayload _); [done|].
  unfold Update. by rewrite clone_protoToAttributes.
Qed.

Lemma elem_of_List s u :
  u ∈ elems (List s) ↔ ∃ k, users s !! k = Some u.
Proof.
  unfold List. rewrite List_visiting_elems by apply rangeOrder_canonical.
  rewrite Slice_Permutation, list_elem_of_fmap. split.
  - intros ([k u'] & -> & H%elem_of_map_to_list). by exists k.
  - intros [k H]. exists (k, u). by rewrite elem_of_map_to_list.
Qed.

End transports.

(** X4.  A gRPC method that fails answers with the code [InvalidArgument]
    or [NotFound], never with [Internal] ([CreateUser] only with
    [InvalidArgument]); it returns no message and leaves the store as it
    was. *)
Theorem grpc_failure_is_never_internal (s : Store) (id n e p a b : string)
    (t : slice string) (v : slice ascii) :
  (∀ st, (service.CreateUser s n e p a b t v).2.2 = Some st →
     service.Code st = service.InvalidArgument
     ∧ (service.CreateUser s n e p a b t v).2.1 = None
     ∧ (service.CreateUser s n e p a b t v).1 = s)
  ∧ (∀ st, (service.GetUser s id).2 = Some st →
       service.Code st ≠ service.Internal ∧ (service.GetUser s id).1 = None)
  ∧ (∀ st, (service.UpdateUser s id n e p a b t v).2.2 = Some st →
       service.Code st ≠ service.Internal
       ∧ (service.UpdateUser s id n e p a b t v).2.1 = None
       ∧ (service.UpdateUser s id n e p a b t v).1 = s)
  ∧ (∀ st, (service.DeleteUser s id).2.2 = Some st →
       service.Code st ≠ service.Internal
       ∧ (service.DeleteUser s id).2.1 = false
       ∧ (service.DeleteUser s id).1 = s).
Proof.
  split_and!; intros st.
  - unfold service.CreateUser.
    pose proof (Create_serviceErr s (service.protoToAttributes n e p a b t v))
      as H.
    destruct (service.Create _ _) as [s' [u [err|]]]; simpl in *; [|done].
    intros [= <-]. destruct (H err eq_refl) as [[detail ->] ->]. done.
  - unfold service.GetUser.
    pose proof (Get_serviceErr s (TrimSpace id)) as H.
    destruct (service.Get _ _) as [u [err|]]; simpl in *; [|done].
    intros [= <-]. split; [|done]. by apply serviceErr_code, H.
  - unfold service.UpdateUser.
    pose proof (Update_serviceErr s (TrimSpace id)
                  (service.protoToAttributes n e p a b t v)) as H.
    destruct (service.Update _ _ _) as [s' [u [err|]]]; simpl in *; [|done].
    intros [= <-]. destruct (H err eq_refl) as [Herr ->].
    split; [|done]. by apply serviceErr_code.
  - unfold service.DeleteUser.
    pose proof (Delete_serviceErr s (TrimSpace id)) as H.
    destruct (service.Delete _ _) as [s' [err|]]; simpl in *; [|done].
    intros [= <-]. destruct (H err eq_refl) as [Herr ->].
    split; [|done]. by apply serviceErr_code.
Qed.

(** X5.  An HTTP handler answers with its success status (201 for a
    creation, 200 for a read or an update, 204 for a deletion), with 400 or
    with 404, never with 500; a creation never answers 404; unless it
    answers with the success status, the store is as it was. *)
Theorem http_status_is_success_400_or_404 (s : Store) (id : string)
    (payload : option Attributes) :
  (httptransport.status (httptransport.createUser s payload).2 ∈ [201; 400]
   ∧ (httptransport.status (httptransport.createUser s payload).2 ≠ 201 →
      (httptransport.createUser s payload).1 = s))
  ∧ httptransport.status (httptransport.getUser s id) ∈ [200; 400; 404]
  ∧ (httptransport.status (httptransport.updateUser s id payload).2
       ∈ [200; 400; 404]
     ∧ (httptransport.status (httptransport.updateUser s id payload).2 ≠ 200 →
        (httptransport.updateUser s id payload).1 = s))
  ∧ (httptransport.status (httptransport.deleteUser s id).2 ∈ [204; 400; 404]
     ∧ (httptransport.status (httptransport.deleteUser s id).2 ≠ 204 →
        (httptransport.deleteUser s id).1 = s))
  ∧ httptransport.status (httptransport.listUsers s) = 200.
Proof.
  assert (∀ err, serviceErr err →
            httptransport.status (httptransport.handleError err) = 400
            ∨ httptransport.status (httptransport.handleError err) = 404)
    as Hcode.
  { intros err [[detail ->]| ->]; simpl; auto. }
  split_and!.
  - destruct payload as [attrs|]; simpl; [|by repeat constructor].
    pose proof (Create_serviceErr s attrs) as H.
    destruct (service.Create _ _) as [s' [u [err|]]]; simpl in *;
      [|by repeat constructor].
    destruct (H err eq_refl) as [[detail ->] _]. simpl. by repeat constructor.
  - destruct payload as [attrs|]; simpl; [|done].
    pose proof (Create_serviceErr s attrs) as H.
    destruct (service.Create _ _) as [s' [u [err|]]]; simpl in *; [|done].
    by destruct (H err eq_refl) as [_ ->].
  - unfold httptransport.getUser.
    pose proof (Get_serviceErr s id) as H.
    destruct (service.Get _ _) as [u [err|]]; simpl in *;
      [|by repeat constructor].
    destruct (Hcode err (H err eq_refl)) as [-> | ->]; by repeat constructor.
  - destruct payload as [attrs|]; simpl; [|by repeat constructor].
    pose proof (Update_serviceErr s id attrs) as H.
    destruct (service.Update _ _ _) as [s' [u [err|]]]; simpl in *;
      [|by repeat constructor].
    destruct (H err eq_refl) as [Herr _].
    destruct (Hcode err Herr) as [-> | ->]; by repeat constructor.
  - destruct payload as [attrs|]; simpl; [|done].
    pose proof (Update_serviceErr s id attrs) as H.
    destruct (service.Update _ _ _) as [s' [u [err|]]]; simpl in *; [|done].
    by destruct (H err eq_refl) as [_ ->].
  - unfold httptransport.deleteUser.
    pose proof (Delete_serviceErr s id) as H.
    destruct (service.Delete _ _) as [s' [err|]]; simpl in *;
      [|by repeat constructor].
    destruct (H err eq_refl) as [Herr _].
    destruct (Hcode err Herr) as [-> | ->]; by repeat constructor.
  - unfold httptransport.deleteUser.
    pose proof (Delete_serviceErr s id) as H.
    destruct (service.Delete _ _) as [s' [err|]]; simpl in *; [|done].
    by destruct (H err eq_refl) as [_ ->].
  - done.
Qed.

(** X6.  The two transports answer alike.  [handleError] gives every
    error the HTTP status that stands for the gRPC code [serviceError] gives
    it, with the same message.  A gRPC call and the HTTP call with the same
    fields, and with the identifier trimmed as the gRPC method trims it,
    leave the same store and give the same record or the same error; the
    gRPC listing is the HTTP listing, record by record. *)
Theorem http_and_grpc_answer_alike (s : Store) (id n e p a b : string)
    (t : slice string) (v : slice ascii) :
  let attrs := mkAttributes n e p a b t v in
  (∀ err,
     httptransport.handleError err
     = httptransport.mkResponse
         (httpStatusOf (service.Code (service.serviceError err)))
         (httptransport.ErrorBody
            (service.Message (service.serviceError err))))
  ∧ ((httptransport.createUser s (Some attrs)).1
       = (service.CreateUser s n e p a b t v).1
     ∧ sameAnswer 201 (httptransport.createUser s (Some attrs)).2
         (service.CreateUser s n e p a b t v).2)
  ∧ sameAnswer 200 (httptransport.getUser s (TrimSpace id))
      (service.GetUser s id)
  ∧ ((httptransport.updateUser s (TrimSpace id) (Some attrs)).1
       = (service.UpdateUser s id n e p a b t v).1
     ∧ sameAnswer 200
         (httptransport.updateUser s (TrimSpace id) (Some attrs)).2
         (service.UpdateUser s id n e p a b t v).2)
  ∧ ((httptransport.deleteUser s (TrimSpace id)).1
       = (service.DeleteUser s id).1
     ∧ (httptransport.deleteUser s (TrimSpace id)).2
       = match (service.DeleteUser s id).2.2 with
         | None => httptransport.mkResponse 204 httptransport.NoBody
         | Some st =>
             httptransport.mkResponse (httpStatusOf (service.Code st))
               (httptransport.ErrorBody (service.Message st))
         end)
  ∧ (∃ l, httptransport.listUsers s
          = httptransport.mkResponse 200 (httptransport.UsersBody l)
          ∧ service.ListUsers s = service.toProto <$> elems l).
Proof.
  intros attrs. split_and!.
  - apply handleError_serviceError.
  - unfold httptransport.createUser, service.CreateUser.
    rewrite Create_protoToAttributes. fold attrs.
    by destruct (service.Create s attrs) as [s' [u [err|]]].
  - unfold httptransport.createUser, service.CreateUser.
    rewrite Create_protoToAttributes. fold attrs.
    destruct (service.Create s attrs) as [s' [u [err|]]]; simpl.
    + apply handleError_serviceError.
    + by exists u.
  - unfold httptransport.getUser, service.GetUser.
    destruct (service.Get s (TrimSpace id)) as [u [err|]]; simpl.
    + apply handleError_serviceError.
    + by exists u.
  - unfold httptransport.updateUser, service.UpdateUser.
    rewrite Update_protoToAttributes. fold attrs.
    by destruct (service.Update s _ attrs) as [s' [u [err|]]].
  - unfold httptransport.updateUser, service.UpdateUser.
    rewrite Update_protoToAttributes. fold attrs.
    destruct (service.Update s _ attrs) as [s' [u [err|]]]; simpl.
    + apply handleError_serviceError.
    + by exists u.
  - unfold httptransport.deleteUser, service.DeleteUser.
    by destruct (service.Delete s (TrimSpace id)) as [s' [err|]].
  - unfold httptransport.deleteUser, service.DeleteUser.
    destruct (service.Delete s (TrimSpace id)) as [s' [err|]]; simpl; [|done].
    apply handleError_serviceError.
  - by exists (service.List s).
Qed.

(** ** Normalising what is already normal *)

Section write_back.

Lemma filter_trim_idemp (l : list string) :
  filter (λ tag, tag ≠ "")
    (TrimSpace <$> filter (λ tag, tag ≠ "") (TrimSpace <$> l))
  = filter (λ tag : string, tag ≠ "") (TrimSpace <$> l).
Proof.
  induction l as [|x l IH]; [done|]. rewrite fmap_cons, filter_cons.
  destruct (decide (TrimSpace x ≠ "")) as [Hx|Hx]; [|done].
  rewrite fmap_cons, TrimSpace_idemp, filter_cons.
  rewrite decide_True by done. by rewrite IH.
Qed.

Lemma normalizeAttributes_idemp attrs :
  service.normalizeAttributes (service.normalizeAttributes attrs)
  = service.normalizeAttributes attrs.
Proof.
  destruct attrs as [n e p a b [[|t0 t]|] v];
    unfold service.normalizeAttributes; simpl; rewrite !TrimSpace_idemp;
    [done| |done].
  f_equal. case_decide; [|done].
  f_equal. apply (filter_trim_idemp (t0 :: t)).
Qed.

Lemma cloneAttributes_fields attrs :
  cloneAttributes attrs
  = mkAttributes (Name attrs) (Email attrs) (Phone attrs) (Address attrs)
      (Bio attrs) (appendNil (elems (Tags attrs)))
      (appendNil (elems (Avatar attrs))).
Proof. by destruct attrs as [n e p a b [t|] [v|]]. Qed.

(** What the service stores for a bundle. *)
Lemma stored_form attrs :
  cloneAttributes (service.normalizeAttributes attrs)
  = mkAttributes (TrimSpace (Name attrs)) (TrimSpace (Email attrs))
      (TrimSpace (Phone attrs)) (TrimSpace (Address attrs))
      (TrimSpace (Bio attrs))
      (appendNil
         (filter (λ tag, tag ≠ "") (TrimSpace <$> elems (Tags attrs))))
      (appendNil (elems (Avatar attrs))).
Proof.
  by rewrite cloneAttributes_fields, normalizeAttributes_tags.
Qed.

(** The stored form of a bundle is its own stored form. *)
Lemma stored_form_fixed attrs :
  cloneAttributes
    (service.normalizeAttributes
       (cloneAttributes (service.normalizeAttributes attrs)))
  = cloneAttributes (service.normalizeAttributes attrs).
Proof.
  rewrite (stored_form (cloneAttributes _)), !stored_form. simpl.
  by rewrite !TrimSpace_idemp, !elems_appendNil, filter_trim_idemp.
Qed.

Lemma validatePayload_stored attrs :
  service.validatePayload
    (service.normalizeAttributes
       (cloneAttributes (service.normalizeAttributes attrs)))
  = service.validatePayload (service.normalizeAttributes attrs).
Proof.
  assert (∀ x y, Name x = Name y → Email x = Email y →
            service.validatePayload x = service.validatePayload y) as Hext.
  { intros x y Hn He. unfold service.validatePayload. by rewrite Hn, He. }
  apply Hext; rewrite stored_form; simpl; apply TrimSpace_idemp.
Qed.

Lemma Store_eta s : mkStore (users s) (nextID s) = s.
Proof. by destruct s. Qed.

(** At the level of values an update made twice is the update made
    once. *)
Lemma Update_idemp s id attrs :
  Update (Update s id attrs).1 id attrs = Update s id attrs.
Proof.
  unfold Update. destruct (users s !! id) as [old|] eqn:Hold; simpl.
  - by rewrite lookup_insert_eq, insert_insert_eq.
  - by rewrite Hold.
Qed.

Lemma service_Update_idemp s id attrs :
  service.Update (service.Update s id attrs).1 id attrs
  = service.Update s id attrs.
Proof.
  unfold service.Update.
  destruct (service.validateIdentifier id) as [err|]; simpl; [done|].
  destruct (service.validatePayload _) as [err|]; simpl; [done|].
  unfold Update. destruct (users s !! id) as [old|] eqn:Hold; simpl.
  - by rewrite lookup_insert_eq, insert_insert_eq.
  - by rewrite Hold.
Qed.

Lemma UpdateUser_idemp s id n e p a b t v :
  service.UpdateUser (service.UpdateUser s id n e p a b t v).1 id n e p a b t v
  = service.UpdateUser s id n e p a b t v.
Proof.
  unfold service.UpdateUser.
  pose proof (service_Update_idemp s (TrimSpace id)
                (service.protoToAttributes n e p a b t v)) as H.
  destruct (service.Update s (TrimSpace id) _) as [s1 [u [err|]]] eqn:H1;
    simpl in *; by rewrite H.
Qed.

End write_back.

(** X7.  A record created over gRPC with a valid payload can be read back
    over gRPC under the identifier of the answer, and the answer is the
    same message; the message is in the listing; it carries the trimmed
    fields, the tags that are not blank and the avatar.  Deleting it
    succeeds once: after that, reading and deleting it again answer
    [NotFound]. *)
Theorem grpc_create_get_delete_round_trip (s : Store) (n e p a b : string)
    (t : slice string) (v : slice ascii) :
  service.validatePayload
    (service.normalizeAttributes (mkAttributes n e p a b t v)) = None →
  ∃ s1 pb,
    service.CreateUser s n e p a b t v = (s1, (Some pb, None))
    ∧ service.GetUser s1 (service.pb_Id pb) = (Some pb, None)
    ∧ pb ∈ service.ListUsers s1
    ∧ service.pb_Name pb = TrimSpace n ∧ service.pb_Email pb = TrimSpace e
    ∧ service.pb_Phone pb = TrimSpace p ∧ service.pb_Address pb = TrimSpace a
    ∧ service.pb_Bio pb = TrimSpace b
    ∧ elems (service.pb_Tags pb)
      = filter (λ tag, tag ≠ "") (TrimSpace <$> elems t)
    ∧ elems (service.pb_Avatar pb) = elems v
    ∧ ∃ s2,
        service.DeleteUser s1 (service.pb_Id pb) = (s2, (true, None))
        ∧ service.GetUser s2 (service.pb_Id pb)
          = (None, Some (service.mkStatus service.NotFound "user not found"))
        ∧ service.DeleteUser s2 (service.pb_Id pb)
          = (s2, (false,
                  Some (service.mkStatus service.NotFound "user not found"))).
Proof.
  intros Hvalid.
  set (attrs := mkAttributes n e p a b t v) in *.
  set (clean := service.normalizeAttributes attrs) in *.
  set (next := wrap64 (nextID s + 1)).
  set (u := mkUser (FormatInt next) (cloneAttributes clean)).
  set (s1 := mkStore (<[FormatInt next := u]> (users s)) next).
  assert (service.CreateUser s n e p a b t v = (s1, (Some (service.toProto u), None)))
    as Hcreate.
  { unfold service.CreateUser. rewrite Create_protoToAttributes.
    unfold service.Create. fold attrs clean. by rewrite Hvalid. }
  assert (TrimSpace (FormatInt next) ≠ "") as Hid.
  { rewrite TrimSpace_FormatInt. apply FormatInt_plain. }
  assert (users s1 !! FormatInt next = Some u) as Hu
    by apply lookup_insert_eq.
  exists s1, (service.toProto u). split; [done|].
  change (service.pb_Id (service.toProto u)) with (FormatInt next).
  split.
  { unfold service.GetUser. rewrite TrimSpace_FormatInt.
    rewrite service_Get_lookup by done. by rewrite Hu. }
  split.
  { unfold service.ListUsers. apply list_elem_of_fmap. exists u.
    split; [done|]. apply elem_of_List. by exists (FormatInt next). }
  unfold u, clean. rewrite stored_form. simpl. rewrite !elems_appendNil.
  split_and!; try done.
  set (s2 := mkStore (delete (FormatInt next) (users s1)) (nextID s1)).
  assert (users s2 !! FormatInt next = None) as Hgone
    by apply lookup_delete_eq.
  exists s2. split_and!.
  - unfold service.DeleteUser. rewrite TrimSpace_FormatInt.
    rewrite service_Delete_lookup by done. by rewrite Hu.
  - unfold service.GetUser. rewrite TrimSpace_FormatInt.
    rewrite service_Get_lookup by done. by rewrite Hgone.
  - unfold service.DeleteUser. rewrite TrimSpace_FormatInt.
    rewrite service_Delete_lookup by done. by rewrite Hgone.
Qed.

Lemma grpc_create_get_delete_round_trip_witness :
  ∃ s1 pb,
    service.CreateUser NewStore "  Ada " "ada@example.com " "" ""
      " first programmer" (Some [" maths "; "   "; "engine"])
      (Some ["a"; "b"]%char) = (s1, (Some pb, None))
    ∧ service.GetUser s1 (service.pb_Id pb) = (Some pb, None).
Proof.
  destruct (grpc_create_get_delete_round_trip NewStore "  Ada "
              "ada@example.com " "" "" " first programmer"
              (Some [" maths "; "   "; "engine"]) (Some ["a"; "b"]%char))
    as (s1 & pb & Hc & Hg & _); [vm_compute; reflexivity|].
  by exists s1, pb.
Defined.

(** X9.  Writing back what the service returned changes nothing: an
    update of the record that [Create] returned, with the attributes of
    that record, succeeds, returns the same record and leaves the store as
    it was. *)
Theorem writing_back_the_created_record_changes_nothing (s : Store)
    (attrs : Attributes) :
  service.validatePayload (service.normalizeAttributes attrs) = None →
  ∃ s1 u,
    service.Create s attrs = (s1, (u, None))
    ∧ service.Update s1 (ID u) (Attrs u) = (s1, (u, None))
    ∧ service.Get s1 (ID u) = (u, None).
Proof.
  intros Hvalid.
  set (clean := service.normalizeAttributes attrs) in *.
  set (next := wrap64 (nextID s + 1)).
  set (u := mkUser (FormatInt next) (cloneAttributes clean)).
  set (s1 := mkStore (<[FormatInt next := u]> (users s)) next).
  assert (TrimSpace (FormatInt next) ≠ "") as Hid.
  { rewrite TrimSpace_FormatInt. apply FormatInt_plain. }
  assert (users s1 !! FormatInt next = Some u) as Hu
    by apply lookup_insert_eq.
  exists s1, u. split_and!.
  - unfold service.Create. fold clean. by rewrite Hvalid.
  - change (ID u) with (FormatInt next).
    change (Attrs u) with (cloneAttributes clean).
    rewrite service_Update_lookup;
      [|done|unfold clean; by rewrite validatePayload_stored].
    rewrite Hu. cbv zeta. unfold clean. rewrite stored_form_fixed.
    fold clean. fold u. f_equal. unfold s1. simpl.
    by rewrite insert_insert_eq.
  - change (ID u) with (FormatInt next).
    rewrite service_Get_lookup by done. by rewrite Hu.
Qed.

Lemma writing_back_the_created_record_changes_nothing_witness :
  ∃ s1 u,
    service.Create NewStore adaRaw = (s1, (u, None))
    ∧ service.Update s1 (ID u) (Attrs u) = (s1, (u, None)).
Proof.
  destruct (writing_back_the_created_record_changes_nothing NewStore adaRaw)
    as (s1 & u & Hc & Hw & _); [vm_compute; reflexivity|].
  by exists s1, u.
Defined.

(** ** Numerals read from the environment *)

Section numerals.
Import strconv.

Lemma digit_pretty_N_char d :
  (d < 10)%N → digit (pretty_N_char d) = Some (Z.of_N d).
Proof.
  intros Hd. destruct d as [|p]; [done|].
  do 4 (destruct p as [p|p|]; try done); lia.
Qed.

Lemma digit_plain c d : digit c = Some d → plain c = true ∧ 0 ≤ d ≤ 9.
Proof.
  unfold digit. destruct (_ && _) eqn:Hc; [|done]. intros [= <-].
  apply andb_true_iff in Hc as [H1%N.leb_le H2%N.leb_le]. split; [|lia].
  destruct c as [[] [] [] [] [] [] [] []]; try done;
    vm_compute in H1, H2; by (destruct H1 || destruct H2).
Qed.

Lemma digits_plain s : ∀ n m,
  digits n s = Some m →
  Forall (λ c, plain c = true) (list_ascii_of_string s).
Proof.
  induction s as [|c s IH]; intros n m; simpl; [by constructor|].
  destruct (digit c) as [d|] eqn:Hd; [|done]. intros H.
  constructor; [by apply (digit_plain c d)|by eapply IH].
Qed.

Lemma digits_pretty_N_go x : ∀ s,
  ∃ k, 0 ≤ k ∧ ∀ n,
    digits n (pretty_N_go x s) = digits (n * 10 ^ k + Z.of_N x) s.
Proof.
  induction (N.lt_wf_0 x) as [x _ IH]; intros s.
  destruct (decide (x = 0)%N) as [->|Hx].
  { exists 0. split; [done|]. intros n. rewrite pretty_N_go_0.
    f_equal. simpl. lia. }
  rewrite pretty_N_go_step by lia.
  destruct (IH (x `div` 10)%N) with
    (s := String (pretty_N_char (x `mod` 10)) s) as (k & Hk & Hgo).
  { apply N.div_lt; lia. }
  exists (k + 1). split; [lia|]. intros n. rewrite Hgo. simpl.
  rewrite digit_pretty_N_char by (apply N.mod_lt; lia).
  f_equal. rewrite Z.pow_add_r by lia.
  rewrite N2Z.inj_div, N2Z.inj_mod.
  pose proof (Z.div_mod (Z.of_N x) 10). change (Z.of_N 10) with 10. lia.
Qed.

Lemma digits_pretty_N (x : N) : digits 0 (pretty x) = Some (Z.of_N x).
Proof.
  unfold pretty, pretty_N. case_decide as Hx; [by subst|].
  destruct (digits_pretty_N_go x "") as (k & _ & ->). simpl.
  f_equal.
Qed.

(** A numeral that [Itoa] wrote is read back by [Atoi]. *)
Lemma Atoi_Itoa z : minInt64 ≤ z ≤ maxInt64 → Atoi (Itoa z) = Some z.
Proof.
  intros Hz. unfold Itoa, FormatInt, pretty, pretty_Z.
  destruct z as [|p|p]; [done| |].
  - pose proof (digits_pretty_N (N.pos p)) as Hd.
    destruct (pretty_N_plain (N.pos p)) as [Hne Hp].
    change (Atoi (pretty (N.pos p)) = Some (Z.of_N (N.pos p))).
    destruct (pretty (N.pos p)) as [|c r] eqn:Hs; [done|].
    assert (digit c ≠ None) as Hc.
    { simpl in Hd. by destruct (digit c). }
    unfold Atoi.
    rewrite (bool_decide_eq_false_2 (c = "-"%char)) by (by intros ->).
    rewrite (bool_decide_eq_false_2 (c = "+"%char)) by (by intros ->).
    simpl orb. cbv iota. rewrite Hd. cbv zeta. cbv iota.
    replace ((minInt64 <=? Z.of_N (N.pos p)) && (Z.of_N (N.pos p) <=? maxInt64))
      with true; [done|].
    symmetry. apply andb_true_iff. split; apply Z.leb_le;
      unfold minInt64, maxInt64 in *; lia.
  - pose proof (digits_pretty_N (N.pos p)) as Hd.
    destruct (pretty_N_plain (N.pos p)) as [Hne Hp].
    change (Atoi (String "-" (pretty (N.pos p)))
            = Some (- Z.of_N (N.pos p))).
    unfold Atoi. rewrite bool_decide_eq_true_2 by done. simpl orb. cbv iota.
    destruct (pretty (N.pos p)) as [|c r] eqn:Hs; [done|].
    rewrite Hd. cbv zeta. cbv iota.
    replace ((minInt64 <=? - Z.of_N (N.pos p))
             && (- Z.of_N (N.pos p) <=? maxInt64))
      with true; [done|].
    symmetry. apply andb_true_iff. split; apply Z.leb_le;
      unfold minInt64, maxInt64 in *; lia.
Qed.

(** What [Atoi] accepts has no white space and fits [int]. *)
Lemma Atoi_plain s z :
  Atoi s = Some z →
  s ≠ "" ∧ Forall (λ c, plain c = true) (list_ascii_of_string s)
  ∧ minInt64 ≤ z ≤ maxInt64.
Proof.
  unfold Atoi. destruct s as [|c r]; [done|].
  destruct (bool_decide (c = "-"%char)) eqn:Hm; simpl orb; cbv iota.
  - apply bool_decide_eq_true in Hm as ->.
    destruct r as [|c' r']; [done|].
    destruct (digits 0 (String c' r')) as [n|] eqn:Hd; [|done].
    cbv zeta. destruct (_ && _) eqn:Hr; [|done]. intros [= <-].
    apply andb_true_iff in Hr as [?%Z.leb_le ?%Z.leb_le].
    split; [done|]. split; [|done].
    apply Forall_cons.
    split; [done|exact (digits_plain _ _ _ Hd)].
  - destruct (bool_decide (c = "+"%char)) eqn:Hp; cbv iota.
    + apply bool_decide_eq_true in Hp as ->.
      destruct r as [|c' r']; [done|].
      destruct (digits 0 (String c' r')) as [n|] eqn:Hd; [|done].
      cbv zeta. destruct (_ && _) eqn:Hr; [|done]. intros [= <-].
      apply andb_true_iff in Hr as [?%Z.leb_le ?%Z.leb_le].
      split; [done|]. split; [|done].
      apply Forall_cons.
    split; [done|exact (digits_plain _ _ _ Hd)].
    + destruct (digits 0 (String c r)) as [n|] eqn:Hd; [|done].
      cbv zeta. destruct (_ && _) eqn:Hr; [|done]. intros [= <-].
      apply andb_true_iff in Hr as [?%Z.leb_le ?%Z.leb_le].
      split; [done|]. split; [|done]. by eapply digits_plain.
Qed.

Lemma Atoi_TrimSpace s z : Atoi s = Some z → TrimSpace s = s.
Proof. intros (_ & Hs & _)%Atoi_plain. by apply TrimSpace_plain. Qed.

End numerals.

(** X10.  [lookupEnvInt] returns the number whose numeral the variable
    holds, whatever the fallback; it returns the fallback when the variable
    is unset or empty, and when its value has white space before or after
    it, which [Atoi] does not accept.  The result fits [int] when the
    fallback does. *)
Theorem lookupEnvInt_reads_numeral_or_falls_back (env : Env) (key : string)
    (fallback : Z) :
  (∀ z, strconv.minInt64 ≤ z ≤ maxInt64 →
     env !! key = Some (strconv.Itoa z) →
     config.lookupEnvInt env key fallback = z)
  ∧ (env !! key = None ∨ env !! key = Some "" →
     config.lookupEnvInt env key fallback = fallback)
  ∧ (∀ v, env !! key = Some v → TrimSpace v ≠ v →
       config.lookupEnvInt env key fallback = fallback)
  ∧ (strconv.minInt64 ≤ fallback ≤ maxInt64 →
     strconv.minInt64 ≤ config.lookupEnvInt env key fallback ≤ maxInt64).
Proof.
  unfold config.lookupEnvInt. split_and!.
  - intros z Hz ->. rewrite decide_True by apply FormatInt_plain.
    by rewrite Atoi_Itoa.
  - by intros [-> | ->].
  - intros v -> Hv. case_decide; [|done].
    destruct (strconv.Atoi v) as [z|] eqn:Hz; [|done].
    by apply Atoi_TrimSpace in Hz.
  - intros Hf. destruct (env !! key) as [v|]; [|done].
    case_decide; [|done].
    destruct (strconv.Atoi v) as [z|] eqn:Hz; [|done].
    by apply Atoi_plain in Hz as (_ & _ & ?).
Qed.

(** X11.  When each host variable is unset or empty and each numeric
    variable is unset or holds no numeral, [Load] gives the defaults: the
    addresses 127.0.0.1:8087 and 127.0.0.1:50055 and a grace period of five
    seconds. *)
Theorem Load_falls_back_to_defaults (env : Env) :
  (∀ key, key ∈ ["HTTP_HOST"; "GRPC_HOST"] →
     env !! key = None ∨ env !! key = Some "") →
  (∀ key v, key ∈ ["HTTP_PORT"; "GRPC_PORT"; "SHUTDOWN_GRACE_SECONDS"] →
     env !! key = Some v → strconv.Atoi v = None) →
  config.Load env
  = config.mkConfig "127.0.0.1:8087" "127.0.0.1:50055" 5000000000.
Proof.
  intros Hhost Hnum.
  assert (∀ key fallback, key ∈ ["HTTP_HOST"; "GRPC_HOST"] →
            config.lookupEnv env key fallback = fallback) as Hh.
  { intros key fallback Hkey. unfold config.lookupEnv.
    by destruct (Hhost key Hkey) as [-> | ->]. }
  assert (∀ key fallback,
            key ∈ ["HTTP_PORT"; "GRPC_PORT"; "SHUTDOWN_GRACE_SECONDS"] →
            config.lookupEnvInt env key fallback = fallback) as Hn.
  { intros key fallback Hkey. unfold config.lookupEnvInt.
    destruct (env !! key) as [v|] eqn:Hv; [|done].
    case_decide; [|done]. by rewrite (Hnum key v Hkey Hv). }
  unfold config.Load.
  rewrite !Hh, !Hn by (by repeat constructor). reflexivity.
Qed.

(** X12.  [Load] takes over what is set: a host that is not empty as it
    is, a port that is the numeral of any [int], negative ones included,
    and a grace period of [n] seconds, exact while [n] seconds fit a
    [time.Duration]. *)
Theorem Load_reads_what_is_set (env : Env) (h1 h2 : string) (p1 p2 n : Z) :
  h1 ≠ "" → h2 ≠ "" →
  strconv.minInt64 ≤ p1 ≤ maxInt64 → strconv.minInt64 ≤ p2 ≤ maxInt64 →
  0 ≤ n ≤ 9223372036 →
  env !! "HTTP_HOST" = Some h1 → env !! "HTTP_PORT" = Some (strconv.Itoa p1) →
  env !! "GRPC_HOST" = Some h2 → env !! "GRPC_PORT" = Some (strconv.Itoa p2) →
  env !! "SHUTDOWN_GRACE_SECONDS" = Some (strconv.Itoa n) →
  config.Load env
  = config.mkConfig (h1 +:+ ":" +:+ FormatInt p1) (h2 +:+ ":" +:+ FormatInt p2)
      (n * 1000000000).
Proof.
  intros Hh1 Hh2 Hp1 Hp2 Hn E1 E2 E3 E4 E5.
  unfold config.Load, config.lookupEnv, config.lookupEnvInt,
    config.joinHostPort.
  rewrite E1, E2, E3, E4, E5.
  rewrite !decide_True by (done || apply FormatInt_plain).
  rewrite !Atoi_Itoa by (done || (unfold strconv.minInt64, maxInt64; lia)).
  f_equal. unfold wrap64, config.Second.
  rewrite Z.mod_small by lia. lia.
Qed.

Lemma Load_falls_back_to_defaults_witness :
  config.Load (<["HTTP_HOST" := ""]> (<["HTTP_PORT" := " 8080"]> ∅))
  = config.mkConfig "127.0.0.1:8087" "127.0.0.1:50055" 5000000000.
Proof.
  apply Load_falls_back_to_defaults.
  - intros key Hkey. apply list_elem_of_In in Hkey.
    destruct Hkey as [<-|[<-|[]]]; vm_compute; auto.
  - intros key v Hkey Hv. apply list_elem_of_In in Hkey.
    destruct Hkey as [<-|[<-|[<-|[]]]]; vm_compute in Hv;
      [|discriminate Hv..].
    injection Hv as <-. vm_compute. reflexivity.
Defined.

Lemma Load_reads_what_is_set_witness :
  config.Load
    (<["HTTP_HOST" := "0.0.0.0"]> (<["HTTP_PORT" := "-1"]>
       (<["GRPC_HOST" := "localhost"]> (<["GRPC_PORT" := "9090"]>
          (<["SHUTDOWN_GRACE_SECONDS" := "30"]> ∅)))))
  = config.mkConfig "0.0.0.0:-1" "localhost:9090" 30000000000.
Proof.
  apply (Load_reads_what_is_set _ "0.0.0.0" "localhost" (-1) 9090 30);
    try done; try (unfold strconv.minInt64, maxInt64; lia);
    vm_compute; reflexivity.
Defined.

(** ** The configuration of the benchmark client *)

Section client_configuration.
Import strconv.

Lemma getEnvInt_positive env key fallback :
  0 < fallback ≤ maxInt64 →
  0 < testclient.getEnvInt env key fallback ≤ maxInt64.
Proof.
  intros Hf. unfold testclient.getEnvInt.
  destruct (env !! key) as [v|]; [|done].
  destruct (Atoi (TrimSpace v)) as [z|] eqn:Hz; [|done].
  destruct (0 <? z) eqn:Hpos; [|done].
  apply Z.ltb_lt in Hpos. apply Atoi_plain in Hz as (_ & _ & ?). lia.
Qed.

Lemma trimLeftByte_head s c r : testclient.trimLeftByte s c ≠ String c r.
Proof.
  induction s as [|x s IH]; simpl; [done|].
  case_decide as Hx; [done|]. by intros [= -> _].
Qed.

Lemma trimRightByte_last s c r :
  testclient.trimRightByte s c ≠ r +:+ String c "".
Proof.
  unfold testclient.trimRightByte. intros H.
  apply (f_equal String.rev) in H. rewrite rev_rev, rev_append in H.
  by apply trimLeftByte_head in H.
Qed.

End client_configuration.

(** X13.  Whatever the environment holds, the configuration of the
    client has a positive number of iterations, of workers and of warm-up
    rounds, so that the division that shares out the work never divides by
    zero, and its base URL does not end with a slash. *)
Theorem loadConfig_is_usable (env : Env) :
  0 < testclient.Iterations (testclient.loadConfig env) ≤ maxInt64
  ∧ 0 < testclient.Concurrency (testclient.loadConfig env) ≤ maxInt64
  ∧ 0 < testclient.Warmup (testclient.loadConfig env) ≤ maxInt64
  ∧ is_Some (testclient.shares (testclient.loadConfig env))
  ∧ ∀ s, testclient.HTTPBaseURL (testclient.loadConfig env) ≠ s +:+ "/".
Proof.
  assert (0 < testclient.Concurrency (testclient.loadConfig env) ≤ maxInt64)
    as Hc by (by apply getEnvInt_positive).
  split_and!; try (by apply getEnvInt_positive); try apply Hc.
  - unfold testclient.shares.
    destruct (Z.eqb_spec (testclient.Concurrency (testclient.loadConfig env)) 0)
      as [H0|_]; [lia|by eexists].
  - intros s. apply trimRightByte_last.
Qed.

(** X14.  [getEnvInt] of the client reads a positive numeral with white
    space around it; it returns the fallback for zero, for a negative
    number and for an unset variable.  [lookupEnvInt] of the server, given
    the same positive numeral, returns the number only when there is no
    white space around it. *)
Theorem getEnvInt_trims_and_wants_positive (env : Env) (key : string)
    (fallback : Z) (l r : string) (z : Z) :
  whiteSpaceOnly l → whiteSpaceOnly r →
  strconv.minInt64 ≤ z ≤ maxInt64 →
  env !! key = Some (l +:+ strconv.Itoa z +:+ r) →
  testclient.getEnvInt env key fallback = (if 0 <? z then z else fallback)
  ∧ testclient.getEnvInt (delete key env) key fallback = fallback
  ∧ config.lookupEnvInt env key fallback
    = (if decide (l = "" ∧ r = "") then z else fallback).
Proof.
  intros Hl Hr Hz Hv. split_and!.
  - unfold testclient.getEnvInt. rewrite Hv.
    unfold strconv.Itoa. rewrite TrimSpace_around_FormatInt by done.
    change (FormatInt z) with (strconv.Itoa z).
    by rewrite (Atoi_Itoa z Hz).
  - unfold testclient.getEnvInt. by rewrite lookup_delete_eq.
  - unfold config.lookupEnvInt. rewrite Hv.
    rewrite decide_True.
    2: { intros H%(f_equal String.length). rewrite !length_append in H.
         destruct (FormatInt_plain z) as [Hne _].
         unfold strconv.Itoa in H.
         destruct (FormatInt z); [done|]. simpl in H. lia. }
    destruct (decide (l = "" ∧ r = "")) as [[-> ->]|Hlr].
    + change ("" +:+ strconv.Itoa z +:+ "") with (strconv.Itoa z +:+ "").
      by rewrite append_nil_r, Atoi_Itoa.
    + destruct (strconv.Atoi _) as [z'|] eqn:Hz'; [|done].
      exfalso. apply Atoi_TrimSpace in Hz'.
      unfold strconv.Itoa in Hz'.
      rewrite TrimSpace_around_FormatInt in Hz' by done.
      apply (f_equal String.length) in Hz'.
      rewrite !length_append in Hz'.
      destruct l as [|c l], r as [|c' r']; simpl in Hz'; try lia.
      by destruct Hlr.
Qed.

Lemma getEnvInt_trims_and_wants_positive_witness :
  testclient.getEnvInt (<["BENCH_ITERATIONS" := " 250 "]> ∅)
    "BENCH_ITERATIONS" 100 = 250
  ∧ config.lookupEnvInt (<["BENCH_ITERATIONS" := " 250 "]> ∅)
      "BENCH_ITERATIONS" 100 = 100.
Proof.
  destruct (getEnvInt_trims_and_wants_positive
              (<["BENCH_ITERATIONS" := " 250 "]> ∅) "BENCH_ITERATIONS" 100
              " " " " 250) as (H1 & _ & H2).
  - apply whiteSpaceOnly_one_space.
  - apply whiteSpaceOnly_one_space.
  - unfold strconv.minInt64, maxInt64. lia.
  - vm_compute. reflexivity.
  - split; [exact H1|exact H2].
Defined.

(** ** The statistics of the benchmark client *)

Section statistics.

Lemma sumZ_app ds1 ds2 : sumZ (ds1 ++ ds2) = sumZ ds1 + sumZ ds2.
Proof. unfold sumZ. induction ds1 as [|d ds1 IH]; simpl; lia. Qed.

Lemma sumZ_nonneg ds : Forall (λ d, 0 ≤ d) ds → 0 ≤ sumZ ds.
Proof. unfold sumZ. induction 1; simpl; lia. Qed.

Lemma sumZ_bounds lo hi ds :
  Forall (λ d, lo ≤ d ≤ hi) ds →
  lo * Z.of_nat (length ds) ≤ sumZ ds ≤ hi * Z.of_nat (length ds).
Proof. unfold sumZ. induction 1; simpl length; simpl foldr; lia. Qed.

Lemma wrap64_small z : - 2 ^ 63 ≤ z ≤ maxInt64 → wrap64 z = z.
Proof.
  unfold wrap64, maxInt64. intros Hz. rewrite Z.mod_small by lia. lia.
Qed.

(** What an accumulator holds after the durations [ds] were added to
    a new one, while the total and the count fit [int64]. *)
Lemma accumulator_after ds :
  Forall (λ d, 0 ≤ d) ds → sumZ ds ≤ maxInt64 →
  Z.of_nat (length ds) ≤ maxInt64 →
  let a := foldl testclient.accumulator_add testclient.zeroAccumulator ds in
  testclient.total a = sumZ ds
  ∧ testclient.count a = Z.of_nat (length ds)
  ∧ (ds ≠ [] →
     testclient.min a ∈ ds ∧ testclient.max a ∈ ds
     ∧ Forall (λ d, testclient.min a ≤ d ≤ testclient.max a) ds).
Proof.
  induction ds as [|d ds IH] using rev_ind; [done|].
  rewrite Forall_app, Forall_singleton, sumZ_app, length_app, foldl_snoc.
  change (sumZ [d]) with (d + 0). change (length [d]) with 1%nat.
  intros [Hds Hd] Hsum Hlen.
  pose proof (sumZ_nonneg ds Hds) as Hpos.
  destruct IH as (Ht & Hc & Hm); [done|lia|lia|].
  set (a := foldl testclient.accumulator_add testclient.zeroAccumulator ds)
    in *.
  cbv zeta. unfold testclient.accumulator_add.
  cbn [testclient.total testclient.count testclient.min testclient.max].
  rewrite Ht, Hc.
  rewrite !wrap64_small by (unfold maxInt64 in *; lia).
  split; [lia|]. split; [lia|]. intros _.
  destruct ds as [|d0 ds0].
  { simpl. rewrite !list_elem_of_singleton, Forall_singleton. lia. }
  destruct Hm as (Hmin & Hmax & Hall); [done|].
  replace (Z.of_nat (length (d0 :: ds0)) =? 0) with false
    by (symmetry; apply Z.eqb_neq; simpl; lia).
  cbn [orb]. rewrite !elem_of_app, !list_elem_of_singleton, Forall_app,
    Forall_singleton.
  destruct (Z.ltb_spec d (testclient.min a)),
    (Z.ltb_spec (testclient.max a) d); split_and!; auto; try lia.
  all: eapply Forall_impl; [exact Hall|]; simpl; intros; lia.
Qed.

Lemma newCollector_lookup keys k :
  testclient.newCollector keys !! k
  = if decide (k ∈ keys) then Some testclient.zeroAccumulator else None.
Proof.
  unfold testclient.newCollector.
  induction keys as [|key keys IH] using rev_ind.
  { cbn [foldl]. rewrite lookup_empty.
    destruct (decide (k ∈ [])) as [H|]; [by apply elem_of_nil in H|done]. }
  rewrite foldl_snoc. destruct (decide (k = key)) as [->|Hk].
  - rewrite lookup_insert_eq, decide_True; [done|].
    apply elem_of_app. right. by apply list_elem_of_singleton.
  - rewrite lookup_insert_ne by done. rewrite IH.
    destruct (decide (k ∈ keys)) as [Hin|Hin].
    + rewrite decide_True; [done|]. apply elem_of_app. by left.
    + rewrite decide_False; [done|]. rewrite elem_of_app.
      rewrite list_elem_of_singleton. by intros [?|?].
Qed.

Lemma collect_lookup rs : ∀ c k,
  collect c rs !! k
  = (λ a, foldl testclient.accumulator_add a (durationsOf k rs)) <$> c !! k.
Proof.
  unfold collect, durationsOf.
  induction rs as [|[op d] rs IH]; intros c k; simpl.
  { by destruct (c !! k). }
  rewrite IH. rewrite filter_cons. simpl.
  unfold testclient.statCollector_add.
  destruct (decide (op = k)) as [->|Hk].
  - destruct (c !! k) as [acc|] eqn:Hop.
    + by rewrite lookup_insert_eq.
    + by rewrite Hop.
  - destruct (c !! op) as [acc|] eqn:Hop; [|done].
    by rewrite lookup_insert_ne.
Qed.

End statistics.

(** X15.  After one duration or more, none negative, were added to a new
    accumulator, and while their sum and their number fit [int64], the
    statistics give the least of them as [Min], the greatest as [Max] and
    their sum divided by their number, rounded down, as [Avg], which lies
    between the two. *)
Theorem accumulator_stats_are_min_max_mean (ds : list Z) :
  ds ≠ [] → Forall (λ d, 0 ≤ d) ds → sumZ ds ≤ maxInt64 →
  Z.of_nat (length ds) ≤ maxInt64 →
  let st :=
    testclient.accumulator_stats
      (foldl testclient.accumulator_add testclient.zeroAccumulator ds) in
  testclient.Min st ∈ ds ∧ testclient.Max st ∈ ds
  ∧ Forall (λ d, testclient.Min st ≤ d ≤ testclient.Max st) ds
  ∧ testclient.Avg st = sumZ ds `div` Z.of_nat (length ds)
  ∧ testclient.Min st ≤ testclient.Avg st ≤ testclient.Max st.
Proof.
  intros Hne Hds Hsum Hlen.
  destruct (accumulator_after ds Hds Hsum Hlen) as (Ht & Hc & Hm).
  destruct (Hm Hne) as (Hmin & Hmax & Hall).
  set (a := foldl testclient.accumulator_add testclient.zeroAccumulator ds)
    in *.
  assert (0 < Z.of_nat (length ds)) as Hn.
  { destruct ds; [done|]. simpl. lia. }
  pose proof (sumZ_nonneg ds Hds) as Hpos.
  pose proof (sumZ_bounds _ _ ds Hall) as [Hlo Hhi].
  assert (testclient.min a ≤ sumZ ds `div` Z.of_nat (length ds)
          ≤ testclient.max a) as Havg.
  { split.
    - apply Z.div_le_lower_bound; lia.
    - apply Z.div_le_upper_bound; lia. }
  assert (testclient.accumulator_stats a
          = testclient.mkStats (sumZ ds `div` Z.of_nat (length ds))
              (testclient.min a) (testclient.max a)) as Hst.
  { unfold testclient.accumulator_stats. rewrite Hc, Ht.
    replace (Z.of_nat (length ds) =? 0) with false
      by (symmetry; apply Z.eqb_neq; lia).
    rewrite Z.quot_div_nonneg by lia.
    rewrite wrap64_small; [done|].
    assert (0 ≤ sumZ ds `div` Z.of_nat (length ds)) by (apply Z.div_pos; lia).
    assert (sumZ ds `div` Z.of_nat (length ds) ≤ sumZ ds)
      by (apply Z.div_le_upper_bound; nia).
    unfold maxInt64 in *. lia. }
  cbv zeta. rewrite Hst. simpl. done.
Qed.

Lemma accumulator_stats_are_min_max_mean_witness :
  testclient.accumulator_stats
    (foldl testclient.accumulator_add testclient.zeroAccumulator [7; 2; 9])
  = testclient.mkStats 6 2 9
  ∧ testclient.Avg (testclient.mkStats 6 2 9) = sumZ [7; 2; 9] `div` 3.
Proof.
  split; [vm_compute; reflexivity|].
  refine (proj1 (proj2 (proj2 (proj2
    (accumulator_stats_are_min_max_mean [7; 2; 9] _ _ _ _))))).
  - done.
  - repeat constructor; lia.
  - vm_compute. intros [=].
  - vm_compute. intros [=].
Defined.

(** X16.  A collector made for the keys [keys] keeps, for each of these
    keys, the statistics of an accumulator of its own to which only the
    durations reported under that key were added, in the order in which they
    came; what is reported under another key is dropped, and the collector
    never has another key. *)
Theorem collector_groups_results_by_key (keys : list string)
    (rs : list (string * Z)) (k : string) :
  testclient.statCollector_stats (collect (testclient.newCollector keys) rs)
    !! k
  = if decide (k ∈ keys) then
      Some (testclient.accumulator_stats
              (foldl testclient.accumulator_add testclient.zeroAccumulator
                 (durationsOf k rs)))
    else None.
Proof.
  unfold testclient.statCollector_stats.
  rewrite lookup_fmap, collect_lookup, newCollector_lookup.
  by case_decide.
Qed.

(** ** The share of work of the workers *)

Section work_shares.

Lemma min_int_le_r a b : testclient.min_int a b ≤ b.
Proof. unfold testclient.min_int. destruct (Z.ltb_spec a b); lia. Qed.

Lemma min_int_spec a b : testclient.min_int a b = Z.min a b.
Proof. unfold testclient.min_int. destruct (Z.ltb_spec a b); lia. Qed.

(** Once the start of a worker is at the end of the work, no worker is
    started any more. *)
Lemma workers_done n w per iterations :
  iterations ≤ wrap64 (w * per) →
  testclient.workers n w per iterations = [].
Proof.
  intros Hw. destruct n as [|n]; [done|]. simpl.
  pose proof (min_int_le_r (wrap64 (wrap64 (w + 1) * per)) iterations).
  destruct (Z.leb_spec (testclient.min_int (wrap64 (wrap64 (w + 1) * per))
                          iterations) (wrap64 (w * per))); [done|lia].
Qed.

Lemma workers_spec n : ∀ w per iterations,
  0 ≤ w → 0 < per → w * per ≤ iterations →
  iterations ≤ (w + Z.of_nat n) * per →
  (w + Z.of_nat n) * per ≤ maxInt64 →
  concat (testclient.indices <$> testclient.workers n w per iterations)
  = seqZ (w * per) (iterations - w * per)
  ∧ (length (testclient.workers n w per iterations) ≤ n)%nat
  ∧ Forall (λ sh, sh.1 < sh.2 ≤ sh.1 + per)
      (testclient.workers n w per iterations).
Proof.
  induction n as [|n IH]; intros w per iterations Hw Hper Hlo Hhi Hmax.
  { simpl. rewrite seqZ_nil by lia. by split_and!. }
  assert (0 ≤ w * per) by nia.
  assert ((w + 1) * per ≤ (w + Z.of_nat (S n)) * per) by nia.
  assert (w + 1 ≤ maxInt64) by nia.
  simpl. unfold maxInt64 in *.
  rewrite (wrap64_small (w + 1)) by (unfold maxInt64; lia).
  rewrite (wrap64_small (w * per)), (wrap64_small ((w + 1) * per))
    by (unfold maxInt64; lia).
  rewrite min_int_spec.
  destruct (Z.leb_spec (Z.min ((w + 1) * per) iterations) (w * per)) as [Hb|Hb].
  { simpl. rewrite seqZ_nil by lia. split_and!; [done|lia|done]. }
  destruct (Z.le_gt_cases iterations ((w + 1) * per)) as [Hlast|Hmore].
  - rewrite workers_done
      by (rewrite wrap64_small by (unfold maxInt64; lia); lia).
    rewrite Z.min_r by lia. simpl. unfold testclient.indices. simpl.
    rewrite app_nil_r. split_and!; [done|lia|].
    repeat constructor; simpl; lia.
  - rewrite Z.min_l by lia.
    assert (w + 1 + Z.of_nat n = w + Z.of_nat (S n)) as Hn by lia.
    destruct (IH (w + 1) per iterations) as (Hcat & Hlen & Hall);
      rewrite ?Hn; try lia.
    rewrite fmap_cons. cbn [concat]. rewrite Hcat.
    unfold testclient.indices. cbn [fst snd length].
    split_and!.
    + replace (iterations - w * per)
        with (((w + 1) * per - w * per) + (iterations - (w + 1) * per))
        by lia.
      rewrite seqZ_app by lia. do 2 f_equal; lia.
    + lia.
    + constructor; [simpl; lia|done].
Qed.

(** What [shares] hands out. *)
Lemma shares_cover (cfg : testclient.benchConfig) :
  0 < testclient.Iterations cfg → 0 < testclient.Concurrency cfg →
  testclient.Iterations cfg + testclient.Concurrency cfg ≤ maxInt64 →
  ∃ l,
    testclient.shares cfg = Some l
    ∧ concat (testclient.indices <$> l) = seqZ 0 (testclient.Iterations cfg)
    ∧ (length l ≤ Z.to_nat (testclient.Concurrency cfg))%nat
    ∧ Forall (λ sh,
        sh.1 < sh.2
        ≤ sh.1 + (testclient.Iterations cfg + testclient.Concurrency cfg - 1)
                 `div` testclient.Concurrency cfg) l.
Proof.
  destruct cfg as [url addr iterations concurrency warmup timeout]. simpl.
  intros Hi Hc Hmax. unfold testclient.shares. simpl.
  destruct (Z.eqb_spec concurrency 0) as [?|_]; [lia|].
  eexists. split; [done|]. unfold maxInt64 in *.
  rewrite (wrap64_small (iterations + concurrency)) by (unfold maxInt64; lia).
  rewrite (wrap64_small (iterations + concurrency - 1))
    by (unfold maxInt64; lia).
  rewrite Z.quot_div_nonneg by lia.
  set (per := (iterations + concurrency - 1) `div` concurrency).
  assert (concurrency * per ≤ iterations + concurrency - 1) as Hfloor.
  { apply Z.mul_div_le. lia. }
  assert (iterations + concurrency - 1 < concurrency * (per + 1)) as Hceil.
  { unfold per.
    pose proof (Z.div_mod (iterations + concurrency - 1) concurrency).
    pose proof (Z.mod_pos_bound (iterations + concurrency - 1) concurrency).
    lia. }
  assert (0 < per) as Hper.
  { apply Z.div_str_pos. lia. }
  rewrite (wrap64_small per) by (unfold maxInt64; nia).
  assert (iterations ≤ (0 + Z.of_nat (Z.to_nat concurrency)) * per) as H1
    by (rewrite Z2Nat.id by lia; nia).
  assert ((0 + Z.of_nat (Z.to_nat concurrency)) * per ≤ maxInt64) as H2
    by (rewrite Z2Nat.id by lia; unfold maxInt64; nia).
  destruct (workers_spec (Z.to_nat concurrency) 0 per iterations)
    as (Hcat & Hlen & Hall); [lia..|done|done|].
  split_and!; [|done|done].
  rewrite Hcat. f_equal; lia.
Qed.

End work_shares.

(** X17.  The workers are started after the channel for their results
    is made, with room for four results for each iteration: when this size,
    computed in [int], is negative or more than the run-time grants, making
    the channel panics and no worker is started.  Otherwise, with a
    positive number of iterations and of workers whose sum fits [int], the
    work is shared out without a gap and without an overlap: the index
    ranges of the workers started, one after the other, are the indices 0,
    ..., iterations - 1 in order; no more workers are started than the
    configuration allows, and each one gets at least one index and at most
    the quotient, rounded up, of the iterations by the workers. *)
Theorem startWorkers_split_the_indices (limit : Z)
    (cfg : testclient.benchConfig) :
  0 < testclient.Iterations cfg → 0 < testclient.Concurrency cfg →
  testclient.Iterations cfg + testclient.Concurrency cfg ≤ maxInt64 →
  (testclient.startWorkers limit cfg = None
   ↔ wrap64 (testclient.Iterations cfg * 4) < 0
     ∨ limit < wrap64 (testclient.Iterations cfg * 4))
  ∧ (testclient.Iterations cfg * 4 ≤ limit → limit ≤ maxInt64 →
     is_Some (testclient.startWorkers limit cfg))
  ∧ ∀ l, testclient.startWorkers limit cfg = Some l →
      concat (testclient.indices <$> l)
      = seqZ 0 (testclient.Iterations cfg)
      ∧ (length l ≤ Z.to_nat (testclient.Concurrency cfg))%nat
      ∧ Forall (λ sh,
          sh.1 < sh.2
          ≤ sh.1
            + (testclient.Iterations cfg + testclient.Concurrency cfg - 1)
              `div` testclient.Concurrency cfg) l.
Proof.
  intros Hi Hc Hmax.
  destruct (shares_cover cfg Hi Hc Hmax) as (l0 & Hl0 & Hcover).
  unfold testclient.startWorkers, testclient.makeChan.
  change (Z.of_nat (length testclient.operationsOrder)) with 4.
  set (size := wrap64 (testclient.Iterations cfg * 4)).
  rewrite Hl0. split_and!.
  - destruct (Z.ltb_spec size 0), (Z.ltb_spec limit size); simpl;
      split; try done; try (intros _; lia); intros [?|?]; lia.
  - intros Hsize Hlimit.
    assert (size = testclient.Iterations cfg * 4) as ->
      by (unfold size; apply wrap64_small; unfold maxInt64 in *; lia).
    destruct (Z.ltb_spec (testclient.Iterations cfg * 4) 0); [lia|].
    destruct (Z.ltb_spec limit (testclient.Iterations cfg * 4)); [lia|].
    by eexists.
  - intros l. destruct ((size <? 0) || (limit <? size)); [done|].
    by intros [= <-].
Qed.

Lemma startWorkers_split_the_indices_witness :
  testclient.startWorkers 11728124029606
    (testclient.mkBenchConfig "http://127.0.0.1:8087" "127.0.0.1:50055"
       10 4 20 2000000000)
  = Some [(0, 3); (3, 6); (6, 9); (9, 10)]
  ∧ concat (testclient.indices <$> [(0, 3); (3, 6); (6, 9); (9, 10)])
    = seqZ 0 10
  ∧ testclient.startWorkers 11728124029606
      (testclient.mkBenchConfig "http://127.0.0.1:8087" "127.0.0.1:50055"
         2305843009213693952 4 20 2000000000)
    = None.
Proof.
  assert (testclient.startWorkers 11728124029606
            (testclient.mkBenchConfig "http://127.0.0.1:8087"
               "127.0.0.1:50055" 10 4 20 2000000000)
          = Some [(0, 3); (3, 6); (6, 9); (9, 10)]) as Hw
    by (vm_compute; reflexivity).
  split; [exact Hw|]. split.
  - refine (proj1 (proj2 (proj2
      (startWorkers_split_the_indices 11728124029606
         (testclient.mkBenchConfig "http://127.0.0.1:8087"
            "127.0.0.1:50055" 10 4 20 2000000000) _ _ _)) _ Hw)).
    + done.
    + done.
    + vm_compute. intros [=].
  - vm_compute. reflexivity.
Defined.

(** ** Normalisation in the caller's array *)

Section in_place.

(** A tag is written only below the end of [clean]: from there on the
    array is as it was. *)
Lemma normalizeLoop_rest n : ∀ a o i k a' k',
  mem.normalizeLoop a o i n k = (a', k') →
  (k ≤ k' ≤ k + n)%nat ∧ ∀ j, (o + k' ≤ j)%nat → a' !! j = a !! j.
Proof.
  induction n as [|n IH]; intros a o i k a' k'; simpl.
  { intros [= <- <-]. split; [lia|done]. }
  case_decide as Htag; intros Hloop; apply IH in Hloop as [Hk Hj].
  - split; [lia|done].
  - split; [lia|]. intros j Hle. rewrite Hj by done.
    apply list_lookup_insert_ne. lia.
Qed.

(** What the caller reads through its own slice after
    [normalizeAttributes]. *)
Lemma normalizeAttributes_in_place h attrs h1 clean :
  inBounds h attrs →
  mem.normalizeAttributes h attrs = (h1, clean) →
  mem.tagsOf h1 attrs
  = filter (λ tag, tag ≠ "") (TrimSpace <$> mem.tagsOf h attrs)
    ++ drop (length (filter (λ tag, tag ≠ "")
                       (TrimSpace <$> mem.tagsOf h attrs)))
         (mem.tagsOf h attrs)
  ∧ mem.tagsOf h1 clean
    = filter (λ tag, tag ≠ "") (TrimSpace <$> mem.tagsOf h attrs)
  ∧ mem.byteArrays h1 = mem.byteArrays h
  ∧ length (mem.tagArrays h1) = length (mem.tagArrays h)
  ∧ mem.Avatar clean = mem.Avatar attrs.
Proof.
  destruct attrs as [n e p ad b tags avatar].
  unfold inBounds, mem.normalizeAttributes, mem.tagsOf. simpl.
  destruct tags as [w|]; [|by intros _ [= <- <-]].
  intros (a & Ha & Hlen). simpl. rewrite Ha. simpl.
  case_decide as Hpos.
  2: { intros [= <- <-]. simpl. rewrite Ha. simpl.
       assert (mem.len w = 0)%nat as -> by lia. by rewrite take_0. }
  destruct (mem.normalizeLoop a (mem.off w) 0 (mem.len w) 0)
    as [a' k'] eqn:Hloop.
  intros [= <- <-]. simpl.
  pose proof (normalizeLoop_rest _ _ _ _ _ _ _ Hloop) as [Hk Hrest].
  apply normalizeLoop_spec in Hloop as (H1 & H2 & H3 & H4); [|lia..].
  assert (mem.arr w < length (mem.tagArrays h))%nat as Harr
    by (by eapply lookup_lt_Some).
  rewrite list_lookup_insert_eq by done. simpl.
  rewrite take_0, Nat.add_0_r in H2. simpl in H2.
  set (kept := filter (λ tag, tag ≠ "")
                 (TrimSpace <$> take (mem.len w) (drop (mem.off w) a))) in *.
  assert (length kept = k') as Hkept.
  { rewrite <-H2, length_take, length_drop. lia. }
  split_and!; [|done|done|by rewrite length_insert|done].
  rewrite Hkept.
  rewrite <-(take_drop k' (take (mem.len w) (drop (mem.off w) a'))).
  f_equal.
  - rewrite take_take. by replace (k' `min` mem.len w)%nat with k' by lia.
  - apply list_eq. intros j.
    rewrite !lookup_drop.
    destruct (decide (k' + j < mem.len w)%nat) as [Hlt|Hge].
    + rewrite !lookup_take_lt, !lookup_drop by done. apply Hrest. lia.
    + by rewrite !lookup_take_ge by lia.
Qed.

End in_place.

(** X18.  [Create] of the service rewrites the tags of its argument in
    the caller's own array: after the call the caller reads, through the
    slice it passed, the tags that were kept, trimmed, followed by what was
    in the array behind them; the avatar is as it was.  This holds whether
    or not the payload passes validation. *)
Theorem service_Create_rewrites_callers_tags (h : mem.Heap) (s : mem.Store)
    (attrs : mem.Attributes) :
  inBounds h attrs → mem.allocated (mem.byteArrays h) (mem.Avatar attrs) →
  mem.tagsOf (mem.service_Create h s attrs).1.1 attrs
  = filter (λ tag, tag ≠ "") (TrimSpace <$> mem.tagsOf h attrs)
    ++ drop (length (filter (λ tag, tag ≠ "")
                       (TrimSpace <$> mem.tagsOf h attrs)))
         (mem.tagsOf h attrs)
  ∧ mem.avatarOf (mem.service_Create h s attrs).1.1 attrs
    = mem.avatarOf h attrs.
Proof.
  intros Hin Hav. unfold mem.service_Create.
  destruct (mem.normalizeAttributes h attrs) as [h1 clean] eqn:Hnorm.
  destruct (normalizeAttributes_in_place _ _ _ _ Hin Hnorm)
    as (Htags & _ & Hbytes & Hlen & _).
  assert (mem.allocated (mem.tagArrays h1) (mem.Tags attrs)) as Halloc.
  { unfold inBounds in Hin. destruct (mem.Tags attrs) as [w|]; [|done].
    destruct Hin as (a & Ha & _). simpl. rewrite Hlen.
    by eapply lookup_lt_Some. }
  destruct (mem.validatePayload clean) as [err|]; simpl.
  { split; [done|]. unfold mem.avatarOf. by rewrite Hbytes. }
  unfold mem.Create.
  destruct (mem.cloneAttributes h1 clean) as [h2 copied] eqn:Hclone.
  simpl. apply cloneAttributes_spec in Hclone as ([Hpt Hpb] & _).
  split.
  - rewrite <-Htags. unfold mem.tagsOf. by apply window_elems_prefix.
  - unfold mem.avatarOf. rewrite <-Hbytes.
    apply window_elems_prefix; [done|]. by rewrite Hbytes.
Qed.

Lemma service_Create_rewrites_callers_tags_witness :
  let h := mem.mkHeap [["x"; " maths "; "   "; "engine"; "y"]] [] in
  let attrs := mem.mkAttributes "Ada" "ada@example.com" "" "" ""
                 (Some (mem.mkWindow 0 1 3)) None in
  mem.tagsOf h attrs = [" maths "; "   "; "engine"]
  ∧ mem.tagsOf (mem.service_Create h mem.NewStore attrs).1.1 attrs
    = ["maths"; "engine"; "engine"].
Proof.
  intros h attrs. split; [vm_compute; reflexivity|].
  refine (eq_trans (proj1 (service_Create_rewrites_callers_tags h mem.NewStore
                             attrs _ _)) _).
  - exists ["x"; " maths "; "   "; "engine"; "y"]. split; [done|].
    simpl. lia.
  - done.
  - vm_compute. reflexivity.
Defined.

(** ** The messages of the gRPC methods *)

Section messages.

Lemma extends_refl h : mem.extends h h.
Proof. by split. Qed.

Lemma extends_trans h1 h2 h3 :
  mem.extends h1 h2 → mem.extends h2 h3 → mem.extends h1 h3.
Proof. intros [??] [??]. split; by etrans. Qed.

Lemma appendNil_inBounds {A} (arrays arrays' : list (list A)) xs w :
  mem.appendNil arrays xs = (arrays', Some w) →
  mem.arr w = length arrays
  ∧ ∃ a, arrays' !! mem.arr w = Some a ∧ (mem.off w + mem.len w ≤ length a)%nat.
Proof.
  unfold mem.appendNil. destruct (mem.window_elems arrays xs) as [|e es];
    [done|].
  intros [= <- <-]. simpl. split; [done|]. exists (e :: es).
  split; [|done]. rewrite lookup_app_r by done.
  by rewrite Nat.sub_diag.
Qed.

Lemma protoToAttributes_spec h n e p a b tags avatar h0 attrs :
  mem.protoToAttributes h n e p a b tags avatar = (h0, attrs) →
  mem.extends h h0 ∧ inBounds h0 attrs
  ∧ (∀ w, mem.Tags attrs = Some w → mem.arr w = length (mem.tagArrays h)).
Proof.
  unfold mem.protoToAttributes.
  destruct (mem.appendNil (mem.tagArrays h) tags) as [ta t'] eqn:Ht.
  destruct (mem.appendNil (mem.byteArrays h) avatar) as [ba v'] eqn:Hv.
  intros [= <- <-]. unfold inBounds. simpl.
  pose proof (appendNil_spec _ _ _ _ Ht) as (Hpt & _).
  pose proof (appendNil_spec _ _ _ _ Hv) as (Hpv & _).
  split; [by split|]. destruct t' as [w|]; [|done].
  apply appendNil_inBounds in Ht as [Harr Hin]. split; [done|].
  by intros w' [= <-].
Qed.

(** Normalising a bundle whose tags lie in an array allocated after
    the heap [h] leaves every array of [h] as it was. *)
Lemma normalizeAttributes_fresh h h0 attrs h1 clean :
  mem.extends h h0 → inBounds h0 attrs →
  (∀ w, mem.Tags attrs = Some w → (length (mem.tagArrays h) ≤ mem.arr w)%nat) →
  mem.normalizeAttributes h0 attrs = (h1, clean) →
  mem.extends h h1.
Proof.
  intros [Hpt Hpb] Hin Hfresh Hnorm.
  apply refine_normalizeAttributes in Hnorm as (_ & Hb & Hlen & Hother);
    [|done].
  split; [|by rewrite Hb].
  destruct Hpt as [k Hk]. exists (drop (length (mem.tagArrays h)) (mem.tagArrays h1)).
  rewrite <-(take_drop (length (mem.tagArrays h)) (mem.tagArrays h1)) at 1.
  f_equal. apply list_eq. intros j.
  destruct (decide (j < length (mem.tagArrays h))%nat) as [Hj|Hj].
  - rewrite lookup_take_lt by done. rewrite Hother.
    + rewrite Hk. by rewrite lookup_app_l.
    + intros w Hw. specialize (Hfresh w Hw). lia.
  - rewrite lookup_take_ge by lia. symmetry. apply lookup_ge_None. lia.
Qed.

Lemma toProto_spec h u h' pb :
  mem.toProto h u = (h', pb) →
  mem.extends h h'
  ∧ (∀ w, mem.pb_Tags pb = Some w → mem.arr w = length (mem.tagArrays h))
  ∧ (∀ w, mem.pb_Avatar pb = Some w → mem.arr w = length (mem.byteArrays h))
  ∧ mem.window_elems (mem.tagArrays h') (mem.pb_Tags pb)
    = mem.tagsOf h (mem.Attrs u)
  ∧ mem.window_elems (mem.byteArrays h') (mem.pb_Avatar pb)
    = mem.avatarOf h (mem.Attrs u)
  ∧ mem.pb_Id pb = mem.ID u.
Proof.
  unfold mem.toProto.
  destruct (mem.appendNil (mem.tagArrays h) _) as [ta t'] eqn:Ht.
  destruct (mem.appendNil (mem.byteArrays h) _) as [ba v'] eqn:Hv.
  intros [= <- <-]. simpl.
  apply appendNil_spec in Ht as (Hpt & Het & _ & Hat & _).
  apply appendNil_spec in Hv as (Hpv & Hev & _ & Hav & _).
  by split_and!.
Qed.

(** A write through a slice into an array that was allocated after
    the records of the store leaves the store as it is. *)
Lemma fresh_tag_write_unreachable h2 s arrays sl i v arrays2 ba :
  mem.allocatedStore h2 s →
  (∀ w, sl = Some w → (length (mem.tagArrays h2) ≤ mem.arr w)%nat) →
  mem.window_set arrays sl i v = Some arrays2 →
  mem.valueOfStore (mem.mkHeap arrays2 ba) s
  = mem.valueOfStore (mem.mkHeap arrays ba) s.
Proof.
  intros Hs Hfresh Hset. unfold mem.valueOfStore. f_equal.
  apply map_fmap_ext. intros k u Hu.
  unfold mem.valueOfUser, mem.valueOfAttributes, mem.tagsOf, mem.avatarOf.
  simpl. do 2 f_equal.
  destruct (mem.Tags (mem.Attrs u)) as [w|] eqn:Hw; [|done]. f_equal.
  apply (window_set_elsewhere _ _ _ _ _ _ Hset).
  intros w0 Hw0. specialize (Hfresh w0 Hw0).
  destruct (Hs k u Hu) as [Ht _]. rewrite Hw in Ht. simpl in Ht. lia.
Qed.

Lemma fresh_byte_write_unreachable h2 s arrays sl i v arrays2 ta :
  mem.allocatedStore h2 s →
  (∀ w, sl = Some w → (length (mem.byteArrays h2) ≤ mem.arr w)%nat) →
  mem.window_set arrays sl i v = Some arrays2 →
  mem.valueOfStore (mem.mkHeap ta arrays2) s
  = mem.valueOfStore (mem.mkHeap ta arrays) s.
Proof.
  intros Hs Hfresh Hset. unfold mem.valueOfStore. f_equal.
  apply map_fmap_ext. intros k u Hu.
  unfold mem.valueOfUser, mem.valueOfAttributes, mem.tagsOf, mem.avatarOf.
  simpl. do 2 f_equal.
  destruct (mem.Avatar (mem.Attrs u)) as [w|] eqn:Hw; [|done]. f_equal.
  apply (window_set_elsewhere _ _ _ _ _ _ Hset).
  intros w0 Hw0. specialize (Hfresh w0 Hw0).
  destruct (Hs k u Hu) as [_ Ha]. rewrite Hw in Ha. simpl in Ha. lia.
Qed.

(** The message that [toProto] makes of a record of the store cannot
    be used to change the store. *)
Lemma toProto_own_copy h s u h' pb :
  mem.allocatedStore h s → mem.toProto h u = (h', pb) →
  (∀ i v h2, mem.setMessageTag h' pb i v = Some h2 →
     mem.valueOfStore h2 s = mem.valueOfStore h' s)
  ∧ (∀ i c h2, mem.setMessageAvatarByte h' pb i c = Some h2 →
       mem.valueOfStore h2 s = mem.valueOfStore h' s).
Proof.
  intros Hs Hpb. apply toProto_spec in Hpb as (_ & Ht & Hv & _).
  split.
  - intros i v h2. unfold mem.setMessageTag.
    destruct (mem.window_set _ _ _ _) as [arrays2|] eqn:Hset; [|done].
    intros [= <-]. destruct h' as [ta ba]. simpl in *.
    eapply (fresh_tag_write_unreachable h s); [done| |done].
    intros w Hw. rewrite (Ht w Hw). lia.
  - intros i c h2. unfold mem.setMessageAvatarByte.
    destruct (mem.window_set _ _ _ _) as [arrays2|] eqn:Hset; [|done].
    intros [= <-]. destruct h' as [ta ba]. simpl in *.
    eapply (fresh_byte_write_unreachable h s); [done| |done].
    intros w Hw. rewrite (Hv w Hw). lia.
Qed.

End messages.

(** X19.  The gRPC methods share no array with their caller.
    [CreateUser] writes into no array that existed before the call, the
    ones of the request included, although it normalises the tags in place:
    it does so in a copy.  The message that [CreateUser] and [GetUser]
    return holds copies of the tags and the avatar of the stored record: a
    write through the message leaves the store as it is. *)
Theorem grpc_messages_share_no_array (h : mem.Heap) (s : mem.Store)
    (id n e p a b : string) (tags avatar : mem.slice) :
  mem.allocatedStore h s →
  (∃ h' s' resp,
     mem.CreateUser h s n e p a b tags avatar = (h', s', resp)
     ∧ mem.extends h h' ∧ mem.allocatedStore h' s'
     ∧ ∀ pb, resp.1 = Some pb →
         (∀ i v h2, mem.setMessageTag h' pb i v = Some h2 →
            mem.valueOfStore h2 s' = mem.valueOfStore h' s')
         ∧ (∀ i c h2, mem.setMessageAvatarByte h' pb i c = Some h2 →
              mem.valueOfStore h2 s' = mem.valueOfStore h' s'))
  ∧ (∃ h' resp,
       mem.GetUser h s id = (h', resp)
       ∧ mem.extends h h'
       ∧ ∀ pb, resp.1 = Some pb →
           (∀ u, mem.users s !! TrimSpace id = Some u →
              mem.window_elems (mem.tagArrays h') (mem.pb_Tags pb)
              = mem.tagsOf h (mem.Attrs u)
              ∧ mem.window_elems (mem.byteArrays h') (mem.pb_Avatar pb)
                = mem.avatarOf h (mem.Attrs u))
           ∧ (∀ i v h2, mem.setMessageTag h' pb i v = Some h2 →
                mem.valueOfStore h2 s = mem.valueOfStore h' s)
           ∧ (∀ i c h2, mem.setMessageAvatarByte h' pb i c = Some h2 →
                mem.valueOfStore h2 s = mem.valueOfStore h' s)).
Proof.
  intros Hs. split.
  - unfold mem.CreateUser.
    destruct (mem.protoToAttributes h n e p a b tags avatar)
      as [h0 attrs] eqn:Hproto.
    apply protoToAttributes_spec in Hproto as (Hext0 & Hin & Hfresh).
    unfold mem.service_Create.
    destruct (mem.normalizeAttributes h0 attrs) as [h1 clean] eqn:Hnorm.
    assert (mem.extends h h1) as Hext1.
    { eapply normalizeAttributes_fresh; [done..| |done].
      intros w Hw. rewrite (Hfresh w Hw). lia. }
    assert (mem.allocatedStore h1 s) as Hs1
      by (by eapply allocatedStore_extends).
    destruct (mem.validatePayload clean) as [err|].
    { do 3 eexists. split; [done|]. by split_and!. }
    destruct (mem.Create h1 s clean) as [[h2 s2] u] eqn:Hcreate.
    assert (mem.extends h1 h2) as Hext2.
    { unfold mem.Create in Hcreate.
      destruct (mem.cloneAttributes h1 clean) as [hc c] eqn:Hc.
      injection Hcreate as <- _ _.
      by apply cloneAttributes_spec in Hc as (? & _). }
    apply refine_Create in Hcreate as [_ Hs2]; [|done].
    destruct (mem.toProto h2 u) as [h3 pb] eqn:Hpb.
    pose proof (toProto_own_copy _ _ _ _ _ Hs2 Hpb) as Hown.
    apply toProto_spec in Hpb as (Hext3 & _).
    do 3 eexists. split; [done|]. split_and!.
    + eapply extends_trans; [|done]. by eapply extends_trans.
    + by eapply allocatedStore_extends.
    + by intros pb' [= <-].
  - unfold mem.GetUser.
    destruct (mem.service_Get s (TrimSpace id)) as [u [err|]] eqn:Hget.
    { do 2 eexists. split; [done|]. split; [apply extends_refl|done]. }
    destruct (mem.toProto h u) as [h' pb] eqn:Hpb.
    pose proof (toProto_own_copy _ _ _ _ _ Hs Hpb) as [Ht Hv].
    apply toProto_spec in Hpb as (Hext & _ & _ & Het & Hev & _).
    do 2 eexists. split; [done|]. split; [done|].
    intros pb' [= <-]. split_and!; [|done|done].
    intros u' Hu'. unfold mem.service_Get, mem.Get in Hget.
    destruct (service.validateIdentifier (TrimSpace id)); [done|].
    rewrite Hu' in Hget. by injection Hget as <-.
Qed.

Lemma grpc_messages_share_no_array_witness :
  ∃ h' s' resp,
    mem.CreateUser sampleHeap mem.NewStore " Ada" "ada@example.com" "" "" ""
      (Some (mem.mkWindow 0 0 2)) (Some (mem.mkWindow 0 0 3)) = (h', s', resp)
    ∧ mem.extends sampleHeap h'.
Proof.
  destruct (grpc_messages_share_no_array sampleHeap mem.NewStore "1" " Ada"
              "ada@example.com" "" "" "" (Some (mem.mkWindow 0 0 2))
              (Some (mem.mkWindow 0 0 3)))
    as [(h' & s' & resp & Hc & Hext & _) _].
  - apply map_Forall_empty.
  - by exists h', s', resp.
Defined.

(** ** The payloads of the benchmark client *)

Section payloads.

Lemma plainString_app a b :
  plainString (a +:+ b) ↔ plainString a ∧ plainString b.
Proof. unfold plainString. by rewrite list_of_append, Forall_app. Qed.

Lemma plainString_verb_d z : plainString (testclient.verb_d z).
Proof. apply FormatInt_plain. Qed.

Lemma plainString_zeros n : plainString (testclient.zeros n).
Proof. induction n; simpl; by constructor. Qed.

Lemma plainString_verb_0d width z : plainString (testclient.verb_0d width z).
Proof.
  unfold testclient.verb_0d. destruct (z <? 0).
  - change ("-" +:+ ?x) with (String "-" x). constructor; [done|].
    apply plainString_app. split; [apply plainString_zeros|].
    apply FormatInt_plain.
  - apply plainString_app. split; [apply plainString_zeros|].
    apply FormatInt_plain.
Qed.

Lemma TrimSpace_plainString s : plainString s → TrimSpace s = s.
Proof. apply TrimSpace_plain. Qed.

(** A string that starts and ends with a plain byte is trimmed to
    itself, and white space after it is trimmed away. *)
Lemma TrimSpace_between c y d r :
  plain c = true → plain d = true → whiteSpaceOnly r →
  TrimSpace (String c (y +:+ String d r)) = String c (y +:+ String d "").
Proof.
  intros Hc Hd Hr. unfold TrimSpace. rewrite trimLeft_plain by done.
  unfold trimRight.
  assert (String c (y +:+ String d r) = String c (y +:+ String d "") +:+ r)
    as ->.
  { change (String c (y +:+ String d "") +:+ r)
      with (String c ((y +:+ String d "") +:+ r)).
    by rewrite append_assoc. }
  rewrite rev_append, trimLeftRev_whiteSpaceOnly by done.
  assert (String.rev (String c (y +:+ String d ""))
          = String d (String.rev (String c y))) as Hrev.
  { change (String c (y +:+ String d "")) with (String c y +:+ String d "").
    by rewrite rev_append. }
  rewrite Hrev, trimLeftRev_plain by done. by rewrite <-Hrev, rev_rev.
Qed.

Lemma Contains_at a b : Contains (a +:+ String "@" b) "@" = true.
Proof.
  induction a as [|c a IH].
  - simpl. by destruct b.
  - change (String c a +:+ String "@" b) with (String c (a +:+ String "@" b)).
    cbn [Contains]. rewrite IH. by destruct (String.prefix _ _).
Qed.

Lemma tags_kept (l : list string) :
  Forall (λ tag, plainString tag ∧ tag ≠ "") l →
  filter (λ tag, tag ≠ "") (TrimSpace <$> l) = l.
Proof.
  induction 1 as [|tag l [Hp Hne] _ IH]; [done|].
  rewrite fmap_cons, filter_cons, (TrimSpace_plainString _ Hp).
  by rewrite decide_True, IH.
Qed.

(** The last byte of every fragment is plain. *)
Lemma fragment_end k fragment :
  testclient.fragments !! k = Some fragment →
  ∃ y d, fragment = y +:+ String d "" ∧ plain d = true.
Proof.
  unfold testclient.fragments.
  destruct k as [|[|[|[|[|k]]]]]; intros [= <-].
  - by exists "lorem ipsum dolor sit ame", "t"%char.
  - by exists "transport benchmark payloa", "d"%char.
  - by exists "gin vs grpc serializatio", "n"%char.
  - by exists "protobuf binary framin", "g"%char.
  - by exists "contention under loa", "d"%char.
Qed.

(** What [buildBio] builds ends with the last byte of a fragment and
    a space, after what the builder held. *)
Lemma bioLoop_spec n : ∀ i snippet idx salt b,
  0 ≤ idx → 0 ≤ salt → 0 ≤ i →
  idx + salt + i + Z.of_nat n ≤ maxInt64 →
  ∃ y d,
    testclient.bioLoop (S n) i snippet idx salt b
    = Some (b +:+ snippet +:+ y +:+ String d " ")
    ∧ plain d = true.
Proof.
  induction n as [|n IH]; intros i snippet idx salt b Hidx Hsalt Hi Hmax.
  - cbn [testclient.bioLoop]. unfold testclient.add64.
    rewrite (wrap64_small (idx + salt)) by (unfold maxInt64 in *; lia).
    rewrite (wrap64_small (idx + salt + i)) by (unfold maxInt64 in *; lia).
    pose proof (Z.rem_bound_pos (idx + salt + i) 5).
    destruct (Z.ltb_spec (Z.rem (idx + salt + i) 5) 0); [lia|].
    destruct (lookup_lt_is_Some_2 testclient.fragments
                (Z.to_nat (Z.rem (idx + salt + i) 5))) as [f Hf];
      [simpl; lia|].
    rewrite Hf. destruct (fragment_end _ _ Hf) as (y & d & -> & Hd).
    exists y, d. split; [|done]. f_equal.
    by rewrite !append_assoc.
  - remember (S n) as m. cbn [testclient.bioLoop]. unfold testclient.add64.
    rewrite (wrap64_small (idx + salt)) by (unfold maxInt64 in *; lia).
    rewrite (wrap64_small (idx + salt + i)) by (unfold maxInt64 in *; lia).
    pose proof (Z.rem_bound_pos (idx + salt + i) 5).
    destruct (Z.ltb_spec (Z.rem (idx + salt + i) 5) 0); [lia|].
    destruct (lookup_lt_is_Some_2 testclient.fragments
                (Z.to_nat (Z.rem (idx + salt + i) 5))) as [f Hf];
      [simpl; lia|].
    rewrite Hf. subst m.
    destruct (IH (i + 1) snippet idx salt (b +:+ snippet +:+ f +:+ " "))
      as (y & d & Hloop & Hd); [lia..|].
    rewrite Hloop. exists (f +:+ " " +:+ snippet +:+ y), d.
    split; [|done]. f_equal. by rewrite !append_assoc.
Qed.

(** [CreateUser] on a payload that passes validation. *)
Lemma CreateUser_valid s n e p a b t v :
  service.validatePayload
    (service.normalizeAttributes (mkAttributes n e p a b t v)) = None →
  service.CreateUser s n e p a b t v
  = (let next := wrap64 (nextID s + 1) in
     let u := mkUser (FormatInt next)
                (cloneAttributes
                   (service.normalizeAttributes (mkAttributes n e p a b t v))) in
     (mkStore (<[FormatInt next := u]> (users s)) next,
      (Some (service.toProto u), None))).
Proof.
  intros Hvalid. unfold service.CreateUser.
  rewrite Create_protoToAttributes. unfold service.Create.
  by rewrite Hvalid.
Qed.

Lemma appendNil_nonempty {A} (l : list A) : l ≠ [] → appendNil l = Some l.
Proof. by destruct l. Qed.

(** A payload whose fields need no trimming, but for one space at the
    end of the bio, is created as it is. *)
Lemma createUserOf_plain s w c y d tags avatar :
  plainString (testclient.w_Name w) → testclient.w_Name w ≠ "" →
  plainString (testclient.w_Email w) →
  Contains (testclient.w_Email w) "@" = true →
  plainString (testclient.w_Phone w) →
  TrimSpace (testclient.w_Address w) = testclient.w_Address w →
  testclient.w_Bio w = String c (y +:+ String d " ") →
  plain c = true → plain d = true →
  testclient.w_Tags w = Some tags → tags ≠ [] →
  Forall (λ tag, plainString tag ∧ tag ≠ "") tags →
  testclient.w_Avatar w = Some avatar → avatar ≠ [] →
  ∃ s' pb,
    testclient.createUserOf s w = (s', (Some pb, None))
    ∧ service.pb_Name pb = testclient.w_Name w
    ∧ service.pb_Email pb = testclient.w_Email w
    ∧ service.pb_Phone pb = testclient.w_Phone w
    ∧ service.pb_Address pb = testclient.w_Address w
    ∧ testclient.w_Bio w = service.pb_Bio pb +:+ " "
    ∧ service.pb_Tags pb = testclient.w_Tags w
    ∧ service.pb_Avatar pb = testclient.w_Avatar w.
Proof.
  intros Hn Hne He Hat Hp Ha Hb Hc Hd Ht Htne Htags Hv Hvne.
  unfold testclient.createUserOf. rewrite Ht, Hv.
  cbn [elems default]. rewrite !appendNil_nonempty by done.
  rewrite CreateUser_valid.
  2: { apply validatePayload_ok; cbn [service.normalizeAttributes Name Email].
       - by rewrite (TrimSpace_plainString _ Hn).
       - by rewrite (TrimSpace_plainString _ He). }
  cbv zeta. eexists _, _. split; [done|].
  unfold service.toProto. cbn [Attrs ID service.pb_Name service.pb_Email
    service.pb_Phone service.pb_Address service.pb_Bio service.pb_Tags
    service.pb_Avatar].
  rewrite stored_form. cbn [Name Email Phone Address Bio Tags Avatar elems
    default].
  unfold id. rewrite (tags_kept _ Htags).
  rewrite (appendNil_nonempty tags), (appendNil_nonempty avatar) by done.
  cbn [default].
  rewrite (appendNil_nonempty tags), (appendNil_nonempty avatar) by done.
  rewrite (TrimSpace_plainString _ Hn), (TrimSpace_plainString _ He),
    (TrimSpace_plainString _ Hp), Ha.
  split_and!; try done.
  rewrite Hb, (TrimSpace_between c y d " " Hc Hd whiteSpaceOnly_one_space).
  change (String c (y +:+ String d "") +:+ " ")
    with (String c ((y +:+ String d "") +:+ " ")).
  by rewrite append_assoc.
Qed.

Lemma plainString_last s :
  plainString s → s ≠ "" → ∃ y d, s = y +:+ String d "" ∧ plain d = true.
Proof.
  induction s as [|c s IH]; [done|]. intros Hs _.
  apply Forall_cons in Hs as [Hc Hs]. destruct s as [|c' s'].
  - by exists "", c.
  - destruct (IH Hs) as (y & d & Hy & Hd); [done|].
    exists (String c y), d. split; [|done].
    change (String c y +:+ String d "") with (String c (y +:+ String d "")).
    by rewrite <-Hy.
Qed.

(** A string between two plain strings that are not empty is trimmed
    to itself. *)
Lemma TrimSpace_plain_ends a m z :
  plainString a → a ≠ "" → plainString z → z ≠ "" →
  TrimSpace (a +:+ m +:+ z) = a +:+ m +:+ z.
Proof.
  intros Ha Hane Hz Hzne. destruct a as [|c a']; [done|].
  apply Forall_cons in Ha as [Hc _].
  destruct (plainString_last z Hz Hzne) as (y & d & -> & Hd).
  change (String c a' +:+ m +:+ y +:+ String d "")
    with (String c (a' +:+ m +:+ y +:+ String d "")).
  rewrite <-!append_assoc.
  by rewrite (TrimSpace_between c _ d "" Hc Hd ws_nil).
Qed.

Lemma buildAvatar_length prefix idx salt :
  ∃ avatar, testclient.buildAvatar prefix idx salt = Some avatar
            ∧ length avatar = 4096%nat.
Proof.
  unfold testclient.buildAvatar. eexists. split; [reflexivity|].
  rewrite length_fmap, length_seqZ. reflexivity.
Qed.

End payloads.

(** Splits a string put together from plain pieces. *)
Ltac plain_pieces :=
  rewrite ?plainString_app; repeat split;
  first [ assumption | apply plainString_verb_d | apply plainString_verb_0d
        | by repeat constructor ].

(** X20.  Every payload that the client makes from a prefix and a
    domain of plain ASCII bytes, the prefix not empty, and from an index
    and a salt that are not negative, is accepted by [CreateUser]: the
    record has the name, the e-mail address, the phone number, the address,
    the six tags and the 4096 bytes of avatar of the payload as they are,
    and its bio is the bio of the payload without the space at its end,
    which the service trims. *)
Theorem client_payload_is_accepted_as_sent (s : Store)
    (prefix domain : string) (idx salt : Z) :
  plainString prefix → prefix ≠ "" → plainString domain →
  0 ≤ idx → 0 ≤ salt → idx + salt + 64 ≤ maxInt64 →
  ∃ w s' pb,
    testclient.makeUserPayload prefix domain idx salt = Some w
    ∧ testclient.createUserOf s w = (s', (Some pb, None))
    ∧ service.pb_Name pb = testclient.w_Name w
    ∧ service.pb_Email pb = testclient.w_Email w
    ∧ service.pb_Phone pb = testclient.w_Phone w
    ∧ service.pb_Address pb = testclient.w_Address w
    ∧ testclient.w_Bio w = service.pb_Bio pb +:+ " "
    ∧ service.pb_Tags pb = testclient.w_Tags w
    ∧ service.pb_Avatar pb = testclient.w_Avatar w
    ∧ length (elems (testclient.w_Tags w)) = 6%nat
    ∧ length (elems (testclient.w_Avatar w)) = 4096%nat.
Proof.
  intros Hprefix Hne Hdomain Hidx Hsalt Hmax.
  destruct (bioLoop_spec 63 0
              (prefix +:+ " user " +:+ testclient.verb_d idx +:+ " salt "
               +:+ testclient.verb_d salt +:+ " ") idx salt "")
    as (y & d & Hbio & Hd); [lia..|simpl; lia|].
  unfold testclient.makeUserPayload, testclient.buildBio.
  change testclient.payloadBioRepeat with 64%nat. rewrite Hbio.
  set (tags := (λ i, prefix +:+ "-tag-" +:+ testclient.verb_0d 2 i +:+ "-"
                     +:+ testclient.verb_d
                           (Z.rem (testclient.add64
                                     (testclient.add64 idx salt) i) 500))
               <$> seqZ 0 testclient.payloadTagCount).
  assert (testclient.buildTags prefix idx salt = Some tags) as Htags by done.
  destruct (buildAvatar_length prefix idx salt) as (avatar & -> & Hlen).
  assert (length tags = 6%nat) as Htlen.
  { unfold tags. rewrite length_fmap, length_seqZ. reflexivity. }
  rewrite Htags.
  destruct prefix as [|c prefix'] eqn:Hpre; [done|]. rewrite <-Hpre in *.
  assert (plain c = true) as Hc.
  { rewrite Hpre in Hprefix. by apply Forall_cons in Hprefix as [? _]. }
  eexists.
  edestruct (createUserOf_plain s) with (c := c) (d := d) (tags := tags)
    (avatar := avatar) as (s' & pb & Hcreate & Hfields);
    [..|exists s', pb; split; [reflexivity|]; split; [exact Hcreate|];
        split_and!; try apply Hfields].
  - cbn [testclient.w_Name]. plain_pieces.
  - cbn [testclient.w_Name]. by rewrite Hpre.
  - cbn [testclient.w_Email]. plain_pieces.
  - cbn [testclient.w_Email].
    rewrite <-!append_assoc, (append_assoc _ "@" domain).
    apply (Contains_at _ domain).
  - cbn [testclient.w_Phone]. plain_pieces.
  - cbn [testclient.w_Address].
    rewrite <-(append_assoc (testclient.ToUpper prefix)).
    rewrite <-(append_assoc " ").
    apply TrimSpace_plain_ends;
      [apply plainString_verb_d|apply FormatInt_plain
      |apply plainString_verb_d|apply FormatInt_plain].
  - cbn [testclient.w_Bio]. rewrite Hpre.
    change ("" +:+ ?x) with x.
    change (String c prefix' +:+ ?x) with (String c (prefix' +:+ x)).
    rewrite <-!append_assoc. reflexivity.
  - exact Hc.
  - exact Hd.
  - reflexivity.
  - intros H. by rewrite H in Htlen.
  - unfold tags. apply Forall_fmap, Forall_forall. intros i _.
    cbn beta. split.
    + rewrite <-?Hpre. plain_pieces.
    + intros H%(f_equal String.length). rewrite length_append in H.
      simpl in H. lia.
  - reflexivity.
  - intros H. by rewrite H in Hlen.
  - cbn [testclient.w_Tags elems default]. exact Htlen.
  - cbn [testclient.w_Avatar elems default]. exact Hlen.
Qed.

Lemma client_payload_is_accepted_as_sent_witness :
  ∃ w s' pb,
    testclient.makeUserPayload "grpc-user" testclient.grpcEmailDomain 7
      testclient.createDataSalt = Some w
    ∧ testclient.createUserOf NewStore w = (s', (Some pb, None))
    ∧ service.pb_Name pb = testclient.w_Name w.
Proof.
  destruct (client_payload_is_accepted_as_sent NewStore "grpc-user"
              testclient.grpcEmailDomain 7 testclient.createDataSalt)
    as (w & s' & pb & Hw & Hc & Hn & _).
  - by repeat constructor.
  - done.
  - by repeat constructor.
  - lia.
  - unfold testclient.createDataSalt. lia.
  - unfold testclient.createDataSalt, maxInt64. lia.
  - exists w, s', pb. split; [exact Hw|]. split; [exact Hc|exact Hn].
Defined.

(** ** What a store behind the service holds *)

Section served_store.

Lemma validatePayload_None attrs :
  service.validatePayload attrs = None →
  Name attrs ≠ "" ∧ Contains (Email attrs) "@" = true.
Proof.
  unfold service.validatePayload. case_decide as Hn; [done|].
  destruct (bool_decide _); [done|]. simpl.
  destruct (Contains (Email attrs) "@"); [done|done].
Qed.

Lemma appendNil_not_empty {A} (l : list A) : appendNil l ≠ Some [].
Proof. by destruct l. Qed.

Lemma wellKept_stored z attrs :
  service.validatePayload (service.normalizeAttributes attrs) = None →
  wellKept (FormatInt z)
    (mkUser (FormatInt z)
       (cloneAttributes (service.normalizeAttributes attrs))).
Proof.
  intros [Hn He]%validatePayload_None. unfold wellKept.
  rewrite stored_form. cbn [ID Attrs Name Email Phone Address Bio Tags Avatar].
  cbn [service.normalizeAttributes Name Email] in Hn, He.
  rewrite !TrimSpace_idemp, elems_appendNil.
  split_and!; try done; [by eexists| |apply appendNil_not_empty..].
  apply Forall_forall. intros tag [Htag Hin]%list_elem_of_filter.
  apply list_elem_of_fmap in Hin as (x & -> & _).
  by rewrite TrimSpace_idemp.
Qed.

Lemma wellKept_serve s r :
  map_Forall wellKept (users s) → map_Forall wellKept (users (serve s r)).
Proof.
  intros Hs. destruct r as [attrs|id attrs|id|id|]; simpl; try done.
  - unfold service.Create.
    destruct (service.validatePayload _) eqn:Hv; [done|]. simpl.
    apply map_Forall_insert_2; [|done]. by apply wellKept_stored.
  - unfold service.Update.
    destruct (service.validateIdentifier id); [done|].
    destruct (service.validatePayload _) eqn:Hv; [done|].
    unfold Update. destruct (users s !! id) as [old|] eqn:Hold; [|done].
    simpl. apply map_Forall_insert_2; [|done].
    destruct (Hs id old Hold) as (_ & [z ->] & _). by apply wellKept_stored.
  - unfold service.Delete.
    destruct (service.validateIdentifier id); [done|].
    unfold Delete. destruct (users s !! id); [|done]. simpl.
    by apply map_Forall_delete.
Qed.

Lemma wellKept_served rs : map_Forall wellKept (users (served rs)).
Proof.
  unfold served. induction rs as [|r rs IH] using rev_ind.
  - apply map_Forall_empty.
  - rewrite foldl_snoc. by apply wellKept_serve.
Qed.

End served_store.

(** X21.  Whatever requests the service has served since its store was
    made, every record in the store is well kept: its key is a numeral and
    its identifier, its name is not empty, its e-mail address has an [@],
    its strings are trimmed, none of its tags is blank; [Get] and [List] of
    the service return such records only. *)
Theorem served_store_holds_valid_normal_records (rs : list request) :
  map_Forall wellKept (users (served rs))
  ∧ (∀ id u, service.Get (served rs) id = (u, None) → wellKept id u)
  ∧ Forall (λ u, wellKept (ID u) u) (elems (service.List (served rs))).
Proof.
  pose proof (wellKept_served rs) as Hs. split; [done|]. split.
  - intros id u. unfold service.Get, Get.
    destruct (service.validateIdentifier id); [done|].
    destruct (users (served rs) !! id) as [u'|] eqn:Hu; [|done].
    intros [= <-]. by apply (Hs id).
  - apply Forall_forall. intros u [k Hk]%elem_of_List.
    pose proof (Hs k u Hk) as Hu. by rewrite (proj1 Hu).
Qed.

(** ** The same update twice *)

Section update_twice.

Lemma valueOfSlice_elems {A} (arrays : list (list A)) sl :
  elems (mem.valueOfSlice arrays sl) = mem.window_elems arrays sl.
Proof. by destruct sl. Qed.

Lemma valueOfSlice_prefix {A} (arrays arrays' : list (list A)) sl :
  arrays `prefix_of` arrays' → mem.allocated arrays sl →
  mem.valueOfSlice arrays' sl = mem.valueOfSlice arrays sl.
Proof.
  intros Hp Ha. destruct sl as [w|]; [|done]. unfold mem.valueOfSlice.
  by rewrite (window_elems_prefix _ _ _ Hp Ha).
Qed.

Lemma refine_protoToAttributes h n e p a b tags avatar h0 attrs :
  mem.protoToAttributes h n e p a b tags avatar = (h0, attrs) →
  mem.valueOfAttributes h0 attrs
  = service.protoToAttributes n e p a b
      (mem.valueOfSlice (mem.tagArrays h) tags)
      (mem.valueOfSlice (mem.byteArrays h) avatar).
Proof.
  unfold mem.protoToAttributes.
  destruct (mem.appendNil (mem.tagArrays h) tags) as [ta t'] eqn:Ht.
  destruct (mem.appendNil (mem.byteArrays h) avatar) as [ba v'] eqn:Hv.
  intros [= <- <-].
  unfold mem.valueOfAttributes, service.protoToAttributes, mem.tagsOf,
    mem.avatarOf. simpl.
  rewrite !valueOfSlice_elems.
  f_equal; [exact (valueOf_appendNil _ _ _ _ Ht)
           |exact (valueOf_appendNil _ _ _ _ Hv)].
Qed.

Lemma refine_toProto h u h' pb :
  mem.toProto h u = (h', pb) →
  mem.valueOfMessage h' pb = service.toProto (mem.valueOfUser h u).
Proof.
  unfold mem.toProto.
  destruct (mem.appendNil (mem.tagArrays h) _) as [ta t'] eqn:Ht.
  destruct (mem.appendNil (mem.byteArrays h) _) as [ba v'] eqn:Hv.
  intros [= <- <-].
  unfold mem.valueOfMessage, service.toProto, mem.valueOfUser,
    mem.valueOfAttributes, mem.valueOfSlice, mem.tagsOf, mem.avatarOf. simpl.
  f_equal.
  - etrans; [exact (valueOf_appendNil _ _ _ _ Ht)|].
    by destruct (mem.Tags (mem.Attrs u)).
  - etrans; [exact (valueOf_appendNil _ _ _ _ Hv)|].
    by destruct (mem.Avatar (mem.Attrs u)).
Qed.

Lemma Update_extends h s id attrs h' s' r :
  mem.Update h s id attrs = (h', s', r) → mem.extends h h'.
Proof.
  unfold mem.Update. destruct (mem.users s !! id).
  - destruct (mem.cloneAttributes h attrs) as [h1 c] eqn:Hc.
    intros [= <- _ _]. by apply cloneAttributes_spec in Hc as (? & _).
  - intros [= <- _ _]. apply extends_refl.
Qed.

(** [UpdateUser] at the level of memory does what it does at the level
    of values, and writes into no array that was there before. *)
Lemma refine_UpdateUser h s id n e p a b tags avatar h' s' answer :
  mem.allocatedStore h s →
  mem.UpdateUser h s id n e p a b tags avatar = (h', s', answer) →
  service.UpdateUser (mem.valueOfStore h s) id n e p a b
    (mem.valueOfSlice (mem.tagArrays h) tags)
    (mem.valueOfSlice (mem.byteArrays h) avatar)
  = (mem.valueOfStore h' s', mem.valueOfAnswer h' answer)
  ∧ mem.extends h h' ∧ mem.allocatedStore h' s'.
Proof.
  intros Hs. unfold mem.UpdateUser, service.UpdateUser.
  destruct (mem.protoToAttributes h n e p a b tags avatar)
    as [h0 attrs] eqn:Hproto.
  rewrite <-(refine_protoToAttributes _ _ _ _ _ _ _ _ _ _ Hproto).
  apply protoToAttributes_spec in Hproto as (Hext0 & Hin & Hfresh).
  assert (mem.allocatedStore h0 s) as Hs0
    by (by eapply allocatedStore_extends).
  assert (apart s attrs) as Hapart.
  { intros k u w w' Hu Hw Hw'. rewrite (Hfresh w' Hw').
    destruct (Hs k u Hu) as [Ht _]. rewrite Hw in Ht. simpl in Ht. lia. }
  destruct (mem.service_Update h0 s (TrimSpace id) attrs)
    as [[h1 s1] [u err]] eqn:Hupdate.
  assert (mem.valueOfStore h s = mem.valueOfStore h0 s) as ->.
  { unfold mem.valueOfStore. f_equal. symmetry.
    by apply valueOfStore_extends. }
  rewrite (refine_service_Update _ _ _ _ _ _ _ Hs0 Hin Hapart Hupdate).
  assert (mem.extends h h1 ∧ mem.allocatedStore h1 s1) as [Hext1 Hs1].
  { unfold mem.service_Update in Hupdate.
    destruct (service.validateIdentifier (TrimSpace id)).
    { by injection Hupdate as <- <- _. }
    destruct (mem.normalizeAttributes h0 attrs) as [hn clean] eqn:Hnorm.
    assert (mem.extends h hn) as Hextn.
    { eapply normalizeAttributes_fresh; [done..| |done].
      intros w Hw. rewrite (Hfresh w Hw). lia. }
    assert (mem.allocatedStore hn s) as Hsn
      by (by eapply allocatedStore_extends).
    destruct (mem.validatePayload clean).
    { by injection Hupdate as <- <- _. }
    destruct (mem.Update hn s (TrimSpace id) clean)
      as [[hu su] [uu eu]] eqn:Hu.
    pose proof (Update_extends _ _ _ _ _ _ _ Hu) as Hextu.
    apply refine_Update in Hu as [_ Hsu]; [|done].
    assert (h1 = hu ∧ s1 = su) as [-> ->] by (by destruct eu; injection Hupdate).
    split; [by eapply extends_trans|done]. }
  cbn [fst snd]. destruct err as [err|].
  { intros [= <- <- <-]. by split_and!. }
  destruct (mem.toProto h1 u) as [h2 pb] eqn:Hpb.
  intros [= <- <- <-].
  pose proof (refine_toProto _ _ _ _ Hpb) as Hval.
  apply toProto_spec in Hpb as (Hext2 & _).
  split_and!.
  - unfold mem.valueOfAnswer. cbn [fst snd fmap option_fmap option_map].
    rewrite Hval. f_equal. unfold mem.valueOfStore. f_equal.
    symmetry. by apply valueOfStore_extends.
  - by eapply extends_trans.
  - by eapply allocatedStore_extends.
Qed.

End update_twice.

(** X8.  An update made twice over gRPC, with the same request, is the
    update made once: [UpdateUser] copies the tags of the request before
    it normalises them, so the request is as it was for the second call,
    which leaves the store as the first left it and gives an answer of the
    same value.  The same holds of [Update] of the store, which copies
    what it is given.  It does not hold of [Update] of the service called
    twice with one bundle: the first call rewrites the tags in the
    caller's array, and the second call may store other tags than the
    first. *)
Theorem UpdateUser_twice_is_UpdateUser_once (h : mem.Heap) (s : mem.Store)
    (id n e p a b : string) (tags avatar : mem.slice)
    (attrs : mem.Attributes) :
  mem.allocatedStore h s →
  (mem.allocated (mem.tagArrays h) tags →
   mem.allocated (mem.byteArrays h) avatar →
   ∃ h1 s1 r1 h2 s2 r2,
     mem.UpdateUser h s id n e p a b tags avatar = (h1, s1, r1)
     ∧ mem.UpdateUser h1 s1 id n e p a b tags avatar = (h2, s2, r2)
     ∧ mem.valueOfStore h2 s2 = mem.valueOfStore h1 s1
     ∧ mem.valueOfAnswer h2 r2 = mem.valueOfAnswer h1 r1)
  ∧ (mem.allocatedAttributes h attrs →
     ∃ h1 s1 r1 h2 s2 r2,
       mem.Update h s id attrs = (h1, s1, r1)
       ∧ mem.Update h1 s1 id attrs = (h2, s2, r2)
       ∧ mem.valueOfStore h2 s2 = mem.valueOfStore h1 s1
       ∧ mem.valueOfUser h2 r2.1 = mem.valueOfUser h1 r1.1
       ∧ r2.2 = r1.2)
  ∧ ∃ h0 s0 bundle h1 s1 u1 h2 s2 u2,
      mem.service_Update h0 s0 "1" bundle = (h1, s1, (u1, None))
      ∧ mem.service_Update h1 s1 "1" bundle = (h2, s2, (u2, None))
      ∧ mem.tagsOf h1 (mem.Attrs u1) = ["maths"; "engine"]
      ∧ mem.tagsOf h2 (mem.Attrs u2) = ["maths"; "engine"; "engine"].
Proof.
  intros Hs. split_and!.
  - intros Ht Hv.
    destruct (mem.UpdateUser h s id n e p a b tags avatar)
      as [[h1 s1] r1] eqn:H1.
    destruct (mem.UpdateUser h1 s1 id n e p a b tags avatar)
      as [[h2 s2] r2] eqn:H2.
    exists h1, s1, r1, h2, s2, r2. split; [done|]. split; [done|].
    apply refine_UpdateUser in H1 as (H1 & [Hpt Hpb] & Hs1); [|done].
    apply refine_UpdateUser in H2 as (H2 & _); [|done].
    rewrite (valueOfSlice_prefix _ _ _ Hpt Ht),
      (valueOfSlice_prefix _ _ _ Hpb Hv) in H2.
    pose proof (UpdateUser_idemp (mem.valueOfStore h s) id n e p a b
                  (mem.valueOfSlice (mem.tagArrays h) tags)
                  (mem.valueOfSlice (mem.byteArrays h) avatar)) as Hid.
    rewrite H1 in Hid. cbn [fst] in Hid. rewrite H2 in Hid.
    split; congruence.
  - intros Ha.
    destruct (mem.Update h s id attrs) as [[h1 s1] r1] eqn:H1.
    destruct (mem.Update h1 s1 id attrs) as [[h2 s2] r2] eqn:H2.
    exists h1, s1, r1, h2, s2, r2. split; [done|]. split; [done|].
    pose proof (Update_extends _ _ _ _ _ _ _ H1) as Hext.
    apply refine_Update in H1 as (H1 & Hs1); [|done].
    apply refine_Update in H2 as (H2 & _); [|done].
    rewrite (valueOfAttributes_extends _ _ _ Hext Ha) in H2.
    pose proof (Update_idemp (mem.valueOfStore h s) id
                  (mem.valueOfAttributes h attrs)) as Hid.
    rewrite H1 in Hid. cbn [fst] in Hid. rewrite H2 in Hid.
    split_and!; congruence.
  - pose (bundle := mem.mkAttributes "Ada" "ada@example.com" "" "" ""
                      (Some (mem.mkWindow 0 0 3)) None).
    pose (r0 := mem.Create (mem.mkHeap [[" maths "; "   "; "engine"]] [])
                  mem.NewStore
                  (mem.mkAttributes "Ada" "ada@example.com" "" "" ""
                     None None)).
    pose (r1 := mem.service_Update r0.1.1 r0.1.2 "1" bundle).
    pose (r2 := mem.service_Update r1.1.1 r1.1.2 "1" bundle).
    exists r0.1.1, r0.1.2, bundle, r1.1.1, r1.1.2, r1.2.1,
      r2.1.1, r2.1.2, r2.2.1.
    clear. split_and!; vm_compute; reflexivity.
Qed.

Lemma UpdateUser_twice_is_UpdateUser_once_witness :
  let h := mem.mkHeap [[" go "; "   "; "grpc"]] [["a"; "b"; "c"]%char] in
  let made := mem.Create h mem.NewStore sampleAttributes in
  let tags := Some (mem.mkWindow 0 0 3) in
  let avatar := Some (mem.mkWindow 0 1 2) in
  ∃ h1 s1 r1 h2 s2 r2,
    mem.UpdateUser made.1.1 made.1.2 " 1 " " Grace " "grace@example.com" ""
      "" "" tags avatar
    = (h1, s1, r1)
    ∧ mem.UpdateUser h1 s1 " 1 " " Grace " "grace@example.com" "" "" ""
        tags avatar
      = (h2, s2, r2)
    ∧ mem.valueOfStore h2 s2 = mem.valueOfStore h1 s1
    ∧ mem.valueOfAnswer h2 r2 = mem.valueOfAnswer h1 r1.
Proof.
  intros h made tags avatar.
  refine (proj1 (UpdateUser_twice_is_UpdateUser_once made.1.1 made.1.2
                   " 1 " " Grace " "grace@example.com" "" "" ""
                   tags avatar mem.zeroAttributes _) _ _).
  - destruct made as [[h0 s0] u0] eqn:Hmade.
    apply refine_Create in Hmade as [_ Hs]; [done|].
    apply map_Forall_empty.
  - vm_compute. lia.
  - vm_compute. lia.
Defined.
